(** * mrv2 viewport: pixel probe, read-back ring, colour-area statistics
      and annotation ghosting

    A shallow embedding of [mrViewer/lib/mrvGL/mrvGLViewport.cpp]:

    - [Viewport::_getPixelValue]      (per-format pixel decoding),
    - [Viewport::_bindReadImage]      (two-slot PBO read-back ring),
    - [Viewport::_calculateColorArea] (region statistics),
    - the selection block of [Viewport::draw] and its overlay calls,
    - [Viewport::_drawAnnotations] and [Viewport::_drawAnnotationsGL2],
    - [Viewport::_drawCursor],
    - [Viewport::_readPixel]          (the pixel under the mouse),
    - [Viewport::_drawText] and [Viewport::_drawHUD].

    Conventions.

    - C++ [float] is IEEE-754 binary32, modelled with the standard
      library's [SpecFloat] at precision 24 and maximal exponent 128; all
      arithmetic is the correctly rounded (nearest-even) operation.
    - [int], [int64_t] and [size_t] values are mathematical integers: the
      statements are about inputs on which the source's integer arithmetic
      does not overflow (signed overflow has no defined behaviour in C++).
      The one narrowing conversion the source performs
      ([short i = ghostPrevious-1]) is modelled with its wrap-around.
    - A raw image is a list of bytes; a read outside the list has no
      defined behaviour in C++ and is [None] here.  Multi-byte samples are
      assembled little-endian, the byte order of the hosts mrv2 builds for.
    - Objects reached through [std::shared_ptr] live in a heap indexed by
      address, so aliasing between annotations is preserved. *)

From Stdlib Require Import ZArith List Bool Lia String.
From Stdlib Require Import Floats.SpecFloat.
From stdpp Require Import base option list gmap.

Open Scope Z_scope.

(* ================================================================== *)
(** * Binary32 arithmetic *)
(* ================================================================== *)

Module F32.

Definition prec : Z := 24.
Definition emax : Z := 128.

Definition float : Type := spec_float.

(** Conversion of an integer to [float] ([static_cast<float>], or the
    implicit conversion of an integer operand of a float operator). *)
Definition of_Z (z : Z) : float := binary_normalize prec emax z 0 false.

Definition add : float -> float -> float := SFadd prec emax.
Definition sub : float -> float -> float := SFsub prec emax.
Definition mul : float -> float -> float := SFmul prec emax.
Definition div : float -> float -> float := SFdiv prec emax.

Definition eqb : float -> float -> bool := SFeqb.
Definition ltb : float -> float -> bool := SFltb.

Definition zero : float := S754_zero false.
Definition one : float := of_Z 1.

(** [std::numeric_limits<float>::min()]: the least positive normal
    number, 2^-126. *)
Definition FLT_MIN : float := S754_finite false 8388608 (-149).

(** [std::numeric_limits<float>::max()]: (2^24 - 1) * 2^104. *)
Definition FLT_MAX : float := S754_finite false 16777215 104.

(** [static_cast<float>(std::numeric_limits<uint32_t>::max())]. *)
Definition UINT32_MAX_F : float := of_Z 4294967295.

Definition is_nan (x : float) : bool :=
  match x with S754_nan => true | _ => false end.

(** Conversion of a [float] to [int]: truncation toward zero.  The result
    for NaN and the infinities is not defined by C++; 0 stands for it. *)
Definition to_int (x : float) : Z :=
  match x with
  | S754_finite s m e =>
      let mag := if 0 <=? e then Z.pos m * 2 ^ e else Z.pos m / 2 ^ (- e) in
      if s then - mag else mag
  | _ => 0
  end.

(** Decoding of a 32-bit pattern (sign, 8 exponent bits, 23 fraction
    bits) stored in memory as a [float]. *)
Definition of_bits (w : Z) : float :=
  let s := Z.testbit w 31 in
  let e := Z.land (Z.shiftr w 23) 255 in
  let m := Z.land w 8388607 in
  if e =? 0 then
    match m with
    | Z.pos p => S754_finite s p (-149)
    | _ => S754_zero s
    end
  else if e =? 255 then
    (if m =? 0 then S754_infinity s else S754_nan)
  else
    match m + 8388608 with
    | Z.pos p => S754_finite s p (e - 150)
    | _ => S754_nan
    end.

(** Conversion of a 16-bit [half] pattern (sign, 5 exponent bits, 10
    fraction bits) to [float]; every half value is a float, so the
    conversion only renormalises the mantissa. *)
Definition of_half (w : Z) : float :=
  let s := Z.testbit w 15 in
  let e := Z.land (Z.shiftr w 10) 31 in
  let m := Z.land w 1023 in
  if e =? 0 then
    (if m =? 0 then S754_zero s
     else binary_normalize prec emax (if s then - m else m) (-24) s)
  else if e =? 31 then
    (if m =? 0 then S754_infinity s else S754_nan)
  else
    binary_normalize prec emax (if s then - (m + 1024) else m + 1024) (e - 25) s.

End F32.

Abbreviation float := F32.float.

Declare Scope f32_scope.
Delimit Scope f32_scope with f32.
Bind Scope f32_scope with F32.float.
Infix "+" := F32.add : f32_scope.
Infix "-" := F32.sub : f32_scope.
Infix "*" := F32.mul : f32_scope.
Infix "/" := F32.div : f32_scope.
Infix "<?" := F32.ltb : f32_scope.
Infix "=?" := F32.eqb : f32_scope.

(* ================================================================== *)
(** * Imaging types used by the viewport *)
(* ================================================================== *)

Module imaging.

(** [imaging::PixelType].  The enumerators named by
    [_getPixelValue], together with the three the switch leaves to its
    [default] branch. *)
Inductive PixelType : Type :=
| None_
| L_U8 | L_U16 | L_U32 | L_F16 | L_F32
| LA_U8 | LA_U16 | LA_U32 | LA_F16 | LA_F32
| RGB_U8 | RGB_U10 | RGB_U16 | RGB_U32 | RGB_F16 | RGB_F32
| RGBA_U8 | RGBA_U16 | RGBA_U32 | RGBA_F16 | RGBA_F32
| YUV_420P_U8 | YUV_422P_U8 | YUV_444P_U8
| YUV_420P_U16 | YUV_422P_U16 | YUV_444P_U16.

(** Modelled from the spec: [imaging::getChannelCount], a table of the
    rendering library that is not part of this repository; the format
    tag fixes the channel count (L 1, LA 2, RGB 3, RGBA 4, planar YUV 3). *)
Definition getChannelCount (t : PixelType) : Z :=
  match t with
  | None_ => 0
  | L_U8 | L_U16 | L_U32 | L_F16 | L_F32 => 1
  | LA_U8 | LA_U16 | LA_U32 | LA_F16 | LA_F32 => 2
  | RGB_U8 | RGB_U10 | RGB_U16 | RGB_U32 | RGB_F16 | RGB_F32 => 3
  | RGBA_U8 | RGBA_U16 | RGBA_U32 | RGBA_F16 | RGBA_F32 => 4
  | YUV_420P_U8 | YUV_422P_U8 | YUV_444P_U8
  | YUV_420P_U16 | YUV_422P_U16 | YUV_444P_U16 => 3
  end.

(** Modelled from the spec: [imaging::getBitDepth], a table of the
    rendering library that is not part of this repository; the format
    tag fixes the bits per channel (U8 8, U10 10, U16 and F16 16, U32 and
    F32 32). *)
Definition getBitDepth (t : PixelType) : Z :=
  match t with
  | None_ => 0
  | L_U8 | LA_U8 | RGB_U8 | RGBA_U8
  | YUV_420P_U8 | YUV_422P_U8 | YUV_444P_U8 => 8
  | RGB_U10 => 10
  | L_U16 | LA_U16 | RGB_U16 | RGBA_U16 | L_F16 | LA_F16 | RGB_F16 | RGBA_F16
  | YUV_420P_U16 | YUV_422P_U16 | YUV_444P_U16 => 16
  | L_U32 | LA_U32 | RGB_U32 | RGBA_U32 | L_F32 | LA_F32 | RGB_F32 | RGBA_F32 => 32
  end.

Inductive VideoLevels : Type := FullRange | LegalRange.

Inductive YUVCoefficients : Type := REC709 | BT2020.

(** [imaging::Color4f]. *)
Record Color4f : Type := mkColor4f { r : float; g : float; b : float; a : float }.

Definition set_r (c : Color4f) (v : float) : Color4f := mkColor4f v (g c) (b c) (a c).
Definition set_g (c : Color4f) (v : float) : Color4f := mkColor4f (r c) v (b c) (a c).
Definition set_b (c : Color4f) (v : float) : Color4f := mkColor4f (r c) (g c) v (a c).
Definition set_a (c : Color4f) (v : float) : Color4f := mkColor4f (r c) (g c) (b c) v.

(** [math::Vector4f], the coefficient vector of a YUV standard. *)
Record Vector4f : Type := mkVector4f { vx : float; vy : float; vz : float; vw : float }.

(** [imaging::Size]. *)
Record Size : Type := mkSize { w : Z; h : Z }.

(** [imaging::Info], the fields the viewport reads. *)
Record Info : Type := mkInfo {
  size : Size;
  pixelType : PixelType;
  videoLevels : VideoLevels;
  yuvCoefficients : YUVCoefficients
}.

(** [imaging::Image]: its description and its raw bytes. *)
Record Image : Type := mkImage { getInfo : Info; getData : list Byte.byte }.

Definition getPixelType (i : Image) : PixelType := pixelType (getInfo i).
Definition getSize (i : Image) : Size := size (getInfo i).

(** Modelled from the spec: [imaging::U10], the packed 10-bit pixel of
    the rendering library (not part of this repository): three 10-bit
    fields in one 32-bit word.  On a little-endian host the word holds two
    padding bits, then blue, green and red from the low end upward. *)
Definition U10_r (word : Z) : Z := Z.land (Z.shiftr word 22) 1023.
Definition U10_g (word : Z) : Z := Z.land (Z.shiftr word 12) 1023.
Definition U10_b (word : Z) : Z := Z.land (Z.shiftr word 2) 1023.

End imaging.

(* ================================================================== *)
(** * Raw memory reads *)
(* ================================================================== *)

Module Mem.

(** [data[i]] for [const uint8_t* data]. *)
Definition u8 (data : list Byte.byte) (i : Z) : option Z :=
  if i <? 0 then None
  else (fun c => Z.of_N (Byte.to_N c)) <$> data !! Z.to_nat i.

(** Element [k] of [&data[off]] viewed as an array of [uint16_t]. *)
Definition u16 (data : list Byte.byte) (off k : Z) : option Z :=
  b0 ← u8 data (off + 2 * k);
  b1 ← u8 data (off + 2 * k + 1);
  Some (b0 + 256 * b1).

(** Element [k] of [&data[off]] viewed as an array of [uint32_t]. *)
Definition u32 (data : list Byte.byte) (off k : Z) : option Z :=
  b0 ← u8 data (off + 4 * k);
  b1 ← u8 data (off + 4 * k + 1);
  b2 ← u8 data (off + 4 * k + 2);
  b3 ← u8 data (off + 4 * k + 3);
  Some (b0 + 256 * b1 + 65536 * b2 + 16777216 * b3).

(** Element [k] of [&data[off]] viewed as an array of [half], converted
    to [float]. *)
Definition f16 (data : list Byte.byte) (off k : Z) : option float :=
  F32.of_half <$> u16 data off k.

(** Element [k] of [&data[off]] viewed as an array of [float]. *)
Definition f32 (data : list Byte.byte) (off k : Z) : option float :=
  F32.of_bits <$> u32 data off k.

(** A byte buffer from integer literals (for concrete images). *)
Definition bytes (l : list Z) : list Byte.byte :=
  (fun z => default Byte.x00 (Byte.of_N (Z.to_N z))) <$> l.

End Mem.

(* ================================================================== *)
(** * The colour library the viewport calls *)
(* ================================================================== *)

Import imaging.

(** [mrvCore/mrvColorSpaces.h] and the YUV helpers of the rendering
    library are outside this repository's sources; the viewport only calls
    them.  They are an interface here, and every statement below holds for
    any implementation of it. *)
Class ColorSpaces : Type := {
  (** [color::checkLevels(rgba, videoLevels)]: rescales its first argument
      in place. *)
  checkLevels : Color4f -> VideoLevels -> Color4f;
  (** [color::YPbPr::to_rgb(rgba, yuvCoefficients)]. *)
  YPbPr_to_rgb : Color4f -> Vector4f -> Color4f;
  getYUVCoefficients : YUVCoefficients -> Vector4f;
  to_hsv : Color4f -> Color4f;
  to_hsl : Color4f -> Color4f;
  to_xyz : Color4f -> Color4f;
  to_xyY : Color4f -> Color4f;
  to_lab : Color4f -> Color4f;
  to_luv : Color4f -> Color4f;
  to_yuv : Color4f -> Color4f;
  to_YDbDr : Color4f -> Color4f;
  to_yiq : Color4f -> Color4f;
  to_ITU601 : Color4f -> Color4f;
  to_ITU709 : Color4f -> Color4f;
  (** [calculate_brightness(rgba, brightness_type)]. *)
  calculate_brightness : Color4f -> Z -> float
}.

(** [math::Vector2i]. *)
Record Vector2i : Type := mkVector2i { x : Z; y : Z }.

(* ================================================================== *)
(** * Viewport::_getPixelValue *)
(* ================================================================== *)

Module PixelProbe.

(** Normalisation [v / max] of an integer sample. *)
Definition norm (v : Z) (max : float) : float := (F32.of_Z v / max)%f32.

Definition f255 : float := F32.of_Z 255.
Definition f65535 : float := F32.of_Z 65535.

(** The image column probed: [X = pos.x], reflected when the display is
    mirrored in x. *)
Definition probeX (mirror_x : bool) (size : Size) (pos : Vector2i) : Z :=
  let X := x pos in
  if mirror_x then w size - X - 1 else X.

(** The image row probed: [Y = size.h - pos.y - 1], reflected when the
    display is mirrored in y. *)
Definition probeY (mirror_y : bool) (size : Size) (pos : Vector2i) : Z :=
  let Y := h size - y pos - 1 in
  if mirror_y then h size - Y - 1 else Y.

(** The sanity check of the source, negated: the probe lies in the image. *)
Definition inImage (size : Size) (X Y : Z) : bool :=
  negb ((X <? 0) || (Y <? 0) || (X >=? w size) || (Y >=? h size)).

(** The byte offset computed before the decoding switch: planar YUV
    formats keep [(Y * w + X) * depth], all others multiply by the channel
    count. *)
Definition byteOffset (type : PixelType) (size : Size) (X Y : Z) : Z :=
  let channels := getChannelCount type in
  let depth := getBitDepth type / 8 in
  let offset := (Y * w size + X) * depth in
  match type with
  | YUV_420P_U8 | YUV_422P_U8 | YUV_444P_U8 => offset
  | YUV_420P_U16 | YUV_422P_U16 | YUV_444P_U16 => offset
  | _ => offset * channels
  end.

Section Decode.
Context `{ColorSpaces}.

(** [Viewport::_getPixelValue(rgba, image, pos)], with the two mirror
    flags of [p.displayOptions[0]].  The result is the value of the
    in-out parameter [rgba] on return, or [None] when a read falls
    outside the image bytes. *)
Definition _getPixelValue (mirror_x mirror_y : bool)
    (rgba : Color4f) (image : Image) (pos : Vector2i) : option Color4f :=
  let type := getPixelType image in
  let depth := getBitDepth type / 8 in
  let info := getInfo image in
  let levels := videoLevels info in
  let coeffs := getYUVCoefficients (yuvCoefficients info) in
  let size := getSize image in
  let data := getData image in
  let X := probeX mirror_x size pos in
  let Y := probeY mirror_y size pos in
  if negb (inImage size X Y) then Some rgba
  else
    let offset := byteOffset type size X Y in
    let rgba := set_a rgba F32.one in
    match type with
    | L_U8 =>
        v ← Mem.u8 data offset;
        Some (mkColor4f (norm v f255) (norm v f255) (norm v f255) (a rgba))
    | LA_U8 =>
        v ← Mem.u8 data offset;
        v1 ← Mem.u8 data (offset + 1);
        Some (mkColor4f (norm v f255) (norm v f255) (norm v f255) (norm v1 f255))
    | L_U16 =>
        v ← Mem.u16 data offset 0;
        Some (mkColor4f (norm v f65535) (norm v f65535) (norm v f65535) (a rgba))
    | LA_U16 =>
        v ← Mem.u16 data offset 0;
        v1 ← Mem.u16 data offset 1;
        Some (mkColor4f (norm v f65535) (norm v f65535) (norm v f65535)
                        (norm v1 f65535))
    | L_U32 =>
        let max := F32.UINT32_MAX_F in
        v ← Mem.u32 data offset 0;
        Some (mkColor4f (norm v max) (norm v max) (norm v max) (a rgba))
    | LA_U32 =>
        let max := F32.UINT32_MAX_F in
        v ← Mem.u32 data offset 0;
        v1 ← Mem.u32 data offset 1;
        Some (mkColor4f (norm v max) (norm v max) (norm v max) (norm v1 max))
    | L_F16 =>
        v ← Mem.f16 data offset 0;
        Some (mkColor4f v v v (a rgba))
    | LA_F16 =>
        v ← Mem.f16 data offset 0;
        v1 ← Mem.f16 data offset 1;
        Some (mkColor4f v v v v1)
    | RGB_U8 =>
        v0 ← Mem.u8 data offset;
        v1 ← Mem.u8 data (offset + 1);
        v2 ← Mem.u8 data (offset + 2);
        Some (mkColor4f (norm v0 f255) (norm v1 f255) (norm v2 f255) (a rgba))
    | RGB_U10 =>
        let max := F32.UINT32_MAX_F in
        f ← Mem.u32 data offset 0;
        Some (mkColor4f (norm (U10_r f) max) (norm (U10_g f) max)
                        (norm (U10_b f) max) (a rgba))
    | RGBA_U8 =>
        v0 ← Mem.u8 data offset;
        v1 ← Mem.u8 data (offset + 1);
        v2 ← Mem.u8 data (offset + 2);
        v3 ← Mem.u8 data (offset + 3);
        Some (mkColor4f (norm v0 f255) (norm v1 f255) (norm v2 f255) (norm v3 f255))
    | RGB_U16 =>
        v0 ← Mem.u16 data offset 0;
        v1 ← Mem.u16 data offset 1;
        v2 ← Mem.u16 data offset 2;
        Some (mkColor4f (norm v0 f65535) (norm v1 f65535) (norm v2 f65535) (a rgba))
    | RGBA_U16 =>
        v0 ← Mem.u16 data offset 0;
        v1 ← Mem.u16 data offset 1;
        v2 ← Mem.u16 data offset 2;
        v3 ← Mem.u16 data offset 3;
        Some (mkColor4f (norm v0 f65535) (norm v1 f65535) (norm v2 f65535)
                        (norm v3 f65535))
    | RGB_U32 =>
        let max := F32.UINT32_MAX_F in
        v0 ← Mem.u32 data offset 0;
        v1 ← Mem.u32 data offset 1;
        v2 ← Mem.u32 data offset 2;
        Some (mkColor4f (norm v0 max) (norm v1 max) (norm v2 max) (a rgba))
    | RGBA_U32 =>
        let max := F32.UINT32_MAX_F in
        v0 ← Mem.u32 data offset 0;
        v1 ← Mem.u32 data offset 1;
        v2 ← Mem.u32 data offset 2;
        v3 ← Mem.u32 data offset 3;
        Some (mkColor4f (norm v0 max) (norm v1 max) (norm v2 max) (norm v3 max))
    | RGB_F16 =>
        v0 ← Mem.f16 data offset 0;
        v1 ← Mem.f16 data offset 1;
        v2 ← Mem.f16 data offset 2;
        Some (mkColor4f v0 v1 v2 (a rgba))
    | RGBA_F16 =>
        v0 ← Mem.f16 data offset 0;
        v1 ← Mem.f16 data offset 1;
        v2 ← Mem.f16 data offset 2;
        v3 ← Mem.f16 data offset 3;
        Some (mkColor4f v0 v1 v2 v3)
    | RGB_F32 =>
        v0 ← Mem.f32 data offset 0;
        v1 ← Mem.f32 data offset 1;
        v2 ← Mem.f32 data offset 2;
        Some (mkColor4f v0 v1 v2 (a rgba))
    | RGBA_F32 =>
        v0 ← Mem.f32 data offset 0;
        v1 ← Mem.f32 data offset 1;
        v2 ← Mem.f32 data offset 2;
        v3 ← Mem.f32 data offset 3;
        Some (mkColor4f v0 v1 v2 v3)
    | YUV_420P_U8 =>
        let Ysize := w size * h size in
        let w2 := (w size + 1) / 2 in
        let h2 := (h size + 1) / 2 in
        let Usize := w2 * h2 in
        let offset2 := (Y / 2) * w2 + X / 2 in
        vy ← Mem.u8 data offset;
        vu ← Mem.u8 data (Ysize + offset2);
        vv ← Mem.u8 data (Ysize + Usize + offset2);
        let rgba := mkColor4f (norm vy f255) (norm vu f255) (norm vv f255) (a rgba) in
        Some (YPbPr_to_rgb (checkLevels rgba levels) coeffs)
    | YUV_422P_U8 =>
        let Ysize := w size * h size in
        let w2 := (w size + 1) / 2 in
        let Usize := w2 * h size in
        let offset2 := Y * w2 + X / 2 in
        vy ← Mem.u8 data offset;
        vu ← Mem.u8 data (Ysize + offset2);
        vv ← Mem.u8 data (Ysize + Usize + offset2);
        let rgba := mkColor4f (norm vy f255) (norm vu f255) (norm vv f255) (a rgba) in
        Some (YPbPr_to_rgb (checkLevels rgba levels) coeffs)
    | YUV_444P_U8 =>
        let Ysize := w size * h size in
        vy ← Mem.u8 data offset;
        vu ← Mem.u8 data (Ysize + offset);
        vv ← Mem.u8 data (Ysize * 2 + offset);
        let rgba := mkColor4f (norm vy f255) (norm vu f255) (norm vv f255) (a rgba) in
        Some (YPbPr_to_rgb (checkLevels rgba levels) coeffs)
    | YUV_420P_U16 =>
        let pos := Y * w size / 4 + X / 2 in
        let Ysize := w size * h size in
        let Usize := Ysize / 4 in
        vy ← Mem.u8 data offset;
        vu ← Mem.u8 data (Ysize + pos);
        vv ← Mem.u8 data (Ysize + Usize + pos);
        let rgba :=
          mkColor4f (norm vy f65535) (norm vu f65535) (norm vv f65535) (a rgba) in
        Some (YPbPr_to_rgb (checkLevels rgba levels) coeffs)
    | YUV_422P_U16 =>
        let Ysize := w size * h size * depth in
        let pos := Y * w size + X in
        let Usize := w size / 2 * h size * depth in
        vy ← Mem.u8 data offset;
        vu ← Mem.u8 data (Ysize + pos);
        vv ← Mem.u8 data (Ysize + Usize + pos);
        let rgba :=
          mkColor4f (norm vy f65535) (norm vu f65535) (norm vv f65535) (a rgba) in
        Some (YPbPr_to_rgb (checkLevels rgba levels) coeffs)
    | YUV_444P_U16 =>
        let Ysize := w size * h size * depth in
        vy ← Mem.u8 data offset;
        vu ← Mem.u8 data (Ysize + offset);
        vv ← Mem.u8 data (Ysize * 2 + offset);
        let rgba :=
          mkColor4f (norm vy f65535) (norm vu f65535) (norm vv f65535) (a rgba) in
        Some (YPbPr_to_rgb (checkLevels rgba levels) coeffs)
    | _ => Some rgba
    end.

End Decode.

End PixelProbe.

(* ================================================================== *)
(** * Geometry and statistics records *)
(* ================================================================== *)

Module math.

(** [math::BBox2i]: two corners. *)
Record BBox2i : Type := mkBBox2i { min : Vector2i; max : Vector2i }.

Definition bx (b : BBox2i) : Z := x (min b).
Definition by_ (b : BBox2i) : Z := y (min b).

(** [BBox2i::w()] and [BBox2i::h()] are members of the rendering library's
    box type, which is not part of this repository: the viewport code
    takes them as the parameters [boxW] and [boxH] below, and what is
    proved of it is proved for every such pair.  Where that code is
    evaluated at a concrete input, the parameters are given one of the
    two ways a box of integer pixels can count its extent: [bw] and [bh]
    leave the [max] corner out, [bw1] and [bh1] count both corners. *)
Definition bw (b : BBox2i) : Z := x (max b) - x (min b).
Definition bh (b : BBox2i) : Z := y (max b) - y (min b).

(** [a != b] on [Vector2i]. *)
Definition Vector2i_neb (u v : Vector2i) : bool :=
  negb ((x u =? x v) && (y u =? y v)).

(** [math::Matrix4x4f]: sixteen floats; the viewport only stores the
    matrices that glm computed. *)
Definition Matrix4x4f : Type := list float.

End math.

Module area.

(** [mrv::area::Info] and its per-colour-space statistics, as
    [_calculateColorArea] uses them. *)
Record Stats : Type := mkStats {
  max : Color4f; min : Color4f; diff : Color4f; mean : Color4f
}.

Record Info : Type := mkInfo { box : math.BBox2i; rgba : Stats; hsv : Stats }.

Definition set_box (i : Info) (b : math.BBox2i) : Info := mkInfo b (rgba i) (hsv i).

End area.

(** [color::Space], the colour space selected for the secondary
    statistics. *)
Inductive Space : Type :=
| kRGB | kHSV | kHSL | kCIE_XYZ | kCIE_xyY | kCIE_Lab | kCIE_Luv
| kYUV | kYDbDr | kYIQ | kITU_601 | kITU_709 | kOtherSpace.

(* ================================================================== *)
(** * The viewport's private state and the calls it makes *)
(* ================================================================== *)

Module Viewport.

(** The tools that receive the statistics. *)
Inductive Tool : Type := ColorAreaTool | HistogramTool | VectorscopeTool.

(** The calls on the GL device and on the tools that the modelled code
    makes, in the order it makes them. *)
Inductive Event : Type :=
| GlReadPixels (slot : Z)      (* bind pboIds[slot], then glReadPixels into it *)
| GlMapBuffer (slot : Z)       (* bind pboIds[slot], then glMapBuffer *)
| GlUnmapBuffer
| GlBindPackBuffer0
| ToolUpdate (t : Tool) (info : area.Info).

(** [Viewport::GLPrivate], the fields of the read-back ring: [pboIds] is
    the two-element array the indices select from. *)
Record GLPrivate : Type := mkGLPrivate {
  index : Z;
  nextIndex : Z;
  image : option (list float)
}.

Definition set_image (gl : GLPrivate) (i : option (list float)) : GLPrivate :=
  mkGLPrivate (index gl) (nextIndex gl) i.

(** The GL device: what [glMapBuffer] returns for the buffer in a slot,
    [None] for a null pointer. *)
Definition Device : Type := Z -> option (list float).

(** The part of [_initializeGL] that concerns the ring. *)
Definition _initializeGL (gl : GLPrivate) : GLPrivate :=
  mkGLPrivate 0 1 (image gl).

(** [Viewport::_bindReadImage]. *)
Definition _bindReadImage (dev : Device) (gl : GLPrivate)
    : GLPrivate * list Event :=
  let index' := (index gl + 1) mod 2 in
  let nextIndex' := (index' + 1) mod 2 in
  (mkGLPrivate index' nextIndex' (dev nextIndex'),
   [GlReadPixels index'; GlMapBuffer nextIndex']).

(** The state after a run of read-backs, one device answer per call,
    with the calls made. *)
Fixpoint readbacks (devs : list Device) (gl : GLPrivate)
    : GLPrivate * list (list Event) :=
  match devs with
  | [] => (gl, [])
  | dev :: rest =>
      let '(gl1, ev) := _bindReadImage dev gl in
      let '(gl2, evs) := readbacks rest gl1 in
      (gl2, ev :: evs)
  end.

(** The ring operations of the viewport. *)
Inductive RingOp : Type :=
| OpInitializeGL
| OpBindReadImage (dev : Device)
| OpUnmap.

Definition ringStep (gl : GLPrivate) (op : RingOp) : GLPrivate :=
  match op with
  | OpInitializeGL => _initializeGL gl
  | OpBindReadImage dev => fst (_bindReadImage dev gl)
  | OpUnmap => set_image gl None
  end.

(** The states of a viewport: a default-constructed [GLPrivate]
    ([index = 0], [nextIndex = 1], no image) and whatever the ring
    operations make of it. *)
Inductive reachable : GLPrivate -> Prop :=
| reachable_new : reachable (mkGLPrivate 0 1 None)
| reachable_step gl op : reachable gl -> reachable (ringStep gl op).

(** The widgets and sizes [_calculateColorArea] consults. *)
Record UI : Type := mkUI {
  uiLType : Z;                 (* p.ui->uiLType->value() *)
  uiBColorType : Z;            (* p.ui->uiBColorType->value() *)
  renderSize : Size            (* gl.buffer->getSize() *)
}.

Section ColorArea.
Context `{ColorSpaces}.
(** The enumerator of [color::Space] with a given integer value. *)
Variable spaceOf : Z -> Space.
(** [BBox2i::w()] and [BBox2i::h()] of the rendering library. *)
Variable boxW boxH : math.BBox2i -> Z.

(** The accumulation block of the pixel loop, written once for the
    RGBA statistics and once for the secondary ones: add to the running
    sum, lower the minima, raise the maxima. *)
Definition accumulate (s : area.Stats) (c : Color4f) : area.Stats :=
  let mean := area.mean s in
  let mean :=
    mkColor4f (r mean + r c)%f32 (g mean + g c)%f32 (b mean + b c)%f32
              (a mean + a c)%f32 in
  let mn := area.min s in
  let mn := if (r c <? r mn)%f32 then set_r mn (r c) else mn in
  let mn := if (g c <? g mn)%f32 then set_g mn (g c) else mn in
  let mn := if (b c <? b mn)%f32 then set_b mn (b c) else mn in
  let mn := if (a c <? a mn)%f32 then set_a mn (a c) else mn in
  let mx := area.max s in
  let mx := if (r mx <? r c)%f32 then set_r mx (r c) else mx in
  let mx := if (g mx <? g c)%f32 then set_g mx (g c) else mx in
  let mx := if (b mx <? b c)%f32 then set_b mx (b c) else mx in
  let mx := if (a mx <? a c)%f32 then set_a mx (a c) else mx in
  area.mkStats mx mn (area.diff s) mean.

(** Clamping of r, g and b to [0, 1] before the conversion. *)
Definition clamp01 (c : Color4f) : Color4f :=
  let c := if (r c <? F32.zero)%f32 then set_r c F32.zero else c in
  let c := if (g c <? F32.zero)%f32 then set_g c F32.zero else c in
  let c := if (b c <? F32.zero)%f32 then set_b c F32.zero else c in
  let c := if (F32.one <? r c)%f32 then set_r c F32.one else c in
  let c := if (F32.one <? g c)%f32 then set_g c F32.one else c in
  let c := if (F32.one <? b c)%f32 then set_b c F32.one else c in
  c.

(** The [switch (hsv_colorspace)]. *)
Definition convert (space : Space) (rgba : Color4f) : Color4f :=
  match space with
  | kHSV => to_hsv rgba
  | kHSL => to_hsl rgba
  | kCIE_XYZ => to_xyz rgba
  | kCIE_xyY => to_xyY rgba
  | kCIE_Lab => to_lab rgba
  | kCIE_Luv => to_luv rgba
  | kYUV => to_yuv rgba
  | kYDbDr => to_YDbDr rgba
  | kYIQ => to_yiq rgba
  | kITU_601 => to_ITU601 rgba
  | kITU_709 => to_ITU709 rgba
  | kRGB | kOtherSpace => rgba
  end.

(** One pixel of the scan: read B, G, R, A from the mapped buffer,
    accumulate, clamp, convert, accumulate again. *)
Definition scanPixel (img : list float) (ui : UI) (info : area.Info) (X Y : Z)
    : option area.Info :=
  let at_ (k : Z) : option float :=
    let i := (X + Y * w (renderSize ui)) * 4 + k in
    if i <? 0 then None else img !! Z.to_nat i in
  vb ← at_ 0;
  vg ← at_ 1;
  vr ← at_ 2;
  va ← at_ 3;
  let rgba := mkColor4f vr vg vb va in
  let stats_rgba := accumulate (area.rgba info) rgba in
  let rgba := clamp01 rgba in
  let hsv := convert (spaceOf (uiBColorType ui + 1)) rgba in
  let hsv := set_a hsv (calculate_brightness rgba (uiLType ui)) in
  let stats_hsv := accumulate (area.hsv info) hsv in
  Some (area.mkInfo (area.box info) stats_rgba stats_hsv).

(** A [for] loop over a list of index values with a fallible body. *)
Fixpoint forEach {S : Type} (body : S -> Z -> option S) (s : S) (l : list Z)
    : option S :=
  match l with
  | [] => Some s
  | i :: rest => s' ← body s i; forEach body s' rest
  end.

Definition splat (v : float) : Color4f := mkColor4f v v v v.

(** The reset at the top of [_calculateColorArea]: maxima to
    [numeric_limits<float>::min()], minima to [max()], sums to 0. *)
Definition resetStats (s : area.Stats) : area.Stats :=
  area.mkStats (splat F32.FLT_MIN) (splat F32.FLT_MAX) (area.diff s) (splat F32.zero).

(** The tail of [_calculateColorArea]: divide the sums by [num] and
    take the differences. *)
Definition finishStats (s : area.Stats) (num : Z) : area.Stats :=
  let n := F32.of_Z num in
  let mean := area.mean s in
  let mean :=
    mkColor4f (r mean / n)%f32 (g mean / n)%f32 (b mean / n)%f32 (a mean / n)%f32 in
  let mx := area.max s in
  let mn := area.min s in
  let diff :=
    mkColor4f (r mx - r mn)%f32 (g mx - g mn)%f32 (b mx - b mn)%f32
              (a mx - a mn)%f32 in
  area.mkStats mx mn diff mean.

(** [Viewport::_calculateColorArea(info)]: the value of [info] on
    return, or [None] when the scan reads outside the mapped buffer. *)
Definition _calculateColorArea (gl : GLPrivate) (ui : UI) (info : area.Info)
    : option area.Info :=
  match image gl with
  | None => Some info
  | Some img =>
      let info := area.mkInfo (area.box info) (resetStats (area.rgba info))
                              (resetStats (area.hsv info)) in
      let box := area.box info in
      let maxX := x (math.max box) in
      let maxY := y (math.max box) in
      info ← forEach (fun info Y =>
                forEach (fun info X => scanPixel img ui info X Y) info
                        (seqZ (math.bx box) (maxX - math.bx box)))
              info (seqZ (math.by_ box) (maxY - math.by_ box));
      let num := boxW box * boxH box in
      Some (area.mkInfo box (finishStats (area.rgba info) num)
                        (finishStats (area.hsv info) num))
  end.

(** The part of [TimelineViewport::Private] the selection block uses,
    and the three tool pointers (set when the tool's panel exists). *)
Record Private : Type := mkPrivate {
  selection : math.BBox2i;
  colorAreaInfo : area.Info;
  colorAreaTool : bool;
  histogramTool : bool;
  vectorscopeTool : bool
}.

Definition set_colorAreaInfo (p : Private) (i : area.Info) : Private :=
  mkPrivate (selection p) i (colorAreaTool p) (histogramTool p) (vectorscopeTool p).

(** The "check min < max" swaps of [draw]; the temporary is a [float]. *)
Definition orderCorners (sel : math.BBox2i) : math.BBox2i :=
  let mn := math.min sel in
  let mx := math.max sel in
  let '(mn, mx) :=
    if x mx <? x mn
    then let tmp := F32.of_Z (x mx) in
         (mkVector2i (F32.to_int tmp) (y mn), mkVector2i (x mn) (y mx))
    else (mn, mx) in
  let '(mn, mx) :=
    if y mx <? y mn
    then let tmp := F32.of_Z (y mx) in
         (mkVector2i (x mn) (F32.to_int tmp), mkVector2i (x mx) (y mn))
    else (mn, mx) in
  math.mkBBox2i mn mx.

(** The selection block of [Viewport::draw]: from the copy of
    [p.selection] to the unbinding of the pack buffer.  [None] when the
    statistics scan reads outside the mapped buffer.  [updatePixelBar],
    which [draw] calls between the tool updates and the unmapping, refreshes
    the pixel read-out and is left out: it assigns none of these fields. *)
Definition draw_selection (dev : Device) (ui : UI) (p : Private) (gl : GLPrivate)
    : option (Private * GLPrivate * list Event) :=
  let p := set_colorAreaInfo p (area.set_box (colorAreaInfo p) (selection p)) in
  let sel := selection p in
  let '(p, gl, ev1) :=
    if math.Vector2i_neb (math.min sel) (math.max sel)
    then
      let sel := orderCorners sel in
      let p := set_colorAreaInfo p (area.set_box (colorAreaInfo p) sel) in
      let '(gl, ev) := _bindReadImage dev gl in
      (p, gl, ev)
    else (p, set_image gl None, []) in
  '(p, ev2) ←
    (if colorAreaTool p
     then info ← _calculateColorArea gl ui (colorAreaInfo p);
          Some (set_colorAreaInfo p info, [ToolUpdate ColorAreaTool info])
     else Some (p, []));
  let ev3 := if histogramTool p then [ToolUpdate HistogramTool (colorAreaInfo p)] else [] in
  let ev4 := if vectorscopeTool p then [ToolUpdate VectorscopeTool (colorAreaInfo p)] else [] in
  let '(gl, ev5) :=
    match image gl with
    | Some _ => (set_image gl None, [GlUnmapBuffer])
    | None => (gl, [])
    end in
  Some (p, gl, ev1 ++ ev2 ++ ev3 ++ ev4 ++ ev5 ++ [GlBindPackBuffer0]).

End ColorArea.

(* ---------------------------------------------------------------- *)
(** ** Annotations *)

(** The dynamic type a [dynamic_cast] on a shape tests for. *)
Inductive ShapeClass : Type := GLPathShape | GLTextShape | GL2TextShape.

(** The members of [GL2TextShape] that [_drawAnnotationsGL2] assigns:
    [pixels_per_unit], [w], [h] and [viewZoom]. *)
Record GL2View : Type := mkGL2View {
  pixels_per_unit : float; win_w : Z; win_h : Z; viewZoom : float
}.

(** A shape object: its class, its text (text shapes), and the members
    the viewport reads and writes. *)
Record Shape : Type := mkShape {
  shape_class : ShapeClass;
  text : string;
  color : Color4f;
  matrix : math.Matrix4x4f;
  gl2 : GL2View
}.

Definition set_color_a (s : Shape) (v : float) : Shape :=
  mkShape (shape_class s) (text s) (set_a (color s) v) (matrix s) (gl2 s).
Definition set_matrix (s : Shape) (m : math.Matrix4x4f) : Shape :=
  mkShape (shape_class s) (text s) (color s) m (gl2 s).
Definition set_gl2 (s : Shape) (v : GL2View) : Shape :=
  mkShape (shape_class s) (text s) (color s) (matrix s) v.

Definition is_GLTextShape (s : Shape) : bool :=
  match shape_class s with GLTextShape => true | _ => false end.
Definition is_GL2TextShape (s : Shape) : bool :=
  match shape_class s with GL2TextShape => true | _ => false end.
Definition empty (t : string) : bool :=
  match t with EmptyString => true | _ => false end.

(** An annotation: its frame, its all-frames flag and its shapes, a
    vector of shared pointers (addresses in the shape heap). *)
Record Annotation : Type := mkAnnotation {
  frame : Z;
  allFrames : bool;
  shapes : list nat
}.

(** The timeline player, as the annotation passes query it:
    [currentTime().value()] converted to [int64_t], and
    [getAnnotations(previous, next)]. *)
Record TimelinePlayer : Type := mkTimelinePlayer {
  currentTime : Z;
  getAnnotations : Z -> Z -> list Annotation
}.

(** What the annotation passes read from the viewport: the two ghost
    counts, and the values glm computes from the view position, the zoom
    and the viewport size (glm is outside this repository). *)
Record View : Type := mkView {
  ghostPrevious : Z;
  ghostNext : Z;
  text_mvp : math.Matrix4x4f;   (* the matrix built for a text shape *)
  gl2_mvp : math.Matrix4x4f;    (* the matrix built by the GL2 pass *)
  gl2_view : GL2View
}.

(** The calls an annotation pass makes on the GL state and on shapes;
    [ShapeDraw s st] is [shape->draw(gl.render)] on the shape at address
    [s], whose members are [st] at that moment.  [draw] renders: it is
    taken not to assign the members of the shape it is called on. *)
Inductive DrawEvent : Type :=
| GlStencilMask
| GlClearStencil
| GlEnableStencil
| GlDisableStencil
| ShapeDraw (s : nat) (st : Shape).

(** The state an annotation pass threads: the shape heap, the [mvp]
    reference parameter and the calls made so far. *)
Record DrawState : Type := mkDrawState {
  heap : gmap nat Shape;
  mvp : math.Matrix4x4f;
  out : list DrawEvent
}.

Definition emit (st : DrawState) (evs : list DrawEvent) : DrawState :=
  mkDrawState (heap st) (mvp st) (out st ++ evs).

(** Conversion of an [int] to [short]. *)
Definition to_short (z : Z) : Z := (z + 32768) mod 65536 - 32768.

(** A ghost scan: run through the loop counter's values in order; at
    the first [i] whose frame is the annotation's, assign and [break]. *)
Fixpoint ghostScan (frameAt : Z -> Z) (alphaAt : Z -> float)
    (annotationFrame : Z) (counter : list Z) (alphamult : float) : float :=
  match counter with
  | [] => alphamult
  | i :: rest =>
      if frameAt i =? annotationFrame then alphaAt i
      else ghostScan frameAt alphaAt annotationFrame rest alphamult
  end.

(** [for (short i = ghostPrevious - 1; i > 0; --i)]. *)
Definition previousCounter (ghostPrevious : Z) : list Z :=
  reverse (seqZ 1 (to_short (ghostPrevious - 1))).

(** [for (short i = 1; i < ghostNext; ++i)]. *)
Definition nextCounter (ghostNext : Z) : list Z := seqZ 1 (ghostNext - 1).

(** [1.F - (float)i / ghost]. *)
Definition ghostAlpha (i ghost : Z) : float :=
  (F32.one - F32.of_Z i / F32.of_Z ghost)%f32.

(** The alpha multiplier of one annotation at the current frame. *)
Definition alphaMult (v : View) (currentFrame : Z) (annotation : Annotation) : float :=
  let annotationFrame := frame annotation in
  let alphamult := F32.zero in
  if (currentFrame =? annotationFrame) || allFrames annotation then F32.one
  else
    let alphamult :=
      if ghostPrevious v =? 0 then alphamult
      else ghostScan (fun i => currentFrame - i) (fun i => ghostAlpha i (ghostPrevious v))
                     annotationFrame (previousCounter (ghostPrevious v)) alphamult in
    let alphamult :=
      if ghostNext v =? 0 then alphamult
      else ghostScan (fun i => currentFrame + i) (fun i => ghostAlpha i (ghostNext v))
                     annotationFrame (nextCounter (ghostNext v)) alphamult in
    alphamult.

Section Passes.
(** Whether the build defines [USE_OPENGL2]. *)
Variable USE_OPENGL2 : bool.
Variable v : View.

(** The body of the shape loop of [_drawAnnotations]. *)
Definition drawShape (alphamult : float) (st : DrawState) (sp : nat) : DrawState :=
  match heap st !! sp with
  | None => st
  | Some shape =>
      if USE_OPENGL2 && is_GL2TextShape shape then st
      else
        let mvp :=
          if negb USE_OPENGL2 && is_GLTextShape shape && negb (empty (text shape))
          then text_mvp v else mvp st in
        let a := a (color shape) in
        let shape := set_color_a shape (a * alphamult)%f32 in
        let shape := set_matrix shape mvp in
        let call := ShapeDraw sp shape in
        let shape := set_color_a shape a in
        mkDrawState (<[sp := shape]> (heap st)) mvp (out st ++ [call])
  end.

(** The body of the annotation loop of [_drawAnnotations]. *)
Definition drawAnnotation (currentFrame : Z) (st : DrawState) (annotation : Annotation)
    : DrawState :=
  let alphamult := alphaMult v currentFrame annotation in
  if (alphamult =? F32.zero)%f32 then st
  else foldl (drawShape alphamult) st (reverse (shapes annotation)).

(** [Viewport::_drawAnnotations(mvp)]. *)
Definition _drawAnnotations (player : option TimelinePlayer) (st : DrawState)
    : DrawState :=
  match player with
  | None => st
  | Some player =>
      let currentFrame := currentTime player in
      let annotations := getAnnotations player (ghostPrevious v) (ghostNext v) in
      match annotations with
      | [] => st
      | _ =>
          let st := emit st [GlStencilMask; GlClearStencil; GlEnableStencil] in
          let st := foldl (drawAnnotation currentFrame) st annotations in
          emit st [GlDisableStencil]
      end
  end.

(** The body of the shape loop of [_drawAnnotationsGL2]. *)
Definition drawShapeGL2 (alphamult : float) (st : DrawState) (sp : nat) : DrawState :=
  match heap st !! sp with
  | None => st
  | Some shape =>
      if negb (is_GL2TextShape shape) then st
      else
        let a := a (color shape) in
        let shape := set_color_a shape (a * alphamult)%f32 in
        let shape := set_gl2 shape (gl2_view v) in
        let shape := set_matrix shape (gl2_mvp v) in
        let call := ShapeDraw sp shape in
        let shape := set_color_a shape a in
        mkDrawState (<[sp := shape]> (heap st)) (mvp st) (out st ++ [call])
  end.

Definition drawAnnotationGL2 (currentFrame : Z) (st : DrawState)
    (annotation : Annotation) : DrawState :=
  let alphamult := alphaMult v currentFrame annotation in
  if (alphamult =? F32.zero)%f32 then st
  else foldl (drawShapeGL2 alphamult) st (shapes annotation).

(** [Viewport::_drawAnnotationsGL2()]. *)
Definition _drawAnnotationsGL2 (player : option TimelinePlayer) (st : DrawState)
    : DrawState :=
  match player with
  | None => st
  | Some player =>
      let currentFrame := currentTime player in
      let annotations := getAnnotations player (ghostPrevious v) (ghostNext v) in
      match annotations with
      | [] => st
      | _ =>
          let st := emit st [GlStencilMask; GlClearStencil] in
          foldl (drawAnnotationGL2 currentFrame) st annotations
      end
  end.

(** The annotation passes of one [Viewport::draw], in the order [draw]
    runs them: [_drawAnnotations] inside the block that requires the
    offscreen buffer and its vertex objects ([bufferReady]), and, in a build
    with [USE_OPENGL2], [_drawAnnotationsGL2] at the end of [draw]. *)
Definition draw_annotations (bufferReady showAnnotations : bool)
    (player : option TimelinePlayer) (st : DrawState) : DrawState :=
  let st := if bufferReady && showAnnotations then _drawAnnotations player st else st in
  if USE_OPENGL2 && showAnnotations then _drawAnnotationsGL2 player st else st.

End Passes.

(** The shape addresses of the [ShapeDraw] calls of a log, in order. *)
Fixpoint drawnShapes (evs : list DrawEvent) : list nat :=
  match evs with
  | [] => []
  | ShapeDraw s _ :: rest => s :: drawnShapes rest
  | _ :: rest => drawnShapes rest
  end.

End Viewport.

(* ================================================================== *)
(** * Concrete inputs *)
(* ================================================================== *)

Module Sample.

Import Viewport.

(** A colour library whose conversions return their argument, so that a
    decoded sample shows the raw values. *)
Definition plainColorSpaces : ColorSpaces := {|
  checkLevels c _ := c;
  YPbPr_to_rgb c _ := c;
  getYUVCoefficients _ := mkVector4f F32.zero F32.zero F32.zero F32.zero;
  to_hsv c := c; to_hsl c := c; to_xyz c := c; to_xyY c := c;
  to_lab c := c; to_luv c := c; to_yuv c := c; to_YDbDr c := c;
  to_yiq c := c; to_ITU601 c := c; to_ITU709 c := c;
  calculate_brightness c _ := r c
|}.

(** A colour library whose level correction and matrix do not commute:
    the correction marks the red channel, the matrix moves red to blue. *)
Definition markingColorSpaces : ColorSpaces := {|
  checkLevels c _ := set_r c F32.FLT_MAX;
  YPbPr_to_rgb c _ := mkColor4f (b c) (g c) (r c) (a c);
  getYUVCoefficients _ := mkVector4f F32.zero F32.zero F32.zero F32.zero;
  to_hsv c := c; to_hsl c := c; to_xyz c := c; to_xyY c := c;
  to_lab c := c; to_luv c := c; to_yuv c := c; to_YDbDr c := c;
  to_yiq c := c; to_ITU601 c := c; to_ITU709 c := c;
  calculate_brightness c _ := r c
|}.

Definition spaceOf (n : Z) : Space :=
  match n with
  | 0 => kRGB | 1 => kHSV | 2 => kHSL | 3 => kCIE_XYZ | 4 => kCIE_xyY
  | 5 => kCIE_Lab | 6 => kCIE_Luv | 7 => kYUV | 8 => kYDbDr | 9 => kYIQ
  | 10 => kITU_601 | 11 => kITU_709 | _ => kOtherSpace
  end.

Definition image (t : PixelType) (w h : Z) (bytes : list Z) : Image :=
  mkImage (imaging.mkInfo (mkSize w h) t FullRange REC709) (Mem.bytes bytes).

Definition black : Color4f := mkColor4f F32.zero F32.zero F32.zero F32.zero.
Definition grey : Color4f :=
  mkColor4f (F32.of_Z 7) (F32.of_Z 7) (F32.of_Z 7) (F32.of_Z 7).

(** One RGB_U10 pixel with every field at full scale. *)
Definition u10_white : Image := image RGB_U10 1 1 [255; 255; 255; 255].

(** A 3 x 4 YUV 4:2:0 image: luma bytes 0..11, U plane 20..23, V plane
    30..33. *)
Definition yuv420_3x4 : Image :=
  image YUV_420P_U8 3 4
        [0; 1; 2; 3; 4; 5; 6; 7; 8; 9; 10; 11; 20; 21; 22; 23; 30; 31; 32; 33].

(** A 2 x 2 YUV 4:2:0 image. *)
Definition yuv420_2x2 : Image := image YUV_420P_U8 2 2 [16; 17; 18; 19; 128; 129].

Definition box (x0 y0 x1 y1 : Z) : math.BBox2i :=
  math.mkBBox2i (mkVector2i x0 y0) (mkVector2i x1 y1).

Definition stats0 : area.Stats := area.mkStats grey grey grey grey.

(** A viewport whose three tools exist and whose statistics hold a
    previous result. *)
Definition private (sel : math.BBox2i) : Private :=
  mkPrivate sel (area.mkInfo (box 0 0 0 0) stats0 stats0) true true true.

Definition ui : UI := mkUI 0 0 (mkSize 2 2).

(** A device whose buffers hold a 2 x 2 white frame. *)
Definition whiteDevice : Device := fun _ => Some (replicate 16 F32.one).

(** A device whose [glMapBuffer] fails. *)
Definition failingDevice : Device := fun _ => None.

Definition gl0 : GLPrivate := mkGLPrivate 0 1 None.

Definition view (previous next : Z) : View :=
  mkView previous next [] [] (mkGL2View F32.zero 0 0 F32.zero).

Definition shape (c : ShapeClass) (alpha : float) : Shape :=
  mkShape c "a" (mkColor4f F32.one F32.one F32.one alpha) []
          (mkGL2View F32.zero 0 0 F32.zero).

(** Three shapes at addresses 1, 2, 3: a stroke, a text, a stroke. *)
Definition shapeHeap : gmap nat Shape :=
  <[1%nat := shape GLPathShape F32.one]>
    (<[2%nat := shape GLTextShape (F32.of_Z 2)]>
       (<[3%nat := shape GLPathShape F32.one]> ∅)).

Definition annotation10 : Annotation := mkAnnotation 10 false [1; 2; 3]%nat.

Definition drawState0 : DrawState := mkDrawState shapeHeap [] [].

End Sample.


(* ================================================================== *)
(** * Planar YUV layout, for the statements about addressing *)
(* ================================================================== *)

Module Planar.

Definition isPlanarU8 (t : PixelType) : bool :=
  match t with YUV_420P_U8 | YUV_422P_U8 | YUV_444P_U8 => true | _ => false end.

Definition isPlanarU16 (t : PixelType) : bool :=
  match t with YUV_420P_U16 | YUV_422P_U16 | YUV_444P_U16 => true | _ => false end.

Definition isPlanarYUV (t : PixelType) : bool := isPlanarU8 t || isPlanarU16 t.

(** Horizontal and vertical chroma subsampling: 2,2 for 4:2:0, 2,1 for
    4:2:2 and 1,1 for 4:4:4. *)
Definition subX (t : PixelType) : Z :=
  match t with
  | YUV_420P_U8 | YUV_420P_U16 | YUV_422P_U8 | YUV_422P_U16 => 2
  | _ => 1
  end.

Definition subY (t : PixelType) : Z :=
  match t with
  | YUV_420P_U8 | YUV_420P_U16 => 2
  | _ => 1
  end.

(** The divisor of the normalisation the source applies to a format's
    planar samples. *)
Definition sampleMax (t : PixelType) : float :=
  if isPlanarU8 t then PixelProbe.f255 else PixelProbe.f65535.

(** Width and height of a chroma plane, rounded up as the source rounds
    them for the 8-bit formats. *)
Definition chromaW (t : PixelType) (size : Size) : Z := (w size + subX t - 1) / subX t.
Definition chromaH (t : PixelType) (size : Size) : Z := (h size + subY t - 1) / subY t.

(** Bytes of a planar image: a luma plane and two chroma planes of
    [getBitDepth / 8] bytes per sample. *)
Definition byteCount (t : PixelType) (size : Size) : Z :=
  (getBitDepth t / 8) * (w size * h size + 2 * (chromaW t size * chromaH t size)).

(** The chroma offset as the specification words it:
    [(y / subY) * (w / subX) + x / subX]. *)
Definition claimedChromaOffset (t : PixelType) (size : Size) (X Y : Z) : Z :=
  (Y / subY t) * (w size / subX t) + X / subX t.

(** The chroma offset with the row length rounded up:
    [(y / subY) * ceil(w / subX) + x / subX]. *)
Definition chromaOffset (t : PixelType) (size : Size) (X Y : Z) : Z :=
  (Y / subY t) * chromaW t size + X / subX t.

End Planar.

Module Claimed.

Import Planar.

(** Sample [k] of a planar image, counted in elements of the format's
    size: bytes for the 8-bit formats, 16-bit words for the others. *)
Definition sample (t : PixelType) (data : list Byte.byte) (k : Z) : option Z :=
  if isPlanarU8 t then Mem.u8 data k else Mem.u16 data 0 k.

(** Planar decoding as the specification words it: luma at [y * w + x],
    chroma at [claimedChromaOffset] in a U plane that starts at the luma
    plane size and in a V plane that starts [uPlaneSize] samples further;
    normalise, correct the levels, apply the matrix. *)
Definition decode `{ColorSpaces} (image : Image) (X Y : Z) (uPlaneSize : Z)
    : option Color4f :=
  let t := getPixelType image in
  let size := getSize image in
  let data := getData image in
  let lumaSize := w size * h size in
  vy ← sample t data (Y * w size + X);
  vu ← sample t data (lumaSize + claimedChromaOffset t size X Y);
  vv ← sample t data (lumaSize + uPlaneSize + claimedChromaOffset t size X Y);
  let max := if isPlanarU8 t then F32.of_Z 255 else F32.of_Z 65535 in
  let yuv := mkColor4f (F32.div (F32.of_Z vy) max) (F32.div (F32.of_Z vu) max)
                       (F32.div (F32.of_Z vv) max) F32.one in
  Some (YPbPr_to_rgb (checkLevels yuv (videoLevels (getInfo image)))
                     (getYUVCoefficients (yuvCoefficients (getInfo image)))).

End Claimed.

(* ================================================================== *)
(** * Vocabulary for the statements about the annotation passes *)
(* ================================================================== *)

Module DrawSpec.

Import Viewport.

(** What an annotation pass never changes in a shape: its class, its
  text and its colour. *)
Definition frozen (s : Shape) : ShapeClass * string * Color4f :=
(shape_class s, text s, color s).

(** Two heaps hold the same shapes up to the members a pass may
  rewrite ([matrix] and the GL2 view members). *)
Definition same_frozen (h1 h2 : gmap nat Shape) : Prop :=
forall q : nat, frozen <$> h1 !! q = frozen <$> h2 !! q.

(** The shapes [_drawAnnotations] draws: every live shape, but for the
  GL2 text shapes when the build defines [USE_OPENGL2]. *)
Definition drawnByMain (USE_OPENGL2 : bool) (h : gmap nat Shape) (p : nat) : bool :=
match h !! p with
| Some s => negb (USE_OPENGL2 && is_GL2TextShape s)
| None => false
end.

(** The shapes [_drawAnnotationsGL2] draws: the GL2 text shapes. *)
Definition drawnByGL2 (h : gmap nat Shape) (p : nat) : bool :=
match h !! p with
| Some s => is_GL2TextShape s
| None => false
end.

(** Whether an annotation is drawn at a frame. *)
Definition visible (v : View) (currentFrame : Z) (annotation : Annotation) : bool :=
negb (F32.eqb (alphaMult v currentFrame annotation) F32.zero).

(** The draw of the shape at [p], made for one of [annotations], uses the
  stored alpha of the shape in [h0] multiplied by that annotation's alpha
  multiplier. *)
Definition attenuated (v : View) (currentFrame : Z) (annotations : list Annotation)
  (h0 : gmap nat Shape) (ev : DrawEvent) : Prop :=
match ev with
| ShapeDraw p sd =>
    exists annotation s0,
      In annotation annotations /\ In p (shapes annotation) /\
      h0 !! p = Some s0 /\
      a (color sd) = (a (color s0) * alphaMult v currentFrame annotation)%f32
| _ => True
end.

(** The call is the draw of a shape of [h0], with the stored alpha of
  that shape multiplied by [m]. *)
Definition drawnWith (m : float) (h0 : gmap nat Shape) (ev : DrawEvent) : Prop :=
match ev with
| ShapeDraw p sd =>
    exists s0, h0 !! p = Some s0 /\ a (color sd) = (a (color s0) * m)%f32
| _ => False
end.

(** The shape addresses the main pass draws for a list of annotations:
  annotation by annotation, each visible one's drawn shapes in reverse of
  their stored order. *)
Definition mainOrder (USE_OPENGL2 : bool) (v : View) (currentFrame : Z)
  (h0 : gmap nat Shape) (annotations : list Annotation) : list nat :=
concat (map (fun annotation =>
               if visible v currentFrame annotation
               then rev (List.filter (drawnByMain USE_OPENGL2 h0) (shapes annotation))
               else [])
            annotations).

(** The shape addresses the GL2 pass draws: each visible annotation's GL2
  text shapes in their stored order. *)
Definition gl2Order (v : View) (currentFrame : Z)
  (h0 : gmap nat Shape) (annotations : list Annotation) : list nat :=
concat (map (fun annotation =>
               if visible v currentFrame annotation
               then List.filter (drawnByGL2 h0) (shapes annotation)
               else [])
            annotations).

(** What a pass may do in one step, relative to the heap [h0] it started
    from: keep every shape's frozen members, and append draw calls that
    are [good] and whose addresses are [drawn]. *)
Definition stepsTo (good : DrawEvent -> Prop) (h0 : gmap nat Shape)
    (st st' : DrawState) (drawn : list nat) : Prop :=
  same_frozen (heap st') h0 /\
  exists new, out st' = out st ++ new /\ drawnShapes new = drawn /\ Forall good new.

End DrawSpec.

(* ================================================================== *)
(** * Vocabulary for the facts about binary32 rounding *)
(* ================================================================== *)

Module Binary32.

(** The last step of [binary_round_aux]: the shift after rounding, and the
  overflow test. *)
Definition finish (s : bool) (m e : Z) : spec_float :=
let '(mrs, e') := shr_fexp 24 128 m e loc_Exact in
match shr_m mrs with
| Z0 => S754_zero s
| Z.pos m => if e' <=? 128 - 24 then S754_finite s m e' else S754_infinity s
| Z.neg _ => S754_nan
end.

Definition is_zero (x : spec_float) : bool :=
match x with S754_zero _ => true | _ => false end.

(** An integer [i] converts to a positive normalised float, exactly:
  a 24-bit mantissa [i * 2^-e] at an exponent [e] between -23 and -9. *)
Definition converts_exactly (i : Z) : bool :=
match F32.of_Z i with
| S754_finite false m e =>
    Pos.eqb (digits2_pos m) 24 && (-23 <=? e) && (e <=? -9)
    && (Z.pos m =? i * 2 ^ (- e))
| _ => false
end.

(** [f] holds of the [n] integers from [i] on. *)
Fixpoint all_from (f : Z -> bool) (i : Z) (n : nat) : bool :=
  match n with
  | O => true
  | S n' => f i && all_from f (i + 1) n'
  end.

End Binary32.

(* ================================================================== *)
(** * Viewport::_readPixel *)
(* ================================================================== *)

(** Binary64, for the one [double] expression of [_readPixel]. *)
Module F64.

Definition prec : Z := 53.
Definition emax : Z := 1024.

(** The [double] literal [1.0]. *)
Definition one : spec_float := binary_normalize prec emax 1 0 false.

(** Promotion of a [float] to [double]: exact. *)
Definition of_float (x : float) : spec_float :=
  match x with
  | S754_finite s m e => binary_round prec emax s m e
  | _ => x
  end.

(** Conversion of a [double] to [float]: rounding to nearest even. *)
Definition to_float (x : spec_float) : float :=
  match x with
  | S754_finite s m e => binary_round F32.prec F32.emax s m e
  | _ => x
  end.

Definition sub : spec_float -> spec_float -> spec_float := SFsub prec emax.

End F64.

Module Readout.

(** [timeline::Transition], as [_readPixel] tests it. *)
Inductive Transition : Type := NoTransition | Dissolve.

(** [timeline::VideoLayer]. *)
Record VideoLayer : Type := mkVideoLayer {
  layer_image : Image;
  layer_imageB : Image;
  transition : Transition;
  transitionValue : float
}.

(** [timeline::VideoData]: its layers. *)
Record VideoData : Type := mkVideoData { layers : list VideoLayer }.

(** What [_readPixel] asks of a timeline player. *)
Record Player : Type := mkPlayer {
  playbackStopped : bool;      (* playback() == timeline::Playback::Stop *)
  inOutFrames : Z              (* inOutRange().duration().to_frames() *)
}.

(** The viewport members and widgets [_readPixel] reads. *)
Record Probe : Type := mkProbe {
  valid : bool;                          (* valid() *)
  p_mousePos : Vector2i;
  p_viewPos : Vector2i;
  p_viewZoom : float;
  mirror_x : bool;                       (* p.displayOptions[0].mirror.x *)
  mirror_y : bool;                       (* p.displayOptions[0].mirror.y *)
  pixelValueFull : bool;                 (* uiPixelValue->value() == PixelValue::kFull *)
  p_videoData : list VideoData;
  p_timelinePlayers : list Player;
  gl_buffer : option Size                (* gl.buffer, and its getSize() *)
}.

(** The GL calls [_readPixel] makes: the ring calls of the viewport, and
    the direct [glReadPixels(x, y, 1, 1, ...)] into [rgba]. *)
Inductive Call : Type :=
| GlReadPixel (x y : Z)
| Ring (e : Viewport.Event).

(** A [for] loop over a container with a fallible body. *)
Fixpoint forEachOf {S A : Type} (body : S -> A -> option S) (s : S) (l : list A)
    : option S :=
  match l with
  | [] => Some s
  | i :: rest => s' ← body s i; forEachOf body s' rest
  end.

(** [pos]: the mouse position in the image, the quotient taken in
    [float] and truncated. *)
Definition mousePixel (p : Probe) : Vector2i :=
  mkVector2i
    (F32.to_int (F32.of_Z (x (p_mousePos p) - x (p_viewPos p)) / p_viewZoom p)%f32)
    (F32.to_int (F32.of_Z (y (p_mousePos p) - y (p_viewPos p)) / p_viewZoom p)%f32).

(** [float f = 1.0 - f2]: the difference is taken in [double]. *)
Definition dissolveWeight (f2 : float) : float :=
  F64.to_float (F64.sub F64.one (F64.of_float f2)).

(** The four assignments [pixel.c = pixel.c * f + pixelB.c * f2]. *)
Definition dissolve (f f2 : float) (pixel pixelB : Color4f) : Color4f :=
  mkColor4f (r pixel * f + r pixelB * f2)%f32 (g pixel * f + g pixelB * f2)%f32
            (b pixel * f + b pixelB * f2)%f32 (a pixel * f + a pixelB * f2)%f32.

(** The four assignments [rgba.c += pixel.c]. *)
Definition addPixel (rgba pixel : Color4f) : Color4f :=
  mkColor4f (r rgba + r pixel)%f32 (g rgba + g pixel)%f32
            (b rgba + b pixel)%f32 (a rgba + a pixel)%f32.

(** [update]: whether the pixel is read with a direct [glReadPixels]. *)
Definition update (players : list Player) : bool :=
  match players with
  | [] => false
  | player :: _ =>
      let update := playbackStopped player in
      if negb (inOutFrames player =? 0) then true else update
  end.

(** The closing statements of [_readPixel]: unmap what is mapped, unbind
    the pack buffer. *)
Definition release (gl : Viewport.GLPrivate) : Viewport.GLPrivate * list Call :=
  let '(gl, calls) :=
    match Viewport.image gl with
    | Some _ => (Viewport.set_image gl None, [Ring Viewport.GlUnmapBuffer])
    | None => (gl, [])
    end in
  (gl, calls ++ [Ring Viewport.GlBindPackBuffer0]).

(** The four reads [gl.image[(pos.x + pos.y * renderSize.w) * 4 + k]],
    assigned to b, g, r and a. *)
Definition mappedPixel (img : list float) (renderSize : Size) (pos : Vector2i)
    : option Color4f :=
  let at_ (k : Z) : option float :=
    let i := (x pos + y pos * w renderSize) * 4 + k in
    if i <? 0 then None else img !! Z.to_nat i in
  vb ← at_ 0;
  vg ← at_ 1;
  vr ← at_ 2;
  va ← at_ 3;
  Some (mkColor4f vr vg vb va).

Section ReadPixel.
Context `{ColorSpaces}.
(** [imaging::Image::isValid] of the rendering library. *)
Variable isValid : Image -> bool.
(** The value of a default-constructed [imaging::Color4f]. *)
Variable defaultColor : Color4f.

(** The body of the layer loop. *)
Definition readLayer (p : Probe) (pos : Vector2i) (rgba : Color4f) (layer : VideoLayer)
    : option Color4f :=
  let image := layer_image layer in
  if negb (isValid image) then Some rgba
  else
    pixel ← PixelProbe._getPixelValue (mirror_x p) (mirror_y p) defaultColor image pos;
    let imageB := layer_image layer in
    pixel ←
      (if isValid imageB
       then
         pixelB ← PixelProbe._getPixelValue (mirror_x p) (mirror_y p) defaultColor imageB pos;
         match transition layer with
         | Dissolve =>
             let f2 := transitionValue layer in
             let f := dissolveWeight f2 in
             Some (dissolve f f2 pixel pixelB)
         | NoTransition => Some pixel
         end
       else Some pixel);
    Some (addPixel rgba pixel).

(** [Viewport::_readPixel(rgba)].  [dev] answers [glMapBuffer],
    [glReadPixels] the direct read of one pixel.  The result is the value
    of [rgba] on return, the ring state and the GL calls made; [None] when
    a read falls outside the image bytes or outside the mapped buffer. *)
Definition _readPixel (dev : Viewport.Device) (glReadPixels : Z -> Z -> Color4f)
    (p : Probe) (rgba : Color4f) (gl : Viewport.GLPrivate)
    : option (Color4f * Viewport.GLPrivate * list Call) :=
  if negb (valid p) then Some (rgba, gl, [])
  else
    let pos := mousePixel p in
    if negb (pixelValueFull p)
    then
      let rgba := mkColor4f F32.zero F32.zero F32.zero F32.zero in
      rgba ← forEachOf (fun rgba video => forEachOf (readLayer p pos) rgba (layers video))
                       rgba (p_videoData p);
      let '(gl, calls) := release gl in
      Some (rgba, gl, calls)
    else
      match gl_buffer p with
      | None => Some (rgba, gl, [])
      | Some renderSize =>
          if update (p_timelinePlayers p)
          then Some (glReadPixels (x pos) (y pos), gl, [GlReadPixel (x pos) (y pos)])
          else
            let '(gl, calls) :=
              match Viewport.image gl with
              | None =>
                  let index := (Viewport.index gl + 1) mod 2 in
                  let nextIndex := (index + 1) mod 2 in
                  (Viewport.mkGLPrivate index nextIndex (dev nextIndex),
                   [Ring (Viewport.GlReadPixels index);
                    Ring (Viewport.GlMapBuffer nextIndex)])
              | Some _ => (gl, [])
              end in
            rgba ←
              match Viewport.image gl with
              | Some img => mappedPixel img renderSize pos
              | None => Some rgba
              end;
            let '(gl, calls') := release gl in
            Some (rgba, gl, calls ++ calls')
      end.

End ReadPixel.

End Readout.

(* ================================================================== *)
(** * The overlays of Viewport::draw *)
(* ================================================================== *)

Module Overlays.

Import Viewport.

(** [ActionMode]: the three modes [_drawCursor] names, and the rest. *)
Inductive ActionMode : Type := kScrub | kSelection | kText | kOtherMode.

(** What the overlay statements of [draw] read. *)
Record Overlay : Type := mkOverlay {
  p_selection : math.BBox2i;
  showAnnotations : bool;
  safeAreas : bool;
  actionMode : ActionMode;
  belowmouse : bool;           (* Fl::belowmouse() == this *)
  kPenSize : Z                 (* settingsObject()->value(kPenSize), an int *)
}.

(** The overlay calls of [draw], in the order it makes them. *)
Inductive Call : Type :=
| RectangleOutline (box : math.BBox2i) (mvp : math.Matrix4x4f)
| Annotations (ev : DrawEvent)
| SafeAreas
| Cursor (pen_size : float) (mvp : math.Matrix4x4f).

(** [Viewport::_drawCursor(mvp)]. *)
Definition _drawCursor (o : Overlay) (mvp : math.Matrix4x4f) : list Call :=
  let shown :=
    match actionMode o with
    | kScrub | kText | kSelection => false
    | kOtherMode => belowmouse o
    end in
  if shown then [Cursor (F32.of_Z (kPenSize o)) mvp] else [].

Section Overlays.
Variable USE_OPENGL2 : bool.
Variable v : View.

(** The statements of [draw] from the selection outline to the cursor:
    [mvp] is the local matrix of [draw], which [_drawAnnotations] receives
    by reference.  The result is the shape heap and the calls made. *)
Definition draw_overlays (player : option TimelinePlayer) (o : Overlay)
    (heap : gmap nat Shape) (mvp : math.Matrix4x4f) : gmap nat Shape * list Call :=
  let c1 :=
    if math.Vector2i_neb (math.min (p_selection o)) (math.max (p_selection o))
    then [RectangleOutline (p_selection o) mvp] else [] in
  let st := mkDrawState heap mvp [] in
  let st := if showAnnotations o then _drawAnnotations USE_OPENGL2 v player st else st in
  let c2 := Annotations <$> out st in
  let c3 := if safeAreas o then [SafeAreas] else [] in
  let c4 := _drawCursor o (Viewport.mvp st) in
  (Viewport.heap st, c1 ++ c2 ++ c3 ++ c4).

End Overlays.

End Overlays.

(* ================================================================== *)
(** * Viewport::_drawText and Viewport::_drawHUD *)
(* ================================================================== *)

Module Hud.

(** The bits of [HudDisplay] that [_drawHUD] tests. *)
Record HudDisplay : Type := mkHudDisplay {
  kDirectory : bool;
  kFilename : bool;
  kResolution : bool;
  kFrame : bool;
  kFrameRange : bool;
  kTimecode : bool;
  kFPS : bool;
  kFrameCount : bool;
  kAttributes : bool
}.

(** [gl.render->drawText(glyphs, pos, color)], where [glyphs] are the
    glyphs the font system returns for [text] in the HUD font. *)
Inductive Call : Type :=
| DrawText (text : string) (pos : Vector2i) (color : Color4f).

(** What [_drawHUD] reads from the first timeline player, its first
    video track, the widgets and the font system. *)
Record Source : Type := mkSource {
  lineHeight : Z;                      (* fontMetrics.lineHeight *)
  directory : string;                  (* path.getDirectory() *)
  fullname : string;                   (* createStringFromPathAndTime(path, time) *)
  video_w : Z;                         (* info.video[0].size.w *)
  video_h : Z;
  pixelAspectRatio : float;
  frame : Z;                           (* currentTime().to_frames() *)
  range_first : Z;                     (* timeRange().start_time().to_frames() *)
  range_last : Z;                      (* timeRange().end_time_inclusive().to_frames() *)
  timecode : string;                   (* time.to_timecode(nullptr) *)
  fps : spec_float;                    (* p.ui->uiFPS->value(), a double *)
  duration : Z;                        (* (int64_t)duration.value() *)
  tags : list (string * string)        (* info.tags, in iteration order *)
}.

(** A [std::string] read as a C string: its characters up to the first
    NUL.  This is what [%s] prints of [s.c_str()], and what is read back
    from [buf]. *)
Fixpoint c_str (s : string) : string :=
  match s with
  | EmptyString => EmptyString
  | String c rest => if Ascii.eqb c Ascii.zero then EmptyString else String c (c_str rest)
  end.

(** [sprintf(buf, ...)] into [char buf[128]]: the text and its
    terminating NUL have to fit.  Writing past the array has no defined
    behaviour in C++ and is [None] here. *)
Definition sprintf (text : string) : option string :=
  if (String.length text <? 128)%nat then Some text else None.

(** [tmp.empty()]. *)
Definition empty (t : string) : bool :=
  match t with EmptyString => true | _ => false end.

(** The shadow colour [Color4f(0.F, 0.F, 0.F, 0.7F)]. *)
Definition shadowColor : Color4f :=
  mkColor4f F32.zero F32.zero F32.zero (F32.of_Z 7 / F32.of_Z 10)%f32.

(** [Viewport::_drawText(glyphs, pos, lineHeight, labelColor)]: the
    value of the in-out parameter [pos] on return, and the calls made. *)
Definition _drawText (text : string) (pos : Vector2i) (lineHeight : Z)
    (labelColor : Color4f) : Vector2i * list Call :=
  let shadowPos := mkVector2i (x pos + 2) (y pos + 2) in
  (mkVector2i (x pos) (y pos + lineHeight),
   [DrawText text shadowPos shadowColor; DrawText text pos labelColor]).

(** One [_drawText] in the sequence of [_drawHUD]. *)
Definition line (text : string) (lineHeight : Z) (labelColor : Color4f)
    (st : Vector2i * list Call) : Vector2i * list Call :=
  let '(pos, calls) := st in
  let '(pos, new) := _drawText text pos lineHeight labelColor in
  (pos, calls ++ new).

Section Printf.
(** The conversions of the C library's [printf]: [%d] of an [int] and
    [PRId64] of an [int64_t], [%.3g] of a [float] (passed as a [double])
    and [%.3f] of a [double]. *)
Variable decimal : Z -> string.
Variable fmt_3g : float -> string.
Variable fmt_3f : spec_float -> string.

(** The text of the resolution line, as given to [sprintf]. *)
Definition resolutionText (s : Source) : string :=
  if negb (pixelAspectRatio s =? F32.one)%f32
  then
    let width := F32.to_int (F32.of_Z (video_w s) * pixelAspectRatio s)%f32 in
    (decimal (video_w s) ++ " x " ++ decimal (video_h s) ++ "  ( "
       ++ fmt_3g (pixelAspectRatio s) ++ " )  " ++ decimal width ++ " x "
       ++ decimal (video_h s))%string
  else (decimal (video_w s) ++ " x " ++ decimal (video_h s))%string.

(** The text of an attribute line, as given to [sprintf]. *)
Definition attributeText (tag : string * string) : string :=
  (c_str (fst tag) ++ " = " ++ c_str (snd tag))%string.

(** [sprintf(buf, ...); tmp += buf;]. *)
Definition appendFormatted (tmp text : string) : option string :=
  buf ← sprintf text; Some (tmp ++ c_str buf)%string.

(** The body of the loop over [info.tags]. *)
Definition drawTag (lineHeight : Z) (labelColor : Color4f) (st : Vector2i * list Call)
    (tag : string * string) : option (Vector2i * list Call) :=
  buf ← sprintf (attributeText tag);
  Some (line (c_str buf) lineHeight labelColor st).

(** [Viewport::_drawHUD()]: the text calls made, or [None] when a
    [sprintf] writes past [buf]. *)
Definition _drawHUD (hud : HudDisplay) (s : Source) (labelColor : Color4f)
    : option (list Call) :=
  let lineHeight := lineHeight s in
  let st := (mkVector2i 20 (lineHeight * 2), []) in
  let st := if kDirectory hud then line (directory s) lineHeight labelColor st else st in
  let st := if kFilename hud then line (fullname s) lineHeight labelColor st else st in
  st ←
    (if kResolution hud
     then buf ← sprintf (resolutionText s);
          Some (line (c_str buf) lineHeight labelColor st)
     else Some st);
  let tmp := EmptyString in
  tmp ←
    (if kFrame hud
     then appendFormatted tmp ("F: " ++ decimal (frame s) ++ " ")%string
     else Some tmp);
  tmp ←
    (if kFrameRange hud
     then appendFormatted tmp ("Range: " ++ decimal (range_first s) ++ " -  "
                                 ++ decimal (range_last s))%string
     else Some tmp);
  tmp ←
    (if kTimecode hud
     then appendFormatted tmp ("TC: " ++ c_str (timecode s) ++ " ")%string
     else Some tmp);
  tmp ←
    (if kFPS hud
     then appendFormatted tmp ("FPS: " ++ fmt_3f (fps s))%string
     else Some tmp);
  let st := if negb (empty tmp) then line tmp lineHeight labelColor st else st in
  let tmp := EmptyString in
  tmp ←
    (if kFrameCount hud
     then appendFormatted tmp ("FC: " ++ decimal (duration s))%string
     else Some tmp);
  let st := if negb (empty tmp) then line tmp lineHeight labelColor st else st in
  st ←
    (if kAttributes hud
     then Readout.forEachOf (drawTag lineHeight labelColor) st (tags s)
     else Some st);
  Some (snd st).

End Printf.

End Hud.

(* ================================================================== *)
(** * Vocabulary for the statements about the pixel probe *)
(* ================================================================== *)

Module ProbeSpec.

(** The position of the unmirrored display that a mirrored probe
    looks at. *)
Definition reflect (mirror_x mirror_y : bool) (size : Size) (pos : Vector2i) : Vector2i :=
  mkVector2i (if mirror_x then w size - x pos - 1 else x pos)
             (if mirror_y then h size - y pos - 1 else y pos).

(** The formats decoded from consecutive whole channels of one pixel. *)
Definition isInterleaved (t : PixelType) : bool :=
  match t with
  | L_U8 | LA_U8 | RGB_U8 | RGBA_U8
  | L_U16 | LA_U16 | RGB_U16 | RGBA_U16
  | L_U32 | LA_U32 | RGB_U32 | RGBA_U32
  | L_F16 | LA_F16 | RGB_F16 | RGBA_F16
  | RGB_F32 | RGBA_F32 => true
  | _ => false
  end.

(** The interleaved formats with 8-bit or 16-bit integer channels. *)
Definition isSmallInteger (t : PixelType) : bool :=
  match t with
  | L_U8 | LA_U8 | RGB_U8 | RGBA_U8
  | L_U16 | LA_U16 | RGB_U16 | RGBA_U16 => true
  | _ => false
  end.

(** The formats without a stored alpha, planar YUV apart (their alpha
    goes through the colour library). *)
Definition isOpaque (t : PixelType) : bool :=
  match t with
  | None_ | L_U8 | L_U16 | L_U32 | L_F16 | L_F32 | LA_F32
  | RGB_U8 | RGB_U10 | RGB_U16 | RGB_U32 | RGB_F16 | RGB_F32 => true
  | _ => false
  end.

(** The formats the decoding switch has no case for. *)
Definition isUndecoded (t : PixelType) : bool :=
  match t with
  | None_ | L_F32 | LA_F32 => true
  | _ => false
  end.

(** Bytes of one pixel of an interleaved format. *)
Definition pixelBytes (t : PixelType) : Z := getChannelCount t * (getBitDepth t / 8).

(** The 1 x 1 image made of the bytes of pixel [k] of an image. *)
Definition pixelImage (image : Image) (k : Z) : Image :=
  let info := getInfo image in
  let n := pixelBytes (pixelType info) in
  mkImage (imaging.mkInfo (mkSize 1 1) (pixelType info) (videoLevels info)
                          (yuvCoefficients info))
          (take (Z.to_nat n) (drop (Z.to_nat (k * n)) (getData image))).

(** A component lies in [0, 1]: it is neither below 0 nor above 1. *)
Definition inUnit (c : float) : Prop :=
  F32.ltb c F32.zero = false /\ F32.ltb F32.one c = false.

(** [f] increases strictly over the [n] steps from [i], [prev] being its
    value just before [i]. *)
Fixpoint increasing_from (f : Z -> float) (prev : float) (i : Z) (n : nat) : bool :=
  match n with
  | O => true
  | S n' => let cur := f i in F32.ltb prev cur && increasing_from f cur (i + 1) n'
  end.

End ProbeSpec.

(* ================================================================== *)
(** * Vocabulary for the statements about the region statistics *)
(* ================================================================== *)

Module AreaSpec.

(** A region lies in a frame of the given size. *)
Definition inFrame (size : Size) (box : math.BBox2i) : Prop :=
  0 <= x (math.min box) /\ x (math.max box) <= w size /\
  0 <= y (math.min box) /\ y (math.max box) <= h size.

(** A region holds at least one pixel of the scan. *)
Definition nonEmpty (box : math.BBox2i) : Prop :=
  x (math.min box) < x (math.max box) /\ y (math.min box) < y (math.max box).

(** A property of each of the four channels of a colour. *)
Definition each (P : float -> Prop) (c : Color4f) : Prop :=
  P (r c) /\ P (g c) /\ P (b c) /\ P (a c).

(** The channel-wise difference of two colours. *)
Definition minus (c d : Color4f) : Color4f :=
  mkColor4f (r c - r d)%f32 (g c - g d)%f32 (b c - b d)%f32 (a c - a d)%f32.

(** The box with the given corners taken in increasing order. *)
Definition ordered (sel : math.BBox2i) : math.BBox2i :=
  math.mkBBox2i
    (mkVector2i (Z.min (x (math.min sel)) (x (math.max sel)))
                (Z.min (y (math.min sel)) (y (math.max sel))))
    (mkVector2i (Z.max (x (math.min sel)) (x (math.max sel)))
                (Z.max (y (math.min sel)) (y (math.max sel)))).

(** The coordinates a [float] holds exactly. *)
Definition exact (z : Z) : Prop := -16777216 < z < 16777216.


(** The bounds the running extrema of a scan keep: no maximum below
    [FLT_MIN], no minimum above [FLT_MAX]. *)
Definition bounded (s : area.Stats) : Prop :=
  each (fun c => SFleb F32.FLT_MIN c = true) (area.max s) /\
  each (fun c => SFleb c F32.FLT_MAX = true) (area.min s).

(** The running statistics of a scan that has met only zeros; [seen]
    tells whether it has met a pixel yet. *)
Definition blackStats (seen : bool) (s : area.Stats) : Prop :=
  area.max s = Viewport.splat F32.FLT_MIN /\
  area.mean s = Viewport.splat F32.zero /\
  (area.min s = Viewport.splat F32.zero \/
   (seen = false /\ area.min s = Viewport.splat F32.FLT_MAX)).

(** The channel of a colour that the [k]-th float of a mapped pixel
    feeds: the buffer holds B, G, R, A. *)
Definition channel (k : Z) (c : Color4f) : float :=
  match k with
  | 0 => b c
  | 1 => g c
  | 2 => r c
  | _ => a c
  end.

End AreaSpec.

(* ================================================================== *)
(** * Vocabulary for further statements about the annotation passes *)
(* ================================================================== *)

Module PassSpec.

Import Viewport DrawSpec.

(** A call is a shape draw. *)
Definition isDraw (ev : DrawEvent) : Prop :=
  match ev with ShapeDraw _ _ => True | _ => False end.

(** The matrix each [ShapeDraw] of a log sees, in order. *)
Fixpoint drawnMatrices (evs : list DrawEvent) : list math.Matrix4x4f :=
  match evs with
  | [] => []
  | ShapeDraw _ st :: rest => matrix st :: drawnMatrices rest
  | _ :: rest => drawnMatrices rest
  end.

(** The shapes for which the main pass rebuilds [mvp]: text shapes with
    a text, in a build without [USE_OPENGL2]. *)
Definition rebuildsMatrix (USE_OPENGL2 : bool) (h : gmap nat Shape) (p : nat) : bool :=
  match h !! p with
  | Some s => negb USE_OPENGL2 && is_GLTextShape s && negb (empty (text s))
  | None => false
  end.

(** The matrices of successive draws when [mvp] is replaced by
    [text_mvp] from the first rebuilding shape on. *)
Fixpoint matricesFrom (rebuilds : nat -> bool) (text_mvp mvp : math.Matrix4x4f)
    (order : list nat) : list math.Matrix4x4f :=
  match order with
  | [] => []
  | p :: rest =>
      let mvp := if rebuilds p then text_mvp else mvp in
      mvp :: matricesFrom rebuilds text_mvp mvp rest
  end.

(** The matrix left after those draws. *)
Definition matrixAfter (rebuilds : nat -> bool) (text_mvp mvp : math.Matrix4x4f)
    (order : list nat) : math.Matrix4x4f :=
  if existsb rebuilds order then text_mvp else mvp.

(** What the main pass does in some steps, with the matrices it uses. *)
Definition stepsWith (USE_OPENGL2 : bool) (v : View) (h0 : gmap nat Shape)
    (st st' : DrawState) (order : list nat) : Prop :=
  same_frozen (heap st') h0 /\
  exists new,
    out st' = out st ++ new /\ Forall isDraw new /\ drawnShapes new = order /\
    drawnMatrices new
      = matricesFrom (rebuildsMatrix USE_OPENGL2 h0) (text_mvp v) (mvp st) order /\
    mvp st' = matrixAfter (rebuildsMatrix USE_OPENGL2 h0) (text_mvp v) (mvp st) order.

(** What the GL2 pass may call: the stencil mask and clear, and draws
    of GL2 text shapes that carry the current view members and the GL2
    matrix; it never switches the stencil test. *)
Definition stamped (v : View) (ev : DrawEvent) : Prop :=
  match ev with
  | ShapeDraw _ sd =>
      is_GL2TextShape sd = true /\ gl2 sd = gl2_view v /\ matrix sd = gl2_mvp v
  | GlStencilMask | GlClearStencil => True
  | GlEnableStencil | GlDisableStencil => False
  end.

(** A shape pointer is live. *)
Definition live (h : gmap nat Shape) (p : nat) : bool :=
  match h !! p with Some _ => true | None => false end.

(** The live shapes of the visible annotations, with multiplicity. *)
Definition visibleShapes (v : View) (currentFrame : Z) (h : gmap nat Shape)
    (annotations : list Annotation) : list nat :=
  concat (map (fun annotation =>
                 if visible v currentFrame annotation
                 then List.filter (live h) (shapes annotation)
                 else [])
              annotations).

End PassSpec.

(* ================================================================== *)
(** * Vocabulary for the statements about the pixel read-out *)
(* ================================================================== *)

Module ReadoutSpec.

Import Readout.

(** A probe whose layers have their B image replaced. *)
Definition replaceB (f : VideoLayer -> Image) (p : Probe) : Probe :=
  mkProbe (valid p) (p_mousePos p) (p_viewPos p) (p_viewZoom p) (mirror_x p) (mirror_y p)
          (pixelValueFull p)
          (map (fun video =>
                  mkVideoData
                    (map (fun layer =>
                            mkVideoLayer (layer_image layer) (f layer) (transition layer)
                                         (transitionValue layer))
                         (layers video)))
               (p_videoData p))
          (p_timelinePlayers p) (gl_buffer p).

(** The index of the first float of the pixel under the mouse in a
    mapped buffer of the given size. *)
Definition mappedIndex (p : Probe) (renderSize : Size) : Z :=
  (x (mousePixel p) + y (mousePixel p) * w renderSize) * 4.

End ReadoutSpec.

(* ================================================================== *)
(** * Vocabulary for the statements about the HUD *)
(* ================================================================== *)

Module HudSpec.

Import Hud.

(** Text lines stacked from [y] downward, one line height apart, each
    drawn twice: its shadow two pixels right and down, then the label. *)
Fixpoint stacked (lineHeight : Z) (labelColor : Color4f) (y : Z)
    (lines : list string) : list Call :=
  match lines with
  | [] => []
  | text :: rest =>
      DrawText text (mkVector2i 22 (y + 2)) shadowColor
      :: DrawText text (mkVector2i 20 y) labelColor
      :: stacked lineHeight labelColor (y + lineHeight) rest
  end.

(** The state of [_drawHUD] after the given lines. *)
Definition after (lineHeight : Z) (labelColor : Color4f) (lines : list string)
    : Vector2i * list Call :=
  (mkVector2i 20 (lineHeight * 2 + lineHeight * Z.of_nat (length lines)),
   stacked lineHeight labelColor (lineHeight * 2) lines).

(** A text and its terminating NUL fit [char buf[128]]. *)
Definition fits (text : string) : bool := (String.length text <? 128)%nat.

Section Printf.
Variable decimal : Z -> string.
Variable fmt_3g : float -> string.
Variable fmt_3f : spec_float -> string.

(** The formatted parts of the status line that are enabled, in order. *)
Definition statusParts (hud : HudDisplay) (s : Source) : list string :=
  (if kFrame hud then ["F: " ++ decimal (frame s) ++ " "]%string else [])
  ++ (if kFrameRange hud
      then ["Range: " ++ decimal (range_first s) ++ " -  " ++ decimal (range_last s)]%string
      else [])
  ++ (if kTimecode hud then ["TC: " ++ c_str (timecode s) ++ " "]%string else [])
  ++ (if kFPS hud then ["FPS: " ++ fmt_3f (fps s)]%string else []).

(** The text of the frame-count line. *)
Definition frameCountText (s : Source) : string := ("FC: " ++ decimal (duration s))%string.

(** Every text that goes through [buf], in the order it is formatted. *)
Definition formatted (hud : HudDisplay) (s : Source) : list string :=
  (if kResolution hud then [resolutionText decimal fmt_3g s] else [])
  ++ statusParts hud s
  ++ (if kFrameCount hud then [frameCountText s] else [])
  ++ (if kAttributes hud then map attributeText (tags s) else []).

(** The parts of a line joined as they are read back from [buf]. *)
Definition joined (parts : list string) : string :=
  foldl (fun tmp buf => tmp ++ c_str buf)%string EmptyString parts.

(** The lines of the HUD, top to bottom. *)
Definition hudLines (hud : HudDisplay) (s : Source) : list string :=
  (if kDirectory hud then [directory s] else [])
  ++ (if kFilename hud then [fullname s] else [])
  ++ (if kResolution hud then [c_str (resolutionText decimal fmt_3g s)] else [])
  ++ (if kFrame hud || kFrameRange hud || kTimecode hud || kFPS hud
      then [joined (statusParts hud s)] else [])
  ++ (if kFrameCount hud then [c_str (frameCountText s)] else [])
  ++ (if kAttributes hud then map (fun tag => c_str (attributeText tag)) (tags s) else []).

End Printf.

End HudSpec.

(* ================================================================== *)
(** * Further concrete inputs *)
(* ================================================================== *)

Module Inputs.

Import Viewport Readout.

(** Two RGBA pixels of 8 bits. *)
Definition rgba8_2x1 : Image := Sample.image RGBA_U8 2 1 [1; 2; 3; 4; 5; 6; 7; 8].

(** One RGB pixel of 8 bits. *)
Definition rgb8_1x1 : Image := Sample.image RGB_U8 1 1 [10; 20; 30].

(** One luminance pixel holding the float 1.0. *)
Definition l_f32_1x1 : Image := Sample.image L_F32 1 1 [0; 0; 128; 63].

(** A 4 x 2 YUV 4:2:0 image: luma bytes 1..8, U plane 100, 101, V plane
    200, 201. *)
Definition yuv420_4x2 : Image :=
  Sample.image YUV_420P_U8 4 2 [1; 2; 3; 4; 5; 6; 7; 8; 100; 101; 200; 201].

(** Mapped 2 x 2 frames: white, black, and white with a NaN in the red
    channel of its last pixel. *)
Definition whiteFrame : list float := replicate 16 F32.one.
Definition blackFrame : list float := replicate 16 F32.zero.
Definition nanFrame : list float := replicate 14 F32.one ++ [S754_nan; F32.one].

Definition mapped (img : list float) : GLPrivate := mkGLPrivate 0 1 (Some img).

(** Statistics of the whole 2 x 2 frame, holding a previous result. *)
Definition info : area.Info :=
  area.mkInfo (Sample.box 0 0 2 2) Sample.stats0 Sample.stats0.

(** Every image is valid. *)
Definition isValid (image : Image) : bool := true.

(** A read-out of the full pixel value at the mouse pixel (1, 1), with
    no timeline player. *)
Definition fullProbe : Probe :=
  mkProbe true (mkVector2i 1 1) (mkVector2i 0 0) F32.one false false true [] []
          (Some (mkSize 2 2)).

(** A read-out through one dissolving layer. *)
Definition layerProbe : Probe :=
  mkProbe true (mkVector2i 0 0) (mkVector2i 0 0) F32.one false false false
          [mkVideoData [mkVideoLayer rgb8_1x1 l_f32_1x1 Dissolve F32.zero]] [] None.

(** Two shapes at addresses 1 and 2: a stroke and a GL2 text. *)
Definition gl2Heap : gmap nat Shape :=
  <[1%nat := Sample.shape GLPathShape F32.one]>
    (<[2%nat := Sample.shape GL2TextShape F32.one]> ∅).

(** An annotation of frame 12 that holds the stroke first and the text
    second. *)
Definition strokeThenText : Annotation := mkAnnotation 12 false [1; 2]%nat.

End Inputs.

(* ================================================================== *)
(** * The read-back ring *)
(* ================================================================== *)

(** Linear goals with division or remainder by a constant. *)
Ltac zmod := Z.div_mod_to_equations; lia.
Ltac zmod_nl := Z.div_mod_to_equations; nia.

Section Ring.

Import Viewport.

Lemma mod2_cases (n : Z) : n mod 2 = 0 \/ n mod 2 = 1.
Proof. pose proof (Z.mod_pos_bound n 2); lia. Qed.

Lemma ring_invariant (gl : GLPrivate) :
  reachable gl ->
  nextIndex gl = (index gl + 1) mod 2 /\ (index gl = 0 \/ index gl = 1).
Proof.
  induction 1 as [|gl op _ [IHn IHi]]; [cbn; auto|].
  destruct op; cbn; auto.
  split; [reflexivity | apply mod2_cases].
Qed.

Lemma readbacks_cons (dev : Device) (rest : list Device) (gl : GLPrivate) :
  readbacks (dev :: rest) gl =
    (fst (readbacks rest (fst (_bindReadImage dev gl))),
     snd (_bindReadImage dev gl) :: snd (readbacks rest (fst (_bindReadImage dev gl)))).
Proof.
  cbn [readbacks]. destruct (_bindReadImage dev gl) as [gl1 ev].
  cbn [fst snd]. destruct (readbacks rest gl1); reflexivity.
Qed.

Lemma call_eq (a b a' b' : Z) :
  a = a' -> b = b' ->
  Some [GlReadPixels a; GlMapBuffer b] = Some [GlReadPixels a'; GlMapBuffer b'].
Proof. congruence. Qed.

(** Call number [k + 1] of a run that starts with write slot [index gl]
    reads into slot [index gl + k + 1] and maps slot [index gl + k + 2]
    (both modulo 2). *)
Lemma readbacks_calls (devs : list Device) :
  forall (gl : GLPrivate) (k : nat),
    (k < length devs)%nat ->
    snd (readbacks devs gl) !! k =
      Some [GlReadPixels ((index gl + Z.of_nat k + 1) mod 2);
            GlMapBuffer ((index gl + Z.of_nat k + 2) mod 2)].
Proof.
  induction devs as [|d rest IH]; intros gl k Hk; [cbn in Hk; lia|].
  rewrite readbacks_cons. cbn [snd].
  destruct k as [|k].
  - cbn [lookup list_lookup _bindReadImage snd]. apply call_eq; zmod.
  - cbn [length] in Hk. cbn [lookup list_lookup].
    change (snd (readbacks rest (fst (_bindReadImage d gl))) !! k =
      Some [GlReadPixels ((index gl + Z.of_nat (S k) + 1) mod 2);
            GlMapBuffer ((index gl + Z.of_nat (S k) + 2) mod 2)]).
    rewrite IH by lia. cbn [_bindReadImage fst index].
    apply call_eq; zmod.
Qed.

Lemma readbacks_final (devs : list Device) :
  forall (gl : GLPrivate) (final : Device),
    last devs = Some final ->
    let gl' := fst (readbacks devs gl) in
    index gl' = (index gl + Z.of_nat (length devs)) mod 2 /\
    nextIndex gl' = (index gl + Z.of_nat (length devs) + 1) mod 2 /\
    image gl' = final (nextIndex gl').
Proof.
  induction devs as [|d rest IH]; intros gl final Hl; [discriminate|].
  rewrite readbacks_cons. cbn [fst].
  destruct rest as [|d' rest'].
  - cbn in Hl. injection Hl as <-. cbn.
    split; [zmod|]. split; [zmod|reflexivity].
  - change (last (d :: d' :: rest')) with (last (d' :: rest')) in Hl.
    specialize (IH (fst (_bindReadImage d gl)) final Hl).
    cbn zeta in IH. destruct IH as (Hi & Hn & Him).
    rewrite Hi, Hn, Him, Hn. cbn [_bindReadImage fst index].
    change (length (d :: d' :: rest')) with (S (length (d' :: rest'))).
    split; [zmod|]. split; [zmod|reflexivity].
Qed.

End Ring.

Section RingTheorem.

Import Viewport.

(** C2.  The read-back ring is a double buffer.  In every state the
    viewport can reach, [nextIndex = (index + 1) mod 2] and both name one
    of the two slots.  Each [_bindReadImage] advances [index] modulo 2,
    reads the frame into slot [index] and maps slot [nextIndex].  So in a
    run of N >= 2 read-backs after [_initializeGL], call N maps the slot
    that call N - 1 read into ([filled]), which is not the slot call N is
    reading into ([inflight]); the write slot of call N is N mod 2 and the
    slot it maps is (N + 1) mod 2. *)
Theorem readback_ring_double_buffer :
  (forall gl, reachable gl ->
     nextIndex gl = (index gl + 1) mod 2 /\
     (index gl = 0 \/ index gl = 1) /\ (nextIndex gl = 0 \/ nextIndex gl = 1)) /\
  (forall dev gl,
     index (fst (_bindReadImage dev gl)) = (index gl + 1) mod 2 /\
     snd (_bindReadImage dev gl) =
       [GlReadPixels (index (fst (_bindReadImage dev gl)));
        GlMapBuffer (nextIndex (fst (_bindReadImage dev gl)))] /\
     image (fst (_bindReadImage dev gl)) = dev (nextIndex (fst (_bindReadImage dev gl)))) /\
  (forall devs gl0 N final,
     N = Z.of_nat (length devs) -> 2 <= N -> last devs = Some final ->
     let run := readbacks devs (_initializeGL gl0) in
     exists filled inflight,
       snd run !! Z.to_nat (N - 2) = Some [GlReadPixels filled; GlMapBuffer inflight] /\
       snd run !! Z.to_nat (N - 1) = Some [GlReadPixels inflight; GlMapBuffer filled] /\
       filled <> inflight /\
       inflight = N mod 2 /\ filled = (N + 1) mod 2 /\
       index (fst run) = inflight /\ nextIndex (fst run) = filled /\
       image (fst run) = final filled).
Proof.
  split; [|split].
  - intros gl Hr. destruct (ring_invariant gl Hr) as [Hn Hi].
    split; [exact Hn|]. split; [exact Hi|]. rewrite Hn. apply mod2_cases.
  - intros dev gl. cbn. auto.
  - intros devs gl0 N final HN H2 Hlast run.
    exists ((N + 1) mod 2), (N mod 2).
    assert (Hk1 : (Z.to_nat (N - 2) < length devs)%nat) by lia.
    assert (Hk2 : (Z.to_nat (N - 1) < length devs)%nat) by lia.
    pose proof (readbacks_calls devs (_initializeGL gl0) _ Hk1) as E1.
    pose proof (readbacks_calls devs (_initializeGL gl0) _ Hk2) as E2.
    destruct (readbacks_final devs (_initializeGL gl0) final Hlast) as (Hi & Hn & Him).
    cbn [_initializeGL index] in *. fold run in E1, E2, Hi, Hn, Him.
    rewrite <- HN in Hi, Hn.
    split; [rewrite E1; apply call_eq; zmod|].
    split; [rewrite E2; apply call_eq; zmod|].
    split; [zmod|]. split; [reflexivity|]. split; [reflexivity|].
    split; [rewrite Hi; zmod|]. split; [rewrite Hn; zmod|].
    rewrite Him, Hn. replace (0 + N + 1) with (N + 1) by lia. reflexivity.
Qed.

Lemma readback_ring_double_buffer_witness :
  reachable (ringStep Sample.gl0 (OpBindReadImage Sample.whiteDevice)) /\
  2 <= 3 /\
  let run := readbacks [Sample.whiteDevice; Sample.failingDevice; Sample.whiteDevice]
                       (_initializeGL Sample.gl0) in
  exists filled inflight,
    snd run !! 1%nat = Some [GlReadPixels filled; GlMapBuffer inflight] /\
    snd run !! 2%nat = Some [GlReadPixels inflight; GlMapBuffer filled] /\
    filled <> inflight /\
    inflight = 3 mod 2 /\ filled = (3 + 1) mod 2 /\
    index (fst run) = inflight /\ nextIndex (fst run) = filled /\
    image (fst run) = Sample.whiteDevice filled.
Proof.
  split; [apply reachable_step, reachable_new|].
  split; [lia|].
  exact (proj2 (proj2 readback_ring_double_buffer)
           [Sample.whiteDevice; Sample.failingDevice; Sample.whiteDevice]
           Sample.gl0 3 Sample.whiteDevice eq_refl ltac:(lia) eq_refl).
Defined.

End RingTheorem.

(* ================================================================== *)
(** * The pixel probe *)
(* ================================================================== *)

Section Probe.

Import PixelProbe.
Context `{ColorSpaces}.

Lemma u8_in_range (data : list Byte.byte) (i : Z) :
  0 <= i < Z.of_nat (length data) -> is_Some (Mem.u8 data i).
Proof.
  intros Hi. unfold Mem.u8.
  destruct (i <? 0) eqn:E; [lia|].
  destruct (lookup_lt_is_Some_2 data (Z.to_nat i)) as [c Hc]; [lia|].
  rewrite Hc. eexists; reflexivity.
Qed.

Lemma inImage_spec (size : Size) (X Y : Z) :
  inImage size X Y = true <-> 0 <= X < w size /\ 0 <= Y < h size.
Proof. unfold inImage. lia. Qed.

(** C6.  The probe column is [pos.x], reflected to [w - pos.x - 1] when
    the display is mirrored in x; the probe row is [h - pos.y - 1],
    reflected again to [h - Y - 1] when the display is mirrored in y.  If
    the resulting (X, Y) is outside [0 <= X < w], [0 <= Y < h], the call
    returns normally, without reading the image, and the caller's sample
    is unchanged in all four fields. *)
Theorem out_of_range_probe_is_noop
    (mirror_x mirror_y : bool) (rgba : Color4f) (image : Image) (pos : Vector2i) :
  let size := getSize image in
  let X := probeX mirror_x size pos in
  let Y := probeY mirror_y size pos in
  X = (if mirror_x then w size - x pos - 1 else x pos) /\
  Y = (if mirror_y then h size - (h size - y pos - 1) - 1 else h size - y pos - 1) /\
  (X < 0 \/ Y < 0 \/ X >= w size \/ Y >= h size ->
   _getPixelValue mirror_x mirror_y rgba image pos = Some rgba).
Proof.
  intros size X Y. split; [reflexivity|]. split; [reflexivity|].
  intros Hout. unfold _getPixelValue. fold size. fold X. fold Y.
  replace (inImage size X Y) with false; [reflexivity|].
  symmetry. apply not_true_is_false. rewrite inImage_spec. lia.
Qed.

End Probe.

Lemma out_of_range_probe_is_noop_witness :
  let image := Sample.yuv420_2x2 in
  let pos := mkVector2i 2 0 in
  let X := PixelProbe.probeX true (getSize image) pos in
  let Y := PixelProbe.probeY false (getSize image) pos in
  (X < 0 \/ Y < 0 \/ X >= w (getSize image) \/ Y >= h (getSize image)) /\
  @PixelProbe._getPixelValue Sample.plainColorSpaces true false Sample.grey image pos
    = Some Sample.grey.
Proof.
  assert (Hout : let image := Sample.yuv420_2x2 in
                 let pos := mkVector2i 2 0 in
                 let X := PixelProbe.probeX true (getSize image) pos in
                 let Y := PixelProbe.probeY false (getSize image) pos in
                 X < 0 \/ Y < 0 \/ X >= w (getSize image) \/ Y >= h (getSize image))
    by (left; vm_compute; reflexivity).
  split; [exact Hout|].
  exact (proj2 (proj2 (@out_of_range_probe_is_noop Sample.plainColorSpaces true false
                         Sample.grey Sample.yuv420_2x2 (mkVector2i 2 0))) Hout).
Defined.

Section PlanarDecode.

Import PixelProbe Planar.
Context `{ColorSpaces}.

Lemma u8_read (data : list Byte.byte) (i : Z) :
  0 <= i < Z.of_nat (length data) -> exists v, Mem.u8 data i = Some v.
Proof. intros Hi. destruct (u8_in_range data i Hi) as [v Hv]; eauto. Qed.

(** The 8-bit planar formats: luma at [Y * w + X]; chroma at
    [chromaOffset] in the U plane, which starts at [w * h], and in the V
    plane, which starts one chroma plane further. *)
Lemma planar_u8_decode (mirror_x mirror_y : bool) (rgba : Color4f)
    (image : Image) (pos : Vector2i) :
  let t := getPixelType image in
  let size := getSize image in
  let data := getData image in
  let X := probeX mirror_x size pos in
  let Y := probeY mirror_y size pos in
  isPlanarU8 t = true ->
  inImage size X Y = true ->
  byteCount t size <= Z.of_nat (length data) ->
  exists vy vu vv,
    Mem.u8 data (Y * w size + X) = Some vy /\
    Mem.u8 data (w size * h size + chromaOffset t size X Y) = Some vu /\
    Mem.u8 data (w size * h size + chromaW t size * chromaH t size
                 + chromaOffset t size X Y) = Some vv /\
    _getPixelValue mirror_x mirror_y rgba image pos =
      Some (YPbPr_to_rgb
              (checkLevels (mkColor4f (norm vy f255) (norm vu f255) (norm vv f255) F32.one)
                           (videoLevels (getInfo image)))
              (getYUVCoefficients (yuvCoefficients (getInfo image)))).
Proof.
  intros t size data X Y Ht Hin Hlen.
  pose proof (proj1 (inImage_spec size X Y) Hin) as [HX HY].
  unfold _getPixelValue. fold t size data X Y. rewrite Hin. cbn [negb].
  unfold byteCount, chromaOffset, chromaW, chromaH in *.
  destruct t eqn:Et; try discriminate Ht; cbn [subX subY getBitDepth] in *;
    unfold byteOffset; cbn [getBitDepth getChannelCount];
    change (8 / 8) with 1 in *; rewrite ?Z.mul_1_r, ?Z.mul_1_l, ?Z.div_1_r in *;
    replace (w size + 2 - 1) with (w size + 1) in * by lia;
    replace (h size + 2 - 1) with (h size + 1) in * by lia;
    replace (w size + 1 - 1) with (w size) in * by lia;
    replace (h size + 1 - 1) with (h size) in * by lia.
  - (* 4:2:0 *)
    set (w2 := (w size + 1) / 2) in *. set (h2 := (h size + 1) / 2) in *.
    assert (0 <= X / 2 < w2) by (unfold w2; zmod).
    assert (0 <= Y / 2 < h2) by (unfold h2; zmod).
    destruct (u8_read data (Y * w size + X)) as [vy Ey]; [nia|].
    destruct (u8_read data (w size * h size + (Y / 2 * w2 + X / 2))) as [vu Eu]; [nia|].
    destruct (u8_read data (w size * h size + w2 * h2 + (Y / 2 * w2 + X / 2)))
      as [vv Ev]; [nia|].
    exists vy, vu, vv. rewrite Ey, Eu, Ev. auto.
  - (* 4:2:2 *)
    set (w2 := (w size + 1) / 2) in *.
    assert (0 <= X / 2 < w2) by (unfold w2; zmod).
    destruct (u8_read data (Y * w size + X)) as [vy Ey]; [nia|].
    destruct (u8_read data (w size * h size + (Y * w2 + X / 2))) as [vu Eu]; [nia|].
    destruct (u8_read data (w size * h size + w2 * h size + (Y * w2 + X / 2)))
      as [vv Ev]; [nia|].
    exists vy, vu, vv. rewrite Ey, Eu, Ev. auto.
  - (* 4:4:4 *)
    destruct (u8_read data (Y * w size + X)) as [vy Ey]; [nia|].
    destruct (u8_read data (w size * h size + (Y * w size + X))) as [vu Eu]; [nia|].
    destruct (u8_read data (w size * h size + w size * h size + (Y * w size + X)))
      as [vv Ev]; [nia|].
    exists vy, vu, vv.
    replace (w size * h size * 2 + (Y * w size + X))
      with (w size * h size + w size * h size + (Y * w size + X)) by lia.
    rewrite Ey, Eu, Ev. auto.
Qed.

(** The 16-bit planar formats, as the source decodes them: three single
    bytes of the image, each divided by 65535. *)
Lemma planar_u16_decode (mirror_x mirror_y : bool) (rgba : Color4f)
    (image : Image) (pos : Vector2i) :
  let t := getPixelType image in
  let size := getSize image in
  let data := getData image in
  let X := probeX mirror_x size pos in
  let Y := probeY mirror_y size pos in
  isPlanarU16 t = true ->
  inImage size X Y = true ->
  byteCount t size <= Z.of_nat (length data) ->
  exists iy iu iv vy vu vv,
    Mem.u8 data iy = Some vy /\ Mem.u8 data iu = Some vu /\ Mem.u8 data iv = Some vv /\
    _getPixelValue mirror_x mirror_y rgba image pos =
      Some (YPbPr_to_rgb
              (checkLevels (mkColor4f (norm vy f65535) (norm vu f65535) (norm vv f65535)
                                      F32.one)
                           (videoLevels (getInfo image)))
              (getYUVCoefficients (yuvCoefficients (getInfo image)))).
Proof.
  intros t size data X Y Ht Hin Hlen.
  pose proof (proj1 (inImage_spec size X Y) Hin) as [HX HY].
  unfold _getPixelValue. fold t size data X Y. rewrite Hin. cbn [negb].
  unfold byteCount, chromaW, chromaH in *.
  destruct t eqn:Et; try discriminate Ht; cbn [subX subY getBitDepth] in *;
    unfold byteOffset; cbn [getBitDepth getChannelCount];
    change (16 / 8) with 2 in *.
  - (* 4:2:0 *)
    destruct (u8_read data ((Y * w size + X) * 2)) as [vy Ey]; [zmod_nl|].
    destruct (u8_read data (w size * h size + (Y * w size / 4 + X / 2))) as [vu Eu]; [zmod_nl|].
    destruct (u8_read data (w size * h size + w size * h size / 4 + (Y * w size / 4 + X / 2))) as [vv Ev]; [zmod_nl|].
    exists ((Y * w size + X) * 2), (w size * h size + (Y * w size / 4 + X / 2)), (w size * h size + w size * h size / 4 + (Y * w size / 4 + X / 2)), vy, vu, vv. rewrite Ey, Eu, Ev. auto.
  - (* 4:2:2 *)
    destruct (u8_read data ((Y * w size + X) * 2)) as [vy Ey]; [zmod_nl|].
    destruct (u8_read data (w size * h size * 2 + (Y * w size + X))) as [vu Eu]; [zmod_nl|].
    destruct (u8_read data (w size * h size * 2 + w size / 2 * h size * 2 + (Y * w size + X))) as [vv Ev]; [zmod_nl|].
    exists ((Y * w size + X) * 2), (w size * h size * 2 + (Y * w size + X)), (w size * h size * 2 + w size / 2 * h size * 2 + (Y * w size + X)), vy, vu, vv. rewrite Ey, Eu, Ev. auto.
  - (* 4:4:4 *)
    destruct (u8_read data ((Y * w size + X) * 2)) as [vy Ey]; [zmod_nl|].
    destruct (u8_read data (w size * h size * 2 + (Y * w size + X) * 2)) as [vu Eu]; [zmod_nl|].
    destruct (u8_read data (w size * h size * 2 * 2 + (Y * w size + X) * 2)) as [vv Ev]; [zmod_nl|].
    exists ((Y * w size + X) * 2), (w size * h size * 2 + (Y * w size + X) * 2), (w size * h size * 2 * 2 + (Y * w size + X) * 2), vy, vu, vv. rewrite Ey, Eu, Ev. auto.
Qed.

End PlanarDecode.

Section PlanarTheorems.

Import PixelProbe Planar.
Context `{ColorSpaces}.

(** C7.  For each of the six planar YUV formats and every in-range probe
    of an image that holds its planes, the result is
    [YPbPr::to_rgb(checkLevels(yuv, videoLevels), yuvCoefficients)], where
    [yuv] is the triple of samples read from the image and normalised,
    with alpha 1: the levels correction is applied to the normalised
    triple and the matrix to the corrected triple, for whatever the two
    library functions compute. *)
Theorem yuv_levels_before_matrix (mirror_x mirror_y : bool) (rgba : Color4f)
    (image : Image) (pos : Vector2i) :
  let t := getPixelType image in
  let size := getSize image in
  let data := getData image in
  let X := probeX mirror_x size pos in
  let Y := probeY mirror_y size pos in
  isPlanarYUV t = true ->
  inImage size X Y = true ->
  byteCount t size <= Z.of_nat (length data) ->
  exists vy vu vv,
    (exists i, Mem.u8 data i = Some vy) /\
    (exists i, Mem.u8 data i = Some vu) /\
    (exists i, Mem.u8 data i = Some vv) /\
    let yuv := mkColor4f (norm vy (sampleMax t)) (norm vu (sampleMax t))
                         (norm vv (sampleMax t)) F32.one in
    _getPixelValue mirror_x mirror_y rgba image pos =
      Some (YPbPr_to_rgb (checkLevels yuv (videoLevels (getInfo image)))
                         (getYUVCoefficients (yuvCoefficients (getInfo image)))).
Proof.
  intros t size data X Y Ht Hin Hlen.
  unfold isPlanarYUV in Ht. apply orb_true_iff in Ht as [Ht|Ht].
  - destruct (planar_u8_decode mirror_x mirror_y rgba image pos Ht Hin Hlen)
      as (vy & vu & vv & Ey & Eu & Ev & E).
    exists vy, vu, vv. unfold sampleMax. fold t. rewrite Ht. eauto 10.
  - destruct (planar_u16_decode mirror_x mirror_y rgba image pos Ht Hin Hlen)
      as (iy & iu & iv & vy & vu & vv & Ey & Eu & Ev & E).
    exists vy, vu, vv. unfold sampleMax. fold t.
    replace (isPlanarU8 t) with false by (destruct t; discriminate || reflexivity).
    eauto 10.
Qed.

(** C4, as the code has it for the 8-bit planar formats.  For 4:2:0,
    4:2:2 and 4:4:4 at 8 bits and every in-range (X, Y), the luma sample is
    the byte at [Y * w + X]; the chroma samples are the bytes at
    [(Y / subY) * ceil(w / subX) + X / subX] in the U plane, which starts
    at [w * h], and in the V plane, which starts
    [ceil(w / subX) * ceil(h / subY)] bytes after the U plane; (subX, subY)
    is (2,2), (2,1), (1,1). *)
Theorem planar_u8_addressing (mirror_x mirror_y : bool) (rgba : Color4f)
    (image : Image) (pos : Vector2i) :
  let t := getPixelType image in
  let size := getSize image in
  let data := getData image in
  let X := probeX mirror_x size pos in
  let Y := probeY mirror_y size pos in
  isPlanarU8 t = true ->
  inImage size X Y = true ->
  byteCount t size <= Z.of_nat (length data) ->
  let lumaSize := w size * h size in
  let uPlaneSize := ((w size + subX t - 1) / subX t) * ((h size + subY t - 1) / subY t) in
  let chroma := (Y / subY t) * ((w size + subX t - 1) / subX t) + X / subX t in
  exists vy vu vv,
    Mem.u8 data (Y * w size + X) = Some vy /\
    Mem.u8 data (lumaSize + chroma) = Some vu /\
    Mem.u8 data (lumaSize + uPlaneSize + chroma) = Some vv /\
    _getPixelValue mirror_x mirror_y rgba image pos =
      Some (YPbPr_to_rgb
              (checkLevels (mkColor4f (norm vy f255) (norm vu f255) (norm vv f255) F32.one)
                           (videoLevels (getInfo image)))
              (getYUVCoefficients (yuvCoefficients (getInfo image)))).
Proof.
  intros t size data X Y Ht Hin Hlen lumaSize uPlaneSize chroma.
  exact (planar_u8_decode mirror_x mirror_y rgba image pos Ht Hin Hlen).
Qed.

End PlanarTheorems.

Lemma yuv_levels_before_matrix_witness :
  let image := Sample.yuv420_2x2 in
  let pos := mkVector2i 0 0 in
  Planar.isPlanarYUV (getPixelType image) = true /\
  PixelProbe.inImage (getSize image) (PixelProbe.probeX false (getSize image) pos)
                     (PixelProbe.probeY false (getSize image) pos) = true /\
  Planar.byteCount (getPixelType image) (getSize image) <= Z.of_nat (length (getData image)) /\
  exists vy vu vv,
    (exists i, Mem.u8 (getData image) i = Some vy) /\
    (exists i, Mem.u8 (getData image) i = Some vu) /\
    (exists i, Mem.u8 (getData image) i = Some vv) /\
    let yuv := mkColor4f (PixelProbe.norm vy (Planar.sampleMax (getPixelType image)))
                         (PixelProbe.norm vu (Planar.sampleMax (getPixelType image)))
                         (PixelProbe.norm vv (Planar.sampleMax (getPixelType image)))
                         F32.one in
    @PixelProbe._getPixelValue Sample.markingColorSpaces false false Sample.black image pos =
      Some (@YPbPr_to_rgb Sample.markingColorSpaces
              (@checkLevels Sample.markingColorSpaces yuv (videoLevels (getInfo image)))
              (@getYUVCoefficients Sample.markingColorSpaces (yuvCoefficients (getInfo image)))).
Proof.
  split; [reflexivity|]. split; [reflexivity|]. split; [vm_compute; discriminate|].
  exact (@yuv_levels_before_matrix Sample.markingColorSpaces false false Sample.black
           Sample.yuv420_2x2 (mkVector2i 0 0) eq_refl eq_refl
           ltac:(vm_compute; discriminate)).
Defined.

(** With a library whose correction and matrix do not commute, the decoded
    sample is the matrix applied to the corrected triple and differs from
    the correction applied to the matrix's result. *)
Lemma yuv_order_is_observable :
  let image := Sample.yuv420_2x2 in
  let yuv := mkColor4f (PixelProbe.norm 18 PixelProbe.f255) (PixelProbe.norm 128 PixelProbe.f255)
                       (PixelProbe.norm 129 PixelProbe.f255) F32.one in
  let CS := Sample.markingColorSpaces in
  @PixelProbe._getPixelValue CS false false Sample.black image (mkVector2i 0 0)
    = Some (@YPbPr_to_rgb CS (@checkLevels CS yuv FullRange) (@getYUVCoefficients CS REC709)) /\
  @PixelProbe._getPixelValue CS false false Sample.black image (mkVector2i 0 0)
    <> Some (@checkLevels CS (@YPbPr_to_rgb CS yuv (@getYUVCoefficients CS REC709)) FullRange).
Proof. split; [vm_compute; reflexivity | vm_compute; discriminate]. Qed.

Lemma planar_u8_addressing_witness :
  let image := Sample.yuv420_3x4 in
  let pos := mkVector2i 0 1 in
  let t := getPixelType image in
  let size := getSize image in
  let data := getData image in
  let X := PixelProbe.probeX false size pos in
  let Y := PixelProbe.probeY false size pos in
  Planar.isPlanarU8 t = true /\
  PixelProbe.inImage size X Y = true /\
  Planar.byteCount t size <= Z.of_nat (length data) /\
  let lumaSize := w size * h size in
  let uPlaneSize := ((w size + Planar.subX t - 1) / Planar.subX t)
                    * ((h size + Planar.subY t - 1) / Planar.subY t) in
  let chroma := (Y / Planar.subY t) * ((w size + Planar.subX t - 1) / Planar.subX t)
                + X / Planar.subX t in
  exists vy vu vv,
    Mem.u8 data (Y * w size + X) = Some vy /\
    Mem.u8 data (lumaSize + chroma) = Some vu /\
    Mem.u8 data (lumaSize + uPlaneSize + chroma) = Some vv /\
    @PixelProbe._getPixelValue Sample.plainColorSpaces false false Sample.black image pos =
      Some (@YPbPr_to_rgb Sample.plainColorSpaces
              (@checkLevels Sample.plainColorSpaces
                 (mkColor4f (PixelProbe.norm vy PixelProbe.f255)
                            (PixelProbe.norm vu PixelProbe.f255)
                            (PixelProbe.norm vv PixelProbe.f255) F32.one)
                 (videoLevels (getInfo image)))
              (@getYUVCoefficients Sample.plainColorSpaces (yuvCoefficients (getInfo image)))).
Proof.
  split; [reflexivity|]. split; [reflexivity|]. split; [vm_compute; discriminate|].
  exact (@planar_u8_addressing Sample.plainColorSpaces false false Sample.black
           Sample.yuv420_3x4 (mkVector2i 0 1) eq_refl eq_refl
           ltac:(vm_compute; discriminate)).
Defined.

(** C4 as worded.  The addressing as the specification words it fails on
    an image of odd width.  In the 3 x 4 4:2:0 image, at (X, Y) = (0, 2), the worded chroma
    offset is 1 and the U plane holds 21 there; the source rounds the chroma
    row length up to 2, reads offset 2 and decodes U = 22.  No U plane size
    makes the worded decoding agree with the source. *)
Lemma planar_addressing_counterexample :
  let image := Sample.yuv420_3x4 in
  let size := getSize image in
  let pos := mkVector2i 0 1 in
  let X := PixelProbe.probeX false size pos in
  let Y := PixelProbe.probeY false size pos in
  PixelProbe.inImage size X Y = true /\ X = 0 /\ Y = 2 /\
  Planar.claimedChromaOffset YUV_420P_U8 size X Y = 1 /\
  Mem.u8 (getData image) (w size * h size + Planar.claimedChromaOffset YUV_420P_U8 size X Y)
    = Some 21 /\
  (g <$> @PixelProbe._getPixelValue Sample.plainColorSpaces false false Sample.black image pos)
    = Some (PixelProbe.norm 22 PixelProbe.f255) /\
  forall uPlaneSize,
    @Claimed.decode Sample.plainColorSpaces image X Y uPlaneSize
    <> @PixelProbe._getPixelValue Sample.plainColorSpaces false false Sample.black image pos.
Proof.
  cbv zeta. repeat (split; [vm_compute; reflexivity|]).
  intros u Heq.
  assert (Hg : g <$> @Claimed.decode Sample.plainColorSpaces Sample.yuv420_3x4 0 2 u
               = Some (PixelProbe.norm 22 PixelProbe.f255)).
  { change (PixelProbe.probeX false (getSize Sample.yuv420_3x4) (mkVector2i 0 1)) with 0 in Heq.
    change (PixelProbe.probeY false (getSize Sample.yuv420_3x4) (mkVector2i 0 1)) with 2 in Heq.
    rewrite Heq. vm_compute. reflexivity. }
  unfold Claimed.decode in Hg.
  change (Claimed.sample (getPixelType Sample.yuv420_3x4) (getData Sample.yuv420_3x4)
            (2 * w (getSize Sample.yuv420_3x4) + 0)) with (Some 6) in Hg.
  change (Claimed.sample (getPixelType Sample.yuv420_3x4) (getData Sample.yuv420_3x4)
            (w (getSize Sample.yuv420_3x4) * h (getSize Sample.yuv420_3x4)
             + Planar.claimedChromaOffset (getPixelType Sample.yuv420_3x4)
                 (getSize Sample.yuv420_3x4) 0 2)) with (Some 21) in Hg.
  cbn [mbind option_bind] in Hg.
  destruct (Claimed.sample _ _ _) as [vv|]; cbn in Hg; [|discriminate].
  vm_compute in Hg. discriminate.
Qed.

(** C3 on the code.  The packed 10-bit format is divided by the largest
    32-bit value, not by 1023: a pixel whose three fields are all 1023 decodes to
    1023 / 2^32 in each channel, where division by 1023 would give 1. *)
Lemma rgb_u10_full_scale_is_not_one :
  exists c,
    @PixelProbe._getPixelValue Sample.plainColorSpaces false false Sample.black
      Sample.u10_white (mkVector2i 0 0) = Some c /\
    r c = PixelProbe.norm 1023 F32.UINT32_MAX_F /\
    r c = S754_finite false 16760832 (-46) /\
    F32.eqb (r c) F32.one = false /\
    F32.eqb (g c) F32.one = false /\
    F32.eqb (b c) F32.one = false /\
    PixelProbe.norm 1023 (F32.of_Z 1023) = F32.one.
Proof. eexists. repeat split; vm_compute; reflexivity. Qed.

(** The other integer maxima do map full scale to 1, and alpha is set to 1
    before the switch. *)
Lemma full_scale_of_other_integer_formats :
  PixelProbe.norm 255 PixelProbe.f255 = F32.one /\
  PixelProbe.norm 65535 PixelProbe.f65535 = F32.one /\
  PixelProbe.norm 4294967295 F32.UINT32_MAX_F = F32.one.
Proof. repeat split; vm_compute; reflexivity. Qed.

(** The switch has no case for the 32-bit float luminance formats: a pixel
    holding 1.0 leaves red, green and blue as the caller had them. *)
Lemma l_f32_is_not_decoded :
  @PixelProbe._getPixelValue Sample.plainColorSpaces false false Sample.black
    (Sample.image L_F32 1 1 [0; 0; 128; 63]) (mkVector2i 0 0)
    = Some (set_a Sample.black F32.one) /\
  Mem.f32 (Mem.bytes [0; 0; 128; 63]) 0 0 = Some F32.one.
Proof. split; vm_compute; reflexivity. Qed.

(** The 16-bit planar cases index the byte pointer: of a 1 x 1 4:4:4 pixel
    with samples 65535, 32768, 32768, the source decodes the low byte of the
    luma sample and bytes 2 and 4, each over 65535. *)
Lemma planar_u16_reads_single_bytes :
  let image := Sample.image YUV_444P_U16 1 1 [255; 255; 0; 128; 0; 128] in
  @PixelProbe._getPixelValue Sample.plainColorSpaces false false Sample.black
    image (mkVector2i 0 0)
    = Some (mkColor4f (PixelProbe.norm 255 PixelProbe.f65535) F32.zero F32.zero F32.one) /\
  Mem.u16 (getData image) 0 0 = Some 65535 /\
  Mem.u16 (getData image) 0 1 = Some 32768.
Proof. cbv zeta. repeat split; vm_compute; reflexivity. Qed.

(* ================================================================== *)
(** * Colour-area statistics *)
(* ================================================================== *)

Section ColorAreaTheorems.

Import Viewport.
Context `{ColorSpaces}.
Variable spaceOf : Z -> Space.
Variable boxW boxH : math.BBox2i -> Z.


Lemma neb_false (u v : Vector2i) : math.Vector2i_neb u v = false <-> u = v.
Proof.
  unfold math.Vector2i_neb. destruct u as [ux uy], v as [vx vy]; cbn.
  split.
  - intros E. apply negb_false_iff, andb_true_iff in E as [E1 E2].
    f_equal; lia.
  - intros [= -> ->]. rewrite !Z.eqb_refl. reflexivity.
Qed.

(** C10.  With no buffer mapped ([gl.image] null), [_calculateColorArea]
    returns at once and the record it was given is unchanged in every
    field.  In [draw] this is the case when the selection is empty
    ([min == max]) and when [glMapBuffer] fails: the statistics published
    to the panels are then the previous ones. *)
Theorem null_image_keeps_statistics :
  (forall gl ui info,
     image gl = None -> _calculateColorArea spaceOf boxW boxH gl ui info = Some info) /\
  (forall dev ui p gl,
     math.min (selection p) = math.max (selection p) \/ (forall slot, dev slot = None) ->
     exists p' gl' calls,
       draw_selection spaceOf boxW boxH dev ui p gl = Some (p', gl', calls) /\
       area.rgba (colorAreaInfo p') = area.rgba (colorAreaInfo p) /\
       area.hsv (colorAreaInfo p') = area.hsv (colorAreaInfo p) /\
       forall t info, In (ToolUpdate t info) calls ->
         area.rgba info = area.rgba (colorAreaInfo p) /\
         area.hsv info = area.hsv (colorAreaInfo p)).
Proof.
  split.
  - intros gl ui info Himg. unfold _calculateColorArea. rewrite Himg. reflexivity.
  - intros dev ui [sel info0 cat ht vt] gl Hcase. unfold draw_selection.
    cbn [selection set_colorAreaInfo colorAreaInfo colorAreaTool histogramTool
         vectorscopeTool] in *.
    destruct (math.Vector2i_neb (math.min sel) (math.max sel)) eqn:Hne.
    + destruct Hcase as [Heq|Hdev]; [apply neb_false in Heq; congruence|].
      unfold _bindReadImage. rewrite Hdev.
      unfold _calculateColorArea. cbn [image].
      destruct cat, ht, vt; cbn;
        (do 3 eexists; split; [reflexivity|]; split; [reflexivity|];
         split; [reflexivity|]; intros t info Hin; cbn in Hin;
         decompose [or] Hin; try contradiction; try congruence;
         match goal with
         | E : ToolUpdate _ _ = ToolUpdate _ _ |- _ => inversion E; subst; cbn; auto
         end).
    + unfold _calculateColorArea. cbn [image set_image].
      destruct cat, ht, vt; cbn;
        (do 3 eexists; split; [reflexivity|]; split; [reflexivity|];
         split; [reflexivity|]; intros t info Hin; cbn in Hin;
         decompose [or] Hin; try contradiction; try congruence;
         match goal with
         | E : ToolUpdate _ _ = ToolUpdate _ _ |- _ => inversion E; subst; cbn; auto
         end).
Qed.


End ColorAreaTheorems.

Lemma null_image_keeps_statistics_witness :
  Viewport.image Sample.gl0 = None /\
  @Viewport._calculateColorArea Sample.plainColorSpaces Sample.spaceOf math.bw math.bh
    Sample.gl0 Sample.ui
    (Viewport.colorAreaInfo (Sample.private (Sample.box 1 1 1 1)))
    = Some (Viewport.colorAreaInfo (Sample.private (Sample.box 1 1 1 1))).
Proof.
  split; [reflexivity|].
  exact (proj1 (@null_image_keeps_statistics Sample.plainColorSpaces Sample.spaceOf
                  math.bw math.bh)
           Sample.gl0 Sample.ui _ eq_refl).
Defined.


(* ================================================================== *)
(** * The annotation passes *)
(* ================================================================== *)

Section Passes.

Import Viewport DrawSpec.

Variable USE_OPENGL2 : bool.
Variable v : View.
Variable currentFrame : Z.

Lemma same_frozen_refl (h : gmap nat Shape) : same_frozen h h.
Proof. intros q; reflexivity. Qed.

Lemma same_frozen_trans (h1 h2 h3 : gmap nat Shape) :
  same_frozen h1 h2 -> same_frozen h2 h3 -> same_frozen h1 h3.
Proof. intros H12 H23 q. rewrite H12. apply H23. Qed.

Lemma same_frozen_insert (h : gmap nat Shape) (p : nat) (s s' : Shape) :
  h !! p = Some s -> frozen s' = frozen s -> same_frozen (<[p := s']> h) h.
Proof.
  intros Hp Hf q. destruct (decide (p = q)) as [->|Hne].
  - rewrite lookup_insert_eq, Hp. cbn. congruence.
  - rewrite lookup_insert_ne by assumption. reflexivity.
Qed.

Lemma same_frozen_lookup (h h0 : gmap nat Shape) (p : nat) (s : Shape) :
  same_frozen h h0 -> h !! p = Some s ->
  exists s0, h0 !! p = Some s0 /\ frozen s = frozen s0.
Proof.
  intros Hsf Hp. specialize (Hsf p). rewrite Hp in Hsf. cbn in Hsf.
  destruct (h0 !! p) as [s0|]; [|discriminate].
  exists s0. split; [reflexivity|]. cbn in Hsf. congruence.
Qed.

Lemma same_frozen_drawnByMain (h h0 : gmap nat Shape) (p : nat) :
  same_frozen h h0 -> drawnByMain USE_OPENGL2 h p = drawnByMain USE_OPENGL2 h0 p.
Proof.
  intros Hsf. unfold drawnByMain. specialize (Hsf p).
  destruct (h !! p) as [s|], (h0 !! p) as [s0|]; try discriminate; [|reflexivity].
  cbn in Hsf. unfold frozen in Hsf. unfold is_GL2TextShape.
  injection Hsf as -> _ _. reflexivity.
Qed.

Lemma same_frozen_drawnByGL2 (h h0 : gmap nat Shape) (p : nat) :
  same_frozen h h0 -> drawnByGL2 h p = drawnByGL2 h0 p.
Proof.
  intros Hsf. unfold drawnByGL2. specialize (Hsf p).
  destruct (h !! p) as [s|], (h0 !! p) as [s0|]; try discriminate; [|reflexivity].
  cbn in Hsf. unfold frozen in Hsf. unfold is_GL2TextShape.
  injection Hsf as -> _ _. reflexivity.
Qed.

Lemma drawnShapes_app (l1 l2 : list DrawEvent) :
  drawnShapes (l1 ++ l2) = drawnShapes l1 ++ drawnShapes l2.
Proof.
  induction l1 as [|e l1 IH]; [reflexivity|].
  destruct e; cbn; rewrite ?IH; reflexivity.
Qed.

Lemma stepsTo_refl (good : DrawEvent -> Prop) (h0 : gmap nat Shape) (st : DrawState) :
  same_frozen (heap st) h0 -> stepsTo good h0 st st [].
Proof.
  intros Hsf. split; [assumption|]. exists []. rewrite app_nil_r. auto.
Qed.

Lemma stepsTo_trans (good : DrawEvent -> Prop) (h0 : gmap nat Shape)
    (st1 st2 st3 : DrawState) (d1 d2 : list nat) :
  stepsTo good h0 st1 st2 d1 -> stepsTo good h0 st2 st3 d2 ->
  stepsTo good h0 st1 st3 (d1 ++ d2).
Proof.
  intros [_ (n1 & E1 & D1 & G1)] [Hsf (n2 & E2 & D2 & G2)].
  split; [assumption|]. exists (n1 ++ n2).
  rewrite E2, E1, <- app_assoc, drawnShapes_app, D1, D2.
  split; [reflexivity|]. split; [reflexivity|]. apply Forall_app; auto.
Qed.

(** A loop over shape addresses whose body steps as above, drawing the
    addresses a predicate on [h0] selects. *)
Lemma foldl_stepsTo (good : DrawEvent -> Prop) (h0 : gmap nat Shape)
    (step : DrawState -> nat -> DrawState) (sel : nat -> bool) (ps : list nat)
    (Hgood : forall p, In p ps -> forall st, same_frozen (heap st) h0 ->
               stepsTo good h0 st (step st p) (if sel p then [p] else [])) :
  forall st, same_frozen (heap st) h0 ->
    stepsTo good h0 st (foldl step st ps) (List.filter sel ps).
Proof.
  induction ps as [|p ps IH]; intros st Hsf; [apply stepsTo_refl; assumption|].
  cbn [foldl List.filter].
  pose proof (Hgood p (or_introl eq_refl) st Hsf) as Hp.
  assert (IH' : stepsTo good h0 (step st p) (foldl step (step st p) ps) (List.filter sel ps)).
  { apply IH; [|apply Hp]. intros q Hq. apply Hgood. right; assumption. }
  pose proof (stepsTo_trans _ _ _ _ _ _ _ Hp IH') as Ht.
  destruct (sel p); exact Ht.
Qed.

(** The draw of one shape by the main pass. *)
Lemma drawShape_steps (annotations : list Annotation) (annotation : Annotation)
    (h0 : gmap nat Shape) (p : nat) (st : DrawState) :
  In annotation annotations -> In p (shapes annotation) ->
  same_frozen (heap st) h0 ->
  stepsTo (attenuated v currentFrame annotations h0) h0 st
          (drawShape USE_OPENGL2 v (alphaMult v currentFrame annotation) st p)
          (if drawnByMain USE_OPENGL2 h0 p then [p] else []).
Proof.
  intros Hann Hp Hsf.
  rewrite <- (same_frozen_drawnByMain (heap st) h0 p Hsf).
  unfold drawShape, drawnByMain.
  destruct (heap st !! p) as [s|] eqn:Es; [|apply stepsTo_refl; assumption].
  destruct (USE_OPENGL2 && is_GL2TextShape s); cbn [negb];
    [apply stepsTo_refl; assumption|].
  destruct (same_frozen_lookup _ _ _ _ Hsf Es) as (s0 & Es0 & Hf).
  split.
  - cbn [heap]. eapply same_frozen_trans; [|exact Hsf].
    eapply same_frozen_insert; [exact Es|].
    unfold frozen, set_color_a, set_matrix, set_a; cbn. destruct (color s); reflexivity.
  - eexists. split; [reflexivity|]. split; [reflexivity|].
    constructor; [|constructor]. cbn.
    exists annotation, s0. repeat split; try assumption.
    unfold frozen in Hf. congruence.
Qed.

(** The draw of one shape by the GL2 pass. *)
Lemma drawShapeGL2_steps (annotations : list Annotation) (annotation : Annotation)
    (h0 : gmap nat Shape) (p : nat) (st : DrawState) :
  In annotation annotations -> In p (shapes annotation) ->
  same_frozen (heap st) h0 ->
  stepsTo (attenuated v currentFrame annotations h0) h0 st
          (drawShapeGL2 v (alphaMult v currentFrame annotation) st p)
          (if drawnByGL2 h0 p then [p] else []).
Proof.
  intros Hann Hp Hsf.
  rewrite <- (same_frozen_drawnByGL2 (heap st) h0 p Hsf).
  unfold drawShapeGL2, drawnByGL2.
  destruct (heap st !! p) as [s|] eqn:Es; [|apply stepsTo_refl; assumption].
  destruct (is_GL2TextShape s); cbn [negb]; [|apply stepsTo_refl; assumption].
  destruct (same_frozen_lookup _ _ _ _ Hsf Es) as (s0 & Es0 & Hf).
  split.
  - cbn [heap]. eapply same_frozen_trans; [|exact Hsf].
    eapply same_frozen_insert; [exact Es|].
    unfold frozen, set_color_a, set_matrix, set_gl2, set_a; cbn.
    destruct (color s); reflexivity.
  - eexists. split; [reflexivity|]. split; [reflexivity|].
    constructor; [|constructor]. cbn.
    exists annotation, s0. repeat split; try assumption.
    unfold frozen in Hf. congruence.
Qed.

Lemma reverse_rev {A : Type} (l : list A) : reverse l = rev l.
Proof. unfold reverse. symmetry. apply rev_alt. Qed.

Lemma filter_reverse (sel : nat -> bool) (l : list nat) :
  List.filter sel (reverse l) = rev (List.filter sel l).
Proof. rewrite reverse_rev. apply filter_rev. Qed.

(** One annotation in the main pass. *)
Lemma drawAnnotation_steps (annotations : list Annotation) (annotation : Annotation)
    (h0 : gmap nat Shape) (st : DrawState) :
  In annotation annotations ->
  same_frozen (heap st) h0 ->
  stepsTo (attenuated v currentFrame annotations h0) h0 st
          (drawAnnotation USE_OPENGL2 v currentFrame st annotation)
          (if visible v currentFrame annotation
           then rev (List.filter (drawnByMain USE_OPENGL2 h0) (shapes annotation))
           else []).
Proof.
  intros Hann Hsf. unfold drawAnnotation, visible.
  destruct (F32.eqb _ _); cbn [negb]; [apply stepsTo_refl; assumption|].
  rewrite <- filter_reverse.
  apply foldl_stepsTo; [|assumption].
  intros p Hp st' Hsf'. apply drawShape_steps; try assumption.
  apply in_rev. rewrite <- reverse_rev. assumption.
Qed.

(** One annotation in the GL2 pass. *)
Lemma drawAnnotationGL2_steps (annotations : list Annotation) (annotation : Annotation)
    (h0 : gmap nat Shape) (st : DrawState) :
  In annotation annotations ->
  same_frozen (heap st) h0 ->
  stepsTo (attenuated v currentFrame annotations h0) h0 st
          (drawAnnotationGL2 v currentFrame st annotation)
          (if visible v currentFrame annotation
           then List.filter (drawnByGL2 h0) (shapes annotation)
           else []).
Proof.
  intros Hann Hsf. unfold drawAnnotationGL2, visible.
  destruct (F32.eqb _ _); cbn [negb]; [apply stepsTo_refl; assumption|].
  apply foldl_stepsTo; [|assumption].
  intros p Hp st' Hsf'. apply drawShapeGL2_steps; assumption.
Qed.

(** A loop over annotations. *)
Lemma foldl_annotations (all : list Annotation) (h0 : gmap nat Shape)
    (step : DrawState -> Annotation -> DrawState) (order : Annotation -> list nat)
    (annotations : list Annotation)
    (Hstep : forall annotation, In annotation annotations ->
               forall st, same_frozen (heap st) h0 ->
                 stepsTo (attenuated v currentFrame all h0) h0 st (step st annotation)
                         (order annotation)) :
  forall st, same_frozen (heap st) h0 ->
    stepsTo (attenuated v currentFrame all h0) h0 st (foldl step st annotations)
            (concat (map order annotations)).
Proof.
  induction annotations as [|an ans IH]; intros st Hsf; [apply stepsTo_refl; assumption|].
  cbn [foldl map concat].
  pose proof (Hstep an (or_introl eq_refl) st Hsf) as Hp.
  eapply stepsTo_trans; [exact Hp|].
  apply IH; [|apply Hp]. intros q Hq. apply Hstep. right; assumption.
Qed.

Lemma emit_steps (good : DrawEvent -> Prop) (h0 : gmap nat Shape) (st : DrawState)
    (evs : list DrawEvent) :
  same_frozen (heap st) h0 -> drawnShapes evs = [] -> Forall good evs ->
  stepsTo good h0 st (emit st evs) [].
Proof. intros Hsf Hd Hg. split; [assumption|]. exists evs. auto. Qed.

(** The whole main pass. *)
Lemma drawAnnotations_steps (player : TimelinePlayer) (st : DrawState) :
  currentTime player = currentFrame ->
  let annotations := getAnnotations player (ghostPrevious v) (ghostNext v) in
  stepsTo (attenuated v currentFrame annotations (heap st)) (heap st) st
          (_drawAnnotations USE_OPENGL2 v (Some player) st)
          (mainOrder USE_OPENGL2 v currentFrame (heap st) annotations).
Proof.
  intros Hframe annotations. unfold _drawAnnotations. fold annotations. rewrite Hframe.
  set (h0 := heap st). set (good := attenuated v currentFrame annotations h0).
  set (pre := [GlStencilMask; GlClearStencil; GlEnableStencil]).
  assert (S1 : stepsTo good h0 st (emit st pre) []).
  { apply emit_steps; [apply same_frozen_refl|reflexivity|repeat constructor]. }
  assert (S2 : stepsTo good h0 (emit st pre)
                 (foldl (drawAnnotation USE_OPENGL2 v currentFrame) (emit st pre) annotations)
                 (mainOrder USE_OPENGL2 v currentFrame h0 annotations)).
  { apply foldl_annotations; [|apply S1].
    intros an Han st' Hsf'. apply drawAnnotation_steps; assumption. }
  assert (S3 : stepsTo good h0
                 (foldl (drawAnnotation USE_OPENGL2 v currentFrame) (emit st pre) annotations)
                 (emit (foldl (drawAnnotation USE_OPENGL2 v currentFrame) (emit st pre)
                              annotations) [GlDisableStencil]) []).
  { apply emit_steps; [apply S2|reflexivity|repeat constructor]. }
  pose proof (stepsTo_trans _ _ _ _ _ _ _ S1 (stepsTo_trans _ _ _ _ _ _ _ S2 S3)) as S.
  rewrite app_nil_r in S. cbn [app] in S.
  destruct annotations as [|an ans]; [apply stepsTo_refl, same_frozen_refl|exact S].
Qed.

(** The whole GL2 pass. *)
Lemma drawAnnotationsGL2_steps (player : TimelinePlayer) (st : DrawState) :
  currentTime player = currentFrame ->
  let annotations := getAnnotations player (ghostPrevious v) (ghostNext v) in
  stepsTo (attenuated v currentFrame annotations (heap st)) (heap st) st
          (_drawAnnotationsGL2 v (Some player) st)
          (gl2Order v currentFrame (heap st) annotations).
Proof.
  intros Hframe annotations. unfold _drawAnnotationsGL2. fold annotations. rewrite Hframe.
  set (h0 := heap st). set (good := attenuated v currentFrame annotations h0).
  set (pre := [GlStencilMask; GlClearStencil]).
  assert (S1 : stepsTo good h0 st (emit st pre) []).
  { apply emit_steps; [apply same_frozen_refl|reflexivity|repeat constructor]. }
  assert (S2 : stepsTo good h0 (emit st pre)
                 (foldl (drawAnnotationGL2 v currentFrame) (emit st pre) annotations)
                 (gl2Order v currentFrame h0 annotations)).
  { apply foldl_annotations; [|apply S1].
    intros an Han st' Hsf'. apply drawAnnotationGL2_steps; assumption. }
  pose proof (stepsTo_trans _ _ _ _ _ _ _ S1 S2) as S. cbn [app] in S.
  destruct annotations as [|an ans]; [apply stepsTo_refl, same_frozen_refl|exact S].
Qed.

End Passes.

Section PassTheorems.

Import Viewport DrawSpec.

Lemma stepsTo_out (good : DrawEvent -> Prop) (h0 : gmap nat Shape)
    (st st' : DrawState) (d : list nat) :
  stepsTo good h0 st st' d -> drawnShapes (out st') = drawnShapes (out st) ++ d.
Proof. intros [_ (n & E & D & _)]. rewrite E, drawnShapes_app, D. reflexivity. Qed.

Lemma same_frozen_color (h1 h2 : gmap nat Shape) (q : nat) :
  same_frozen h1 h2 -> color <$> h1 !! q = color <$> h2 !! q.
Proof.
  intros Hsf. specialize (Hsf q).
  destruct (h1 !! q) as [s1|], (h2 !! q) as [s2|]; try discriminate; [|reflexivity].
  cbn in *. unfold frozen in Hsf. congruence.
Qed.

Lemma attenuated_same_frozen (v : View) (currentFrame : Z) (annotations : list Annotation)
    (h1 h0 : gmap nat Shape) (ev : DrawEvent) :
  same_frozen h1 h0 ->
  attenuated v currentFrame annotations h1 ev -> attenuated v currentFrame annotations h0 ev.
Proof.
  intros Hsf. destruct ev; cbn; auto.
  intros (an & s1 & Han & Hp & Hs1 & Ha).
  destruct (same_frozen_lookup _ _ _ _ Hsf Hs1) as (s0 & Hs0 & Hf).
  exists an, s0. repeat split; try assumption.
  unfold frozen in Hf. congruence.
Qed.

(** Steps stated against the heap a pass started from also hold against
    an earlier heap with the same frozen members. *)
Lemma stepsTo_rebase (v : View) (currentFrame : Z) (annotations : list Annotation)
    (h0 : gmap nat Shape) (st st' : DrawState) (d : list nat) :
  stepsTo (attenuated v currentFrame annotations (heap st)) (heap st) st st' d ->
  same_frozen (heap st) h0 ->
  stepsTo (attenuated v currentFrame annotations h0) h0 st st' d.
Proof.
  intros [Hsf (n & E & D & G)] Hsf0.
  split; [eapply same_frozen_trans; eassumption|].
  exists n. split; [exact E|]. split; [exact D|].
  eapply Forall_impl; [exact G|].
  intros ev. apply attenuated_same_frozen. exact Hsf0.
Qed.

Lemma filter_all (sel : nat -> bool) (l : list nat) :
  (forall p, In p l -> sel p = true) -> List.filter sel l = l.
Proof.
  induction l as [|p l IH]; intros Hall; [reflexivity|]. cbn.
  rewrite (Hall p (or_introl eq_refl)). f_equal. apply IH.
  intros q Hq. apply Hall. right; assumption.
Qed.

Lemma live_drawnByMain (h : gmap nat Shape) (p : nat) :
  is_Some (h !! p) ->
  drawnByMain false h p = true /\ drawnByMain true h p = negb (drawnByGL2 h p).
Proof.
  intros [s Hs]. unfold drawnByMain, drawnByGL2. rewrite Hs. split; reflexivity.
Qed.

(** C8, amended.  Within an annotation that is drawn (alpha multiplier not
    0), [_drawAnnotations] makes its calls to [draw] in exact reverse of the
    stored order of the shapes it draws.  In a build without [USE_OPENGL2]
    it draws every shape: the calls are the stored sequence reversed,
    last-added first, first-added last.  In a build with [USE_OPENGL2] it
    leaves the GL2 text shapes out, and [_drawAnnotationsGL2] draws those,
    and only those, in their stored order.  The calls of the whole main
    pass are those of its annotations, one annotation after the other. *)
Theorem shapes_drawn_in_reverse_order (USE_OPENGL2 : bool) (v : View)
    (currentFrame : Z) (annotation : Annotation) (st0 : DrawState) :
  F32.eqb (alphaMult v currentFrame annotation) F32.zero = false ->
  (forall p, In p (shapes annotation) -> is_Some (heap st0 !! p)) ->
  drawnShapes (out (drawAnnotation USE_OPENGL2 v currentFrame st0 annotation))
    = drawnShapes (out st0)
      ++ rev (if USE_OPENGL2
              then List.filter (fun p => negb (drawnByGL2 (heap st0) p)) (shapes annotation)
              else shapes annotation) /\
  drawnShapes (out (drawAnnotationGL2 v currentFrame st0 annotation))
    = drawnShapes (out st0) ++ List.filter (drawnByGL2 (heap st0)) (shapes annotation) /\
  (forall player st,
     currentTime player = currentFrame ->
     drawnShapes (out (_drawAnnotations USE_OPENGL2 v (Some player) st))
       = drawnShapes (out st)
         ++ mainOrder USE_OPENGL2 v currentFrame (heap st)
                      (getAnnotations player (ghostPrevious v) (ghostNext v))).
Proof.
  intros Hvis Hlive.
  split; [|split].
  - pose proof (drawAnnotation_steps USE_OPENGL2 v currentFrame [annotation] annotation
                  (heap st0) st0 (or_introl eq_refl) (same_frozen_refl _)) as Hs.
    unfold visible in Hs. rewrite Hvis in Hs. cbn [negb] in Hs.
    rewrite (stepsTo_out _ _ _ _ _ Hs). f_equal. f_equal.
    destruct USE_OPENGL2.
    + apply filter_ext_in. intros p Hp. apply (live_drawnByMain _ _ (Hlive p Hp)).
    + apply filter_all. intros p Hp. apply (live_drawnByMain _ _ (Hlive p Hp)).
  - pose proof (drawAnnotationGL2_steps v currentFrame [annotation] annotation
                  (heap st0) st0 (or_introl eq_refl) (same_frozen_refl _)) as Hs.
    unfold visible in Hs. rewrite Hvis in Hs. cbn [negb] in Hs.
    exact (stepsTo_out _ _ _ _ _ Hs).
  - intros player st Hframe.
    exact (stepsTo_out _ _ _ _ _
             (drawAnnotations_steps USE_OPENGL2 v currentFrame player st Hframe)).
Qed.

(** C9.  Every [draw] call of the annotation passes of a frame sees the
    shape with alpha equal to its stored alpha multiplied by the alpha
    multiplier of the annotation being drawn; and when the passes are
    done, every shape's stored colour, alpha included, is what it was
    before.  This holds for [_drawAnnotations] and, in a build with
    [USE_OPENGL2], for [_drawAnnotationsGL2] after it, also when
    annotations share shapes. *)
Theorem alpha_attenuation_is_transient (USE_OPENGL2 : bool) (v : View)
    (bufferReady showAnnotations : bool) (player : TimelinePlayer) (st : DrawState) :
  let currentFrame := currentTime player in
  let annotations := getAnnotations player (ghostPrevious v) (ghostNext v) in
  let st' := draw_annotations USE_OPENGL2 v bufferReady showAnnotations (Some player) st in
  (forall q : nat, color <$> heap st' !! q = color <$> heap st !! q) /\
  (exists new,
     out st' = out st ++ new /\
     Forall (attenuated v currentFrame annotations (heap st)) new) /\
  draw_annotations USE_OPENGL2 v bufferReady showAnnotations None st = st.
Proof.
  intros currentFrame annotations st'.
  set (h0 := heap st). set (good := attenuated v currentFrame annotations h0).
  set (st1 := if bufferReady && showAnnotations
              then _drawAnnotations USE_OPENGL2 v (Some player) st else st).
  assert (S1 : exists d, stepsTo good h0 st st1 d).
  { unfold st1. destruct (bufferReady && showAnnotations).
    - eexists. exact (drawAnnotations_steps USE_OPENGL2 v currentFrame player st eq_refl).
    - eexists. apply stepsTo_refl, same_frozen_refl. }
  destruct S1 as [d1 S1].
  assert (S2 : exists d, stepsTo good h0 st1 st' d).
  { unfold st', draw_annotations. fold st1. destruct (USE_OPENGL2 && showAnnotations).
    - eexists. eapply stepsTo_rebase; [|apply S1].
      exact (drawAnnotationsGL2_steps v currentFrame player st1 eq_refl).
    - eexists. apply stepsTo_refl. apply S1. }
  destruct S2 as [d2 S2].
  destruct (stepsTo_trans _ _ _ _ _ _ _ S1 S2) as (Hsf & new & E & _ & G).
  split; [intros q; apply same_frozen_color; exact Hsf|].
  split; [exists new; auto|].
  unfold draw_annotations.
  destruct (bufferReady && showAnnotations), (USE_OPENGL2 && showAnnotations); reflexivity.
Qed.

End PassTheorems.

Lemma shapes_drawn_in_reverse_order_witness :
  let v := Sample.view 5 0 in
  let st0 := Sample.drawState0 in
  F32.eqb (Viewport.alphaMult v 12 Sample.annotation10) F32.zero = false /\
  (forall p, In p (Viewport.shapes Sample.annotation10) ->
             is_Some (Viewport.heap st0 !! p)) /\
  Viewport.drawnShapes (Viewport.out (Viewport.drawAnnotation false v 12 st0 Sample.annotation10))
    = Viewport.drawnShapes (Viewport.out st0) ++ rev (Viewport.shapes Sample.annotation10).
Proof.
  assert (Hvis : F32.eqb (Viewport.alphaMult (Sample.view 5 0) 12 Sample.annotation10) F32.zero
                 = false) by (vm_compute; reflexivity).
  assert (Hall : forall p, In p (Viewport.shapes Sample.annotation10) ->
                           is_Some (Viewport.heap Sample.drawState0 !! p)).
  { intros p [<-|[<-|[<-|[]]]]; vm_compute; eauto. }
  split; [exact Hvis|]. split; [exact Hall|].
  exact (proj1 (shapes_drawn_in_reverse_order false (Sample.view 5 0) 12
                  Sample.annotation10 Sample.drawState0 Hvis Hall)).
Defined.

(** C8 as worded.  In a build with [USE_OPENGL2], an annotation of the
    current frame that holds a stroke and then a GL2 text is not drawn in
    reverse of its stored order: [_drawAnnotations] draws the stroke alone,
    and [_drawAnnotationsGL2], at the end of [draw], draws the text after
    it.  The last-added shape is drawn last. *)
Lemma reverse_order_counterexample :
  let v := Sample.view 0 0 in
  let annotation := Inputs.strokeThenText in
  let player := Viewport.mkTimelinePlayer 12 (fun _ _ => [annotation]) in
  let st := Viewport.mkDrawState Inputs.gl2Heap [] [] in
  F32.eqb (Viewport.alphaMult v 12 annotation) F32.zero = false /\
  Viewport.shapes annotation = [1; 2]%nat /\
  Viewport.drawnShapes (Viewport.out (Viewport._drawAnnotations true v (Some player) st))
    = [1]%nat /\
  Viewport.drawnShapes
    (Viewport.out (Viewport.draw_annotations true v true true (Some player) st))
    = [1; 2]%nat /\
  Viewport.drawnShapes (Viewport.out (Viewport._drawAnnotations true v (Some player) st))
    <> rev (Viewport.shapes annotation) /\
  Viewport.drawnShapes
    (Viewport.out (Viewport.draw_annotations true v true true (Some player) st))
    <> rev (Viewport.shapes annotation).
Proof.
  cbv zeta. split; [vm_compute; reflexivity|]. split; [reflexivity|].
  split; [vm_compute; reflexivity|]. split; [vm_compute; reflexivity|].
  split; vm_compute; discriminate.
Qed.

(** The sample annotation at frame 12, ghost window 5: its three shapes
    are drawn 3, 2, 1, with alpha 0.6 times the stored alpha, and the heap
    keeps the stored alphas. *)
Lemma sample_annotation_drawn :
  let st' := Viewport.drawAnnotation false (Sample.view 5 0) 12 Sample.drawState0
                                     Sample.annotation10 in
  Viewport.drawnShapes (Viewport.out st') = [3; 2; 1]%nat /\
  (a ∘ Viewport.color <$> Viewport.heap st' !! 2%nat) = Some (F32.of_Z 2).
Proof. split; vm_compute; reflexivity. Qed.

(* ================================================================== *)
(** * Facts about binary32 rounding *)
(* ================================================================== *)

Section Binary32.

Import Binary32.

Lemma digits2_pos_bounds (p : positive) :
  2 ^ (Z.pos (digits2_pos p) - 1) <= Z.pos p < 2 ^ Z.pos (digits2_pos p).
Proof.
  induction p as [p IH|p IH|]; cbn [digits2_pos].
  - rewrite Pos2Z.inj_succ. replace (Z.succ (Z.pos (digits2_pos p)) - 1)
      with (Z.pos (digits2_pos p) - 1 + 1) by lia.
    rewrite Z.pow_succ_r by lia. rewrite Z.pow_add_r by lia.
    change (2 ^ 1) with 2. lia.
  - rewrite Pos2Z.inj_succ. replace (Z.succ (Z.pos (digits2_pos p)) - 1)
      with (Z.pos (digits2_pos p) - 1 + 1) by lia.
    rewrite Z.pow_succ_r by lia. rewrite Z.pow_add_r by lia.
    change (2 ^ 1) with 2. lia.
  - cbn. lia.
Qed.

Lemma digits2_pos_unique (p : positive) (d : Z) :
  2 ^ (d - 1) <= Z.pos p < 2 ^ d -> 0 < d -> Z.pos (digits2_pos p) = d.
Proof.
  intros [Hlo Hhi] Hd. pose proof (digits2_pos_bounds p) as [Blo Bhi].
  destruct (Z.lt_trichotomy (Z.pos (digits2_pos p)) d) as [Hlt|[Heq|Hgt]];
    [|assumption|].
  - assert (2 ^ Z.pos (digits2_pos p) <= 2 ^ (d - 1)) by (apply Z.pow_le_mono_r; lia). lia.
  - assert (2 ^ d <= 2 ^ (Z.pos (digits2_pos p) - 1)) by (apply Z.pow_le_mono_r; lia). lia.
Qed.

Lemma digits_24 (p : positive) :
  8388608 <= Z.pos p < 16777216 <-> digits2_pos p = 24%positive.
Proof.
  split.
  - intros H. apply Pos2Z.inj. apply digits2_pos_unique; [|lia]. exact H.
  - intros H. pose proof (digits2_pos_bounds p) as B. rewrite H in B. exact B.
Qed.

Lemma digits_25 (p : positive) :
  16777216 <= Z.pos p < 33554432 -> digits2_pos p = 25%positive.
Proof. intros H. apply Pos2Z.inj. apply digits2_pos_unique; [|lia]. exact H. Qed.

Lemma fexp_normal (x : Z) : -125 <= x -> fexp 24 128 x = x - 24.
Proof. unfold fexp, emin. lia. Qed.

Lemma shr_m_of_loc (m : Z) (l : location) : shr_m (shr_record_of_loc m l) = m.
Proof. destruct l as [|[]]; reflexivity. Qed.

Lemma loc_of_record_of_loc (m : Z) (l : location) :
  loc_of_shr_record (shr_record_of_loc m l) = l.
Proof. destruct l as [|[]]; reflexivity. Qed.

Lemma round_nearest_even_bounds (m : Z) (l : location) :
  m <= round_nearest_even m l <= m + 1.
Proof. destruct l as [|[]]; cbn; try destruct (Z.even m); lia. Qed.

(** With the round bit clear, rounding to nearest keeps the mantissa. *)
Lemma round_nearest_even_low (m : Z) (s : bool) :
  round_nearest_even m (loc_of_shr_record (Build_shr_record m false s)) = m.
Proof. destruct s; reflexivity. Qed.

Lemma shr_fexp_24 (p : positive) (e : Z) (l : location) :
  digits2_pos p = 24%positive -> -149 <= e ->
  shr_fexp 24 128 (Z.pos p) e l = (shr_record_of_loc (Z.pos p) l, e).
Proof.
  intros Hd He. unfold shr_fexp. cbn [Zdigits2]. rewrite Hd, fexp_normal by lia.
  replace (24 + e - 24 - e) with 0 by lia. reflexivity.
Qed.

Lemma shr_fexp_25 (p : positive) (e : Z) (l : location) :
  digits2_pos p = 25%positive -> -149 <= e ->
  shr_fexp 24 128 (Z.pos p) e l = (shr_1 (shr_record_of_loc (Z.pos p) l), e + 1).
Proof.
  intros Hd He. unfold shr_fexp. cbn [Zdigits2]. rewrite Hd, fexp_normal by lia.
  replace (25 + e - 24 - e) with 1 by lia. reflexivity.
Qed.

Lemma binary_round_aux_finish (s : bool) (m e : Z) (l : location) :
  binary_round_aux 24 128 s m e l =
    finish s (round_nearest_even (shr_m (fst (shr_fexp 24 128 m e l)))
                                 (loc_of_shr_record (fst (shr_fexp 24 128 m e l))))
             (snd (shr_fexp 24 128 m e l)).
Proof.
  unfold binary_round_aux, finish. destruct (shr_fexp 24 128 m e l) as [mrs e'].
  reflexivity.
Qed.

Lemma finish_normal (m e : Z) :
  8388608 <= m <= 16777216 -> -149 <= e <= 100 ->
  exists mq eq,
    finish false m e = S754_finite false mq eq /\ digits2_pos mq = 24%positive /\
    (m < 16777216 -> eq = e) /\ e <= eq <= e + 1.
Proof.
  intros Hm He. destruct m as [|p|p]; try lia.
  destruct (Z.eq_dec (Z.pos p) 16777216) as [E|NE].
  - injection E as ->. unfold finish. rewrite shr_fexp_25 by (reflexivity || lia).
    cbn [shr_record_of_loc shr_1 shr_m].
    replace (e + 1 <=? 128 - 24) with true by lia.
    exists 8388608%positive, (e + 1). repeat split; try reflexivity; lia.
  - assert (Hd : digits2_pos p = 24%positive) by (apply digits_24; lia).
    unfold finish. rewrite shr_fexp_24 by (assumption || lia).
    cbn [shr_record_of_loc shr_m].
    replace (e <=? 128 - 24) with true by lia.
    exists p, e. repeat split; try assumption; lia.
Qed.

End Binary32.

Section Binary32Div.

Import Binary32.

(** The quotient of two normalised binary32 numbers, the dividend the
    smaller, rounds to a number below 1: a 24-bit mantissa at an exponent of
    -24 or less. *)
Lemma div_below_one (m1 m2 : positive) (e1 e2 : Z) :
  digits2_pos m1 = 24%positive -> digits2_pos m2 = 24%positive ->
  -15 <= e1 - e2 <= 0 ->
  (e1 - e2 < 0 \/ Z.pos m1 < Z.pos m2) ->
  exists mq eq,
    SFdiv 24 128 (S754_finite false m1 e1) (S754_finite false m2 e2)
      = S754_finite false mq eq /\
    digits2_pos mq = 24%positive /\ -40 <= eq <= -24.
Proof.
  intros H1 H2 Hd Hlt.
  pose proof (proj2 (digits_24 m1) H1) as B1.
  pose proof (proj2 (digits_24 m2) H2) as B2.
  cbn [SFdiv xorb]. unfold SFdiv_core_binary. cbn [Zdigits2]. rewrite H1, H2.
  replace (Z.min (fexp 24 128 (24 + e1 - (24 + e2))) (e1 - e2)) with (e1 - e2 - 24)
    by (unfold fexp, emin; lia).
  replace (e1 - e2 - (e1 - e2 - 24)) with 24 by lia.
  rewrite Z.shiftl_mul_pow2 by lia. change (2 ^ 24) with 16777216.
  pose proof (Z_div_mod (Z.pos m1 * 16777216) (Z.pos m2) ltac:(lia)) as Hdm.
  destruct (Z.div_eucl (Z.pos m1 * 16777216) (Z.pos m2)) as [q r].
  destruct Hdm as [Hq Hr].
  assert (Bq : 8388608 <= q < 33554432) by nia.
  assert (Bq2 : q <= 33554430) by nia.
  assert (Bq0 : e1 - e2 = 0 -> q <= 16777214) by (intros; nia).
  destruct q as [|pq|pq]; try lia.
  set (l := new_location (Z.pos m2) r). clearbody l.
  rewrite binary_round_aux_finish.
  destruct (Z_lt_le_dec (Z.pos pq) 16777216) as [Hsmall|Hbig].
  - (* a 24-bit quotient: no shift before rounding *)
    rewrite shr_fexp_24 by (apply digits_24 || idtac; lia).
    cbn [fst snd]. rewrite shr_m_of_loc, loc_of_record_of_loc.
    pose proof (round_nearest_even_bounds (Z.pos pq) l) as Br.
    destruct (finish_normal (round_nearest_even (Z.pos pq) l) (e1 - e2 - 24))
      as (mq & eq & E & Hdq & Heq & Hrange); [lia|lia|].
    exists mq, eq. split; [exact E|]. split; [exact Hdq|].
    destruct (Z.eq_dec (e1 - e2) 0) as [Hz|Hnz].
    + specialize (Bq0 Hz). rewrite Heq by lia. lia.
    + lia.
  - (* a 25-bit quotient: one bit is shifted out before rounding *)
    assert (Hneg : e1 - e2 < 0) by (destruct Hlt; [assumption|nia]).
    rewrite shr_fexp_25 by (apply digits_25 || idtac; lia).
    cbn [fst snd].
    destruct pq as [p|p|]; try lia.
    + (* odd quotient *)
      assert (Bp : 8388608 <= Z.pos p <= 16777214) by lia.
      assert (Hrec : exists s, shr_1 (shr_record_of_loc (Z.pos p~1) l)
                               = Build_shr_record (Z.pos p) true s)
        by (destruct l as [|[]]; cbn; eauto).
      destruct Hrec as [s ->]. cbn [shr_m].
      pose proof (round_nearest_even_bounds (Z.pos p)
                    (loc_of_shr_record (Build_shr_record (Z.pos p) true s))) as Br.
      destruct (finish_normal
                  (round_nearest_even (Z.pos p)
                     (loc_of_shr_record (Build_shr_record (Z.pos p) true s)))
                  (e1 - e2 - 24 + 1))
        as (mq & eq & E & Hdq & Heq & Hrange); [lia|lia|].
      exists mq, eq. split; [exact E|]. split; [exact Hdq|].
      rewrite Heq by lia. lia.
    + (* even quotient: the round bit is clear *)
      assert (Bp : 8388608 <= Z.pos p <= 16777215) by lia.
      assert (Hrec : exists s, shr_1 (shr_record_of_loc (Z.pos p~0) l)
                               = Build_shr_record (Z.pos p) false s)
        by (destruct l as [|[]]; cbn; eauto).
      destruct Hrec as [s ->]. cbn [shr_m]. rewrite round_nearest_even_low.
      destruct (finish_normal (Z.pos p) (e1 - e2 - 24 + 1))
        as (mq & eq & E & Hdq & Heq & Hrange); [lia|lia|].
      exists mq, eq. split; [exact E|]. split; [exact Hdq|].
      rewrite Heq by lia. lia.
Qed.

End Binary32Div.

Section Binary32Sub.

Import Binary32.

Lemma shr_1_half (r : shr_record) : 0 <= shr_m r -> shr_m (shr_1 r) = shr_m r / 2.
Proof.
  destruct r as [m rb sb]. cbn [shr_m]. intros Hm.
  destruct m as [|[p|p|]|p]; cbn [shr_1 shr_m]; try lia; try reflexivity.
  - rewrite Pos2Z.inj_xI. zmod.
  - rewrite Pos2Z.inj_xO. zmod.
Qed.

Lemma pow2_xO (n : positive) : 2 ^ Z.pos n~0 = 2 ^ Z.pos n * 2 ^ Z.pos n.
Proof. rewrite <- Z.pow_add_r by lia. rewrite Pos2Z.inj_xO. apply f_equal. lia. Qed.

Lemma pow2_xI (n : positive) : 2 ^ Z.pos n~1 = 2 * (2 ^ Z.pos n * 2 ^ Z.pos n).
Proof.
  rewrite <- Z.pow_add_r, <- Z.pow_succ_r by lia. rewrite Pos2Z.inj_xI. apply f_equal. lia.
Qed.

(** Shifting a mantissa right by [n] bits divides it by 2^n. *)
Lemma iter_shr_1 (n : positive) :
  forall r, 0 <= shr_m r -> shr_m (SpecFloat.iter_pos shr_1 n r) = shr_m r / 2 ^ Z.pos n.
Proof.
  induction n as [n IH|n IH|]; intros r Hr; cbn [SpecFloat.iter_pos].
  - assert (H1 : 0 <= shr_m (shr_1 r)) by (rewrite shr_1_half by lia; zmod).
    assert (H2 : 0 <= shr_m (SpecFloat.iter_pos shr_1 n (shr_1 r)))
      by (rewrite IH by lia; apply Z.div_pos; lia).
    rewrite IH, IH, shr_1_half by lia.
    rewrite !Z.div_div by lia. rewrite pow2_xI. reflexivity.
  - assert (H2 : 0 <= shr_m (SpecFloat.iter_pos shr_1 n r))
      by (rewrite IH by lia; apply Z.div_pos; lia).
    rewrite IH, IH by lia.
    rewrite !Z.div_div by lia. rewrite pow2_xO. reflexivity.
  - rewrite shr_1_half by lia. reflexivity.
Qed.

(** Above the underflow threshold, the shift to the format's exponent
    leaves a positive mantissa. *)
Lemma shr_fexp_positive (p : positive) (e : Z) (l : location) :
  -149 <= e ->
  0 < shr_m (fst (shr_fexp 24 128 (Z.pos p) e l)) /\
  -149 <= snd (shr_fexp 24 128 (Z.pos p) e l).
Proof.
  intros He. unfold shr_fexp, shr. cbn [Zdigits2].
  pose proof (digits2_pos_bounds p) as [Blo Bhi].
  set (d := Z.pos (digits2_pos p)) in *.
  destruct (fexp 24 128 (d + e) - e) as [|n|n] eqn:En; cbn [fst snd];
    rewrite ?shr_m_of_loc; try lia.
  rewrite iter_shr_1 by (rewrite shr_m_of_loc; lia). rewrite shr_m_of_loc.
  assert (Hn : Z.pos n = d - 24) by (unfold fexp, emin in En; lia).
  split; [|lia].
  apply Z.div_str_pos. split; [lia|].
  rewrite Hn. etransitivity; [|exact Blo]. apply Z.pow_le_mono_r; lia.
Qed.

Lemma binary_round_aux_not_zero (s : bool) (p : positive) (e : Z) (l : location) :
  -149 <= e -> is_zero (binary_round_aux 24 128 s (Z.pos p) e l) = false.
Proof.
  intros He. rewrite binary_round_aux_finish.
  destruct (shr_fexp_positive p e l He) as [Hm He'].
  set (mrs := fst (shr_fexp 24 128 (Z.pos p) e l)) in *.
  set (e' := snd (shr_fexp 24 128 (Z.pos p) e l)) in *.
  pose proof (round_nearest_even_bounds (shr_m mrs) (loc_of_shr_record mrs)) as Br.
  destruct (round_nearest_even (shr_m mrs) (loc_of_shr_record mrs)) as [|p2|p2]; try lia.
  unfold finish.
  destruct (shr_fexp_positive p2 e' loc_Exact He') as [Hm2 _].
  destruct (shr_fexp 24 128 (Z.pos p2) e' loc_Exact) as [mrs2 e2]. cbn [fst] in Hm2.
  destruct (shr_m mrs2) as [|p3|p3]; try lia.
  destruct (e2 <=? 128 - 24); reflexivity.
Qed.

Lemma binary_round_not_zero (s : bool) (p : positive) (e : Z) :
  -149 <= e -> is_zero (binary_round 24 128 s p e) = false.
Proof.
  intros He. unfold binary_round.
  destruct (shl_align p e (fexp 24 128 (Z.pos (digits2_pos p) + e))) as [mz ez] eqn:E.
  apply binary_round_aux_not_zero.
  unfold shl_align in E.
  destruct (fexp 24 128 (Z.pos (digits2_pos p) + e) - e) eqn:En;
    injection E as <- <-; try lia.
  unfold fexp, emin. lia.
Qed.

Lemma iter_xO (d : positive) (p : positive) :
  Z.pos (Pos.iter xO p d) = Z.pos p * 2 ^ Z.pos d.
Proof.
  revert p. induction d as [|d IH] using Pos.peano_ind; intros p.
  - cbn. lia.
  - rewrite Pos.iter_succ, Pos2Z.inj_xO, IH, Pos2Z.inj_succ, Z.pow_succ_r by lia. lia.
Qed.

(** 1 minus a normalised number below 1 is not zero. *)
Lemma one_minus_below_one (mq : positive) (eq : Z) :
  digits2_pos mq = 24%positive -> -40 <= eq <= -24 ->
  SFeqb (SFsub 24 128 (S754_finite false 8388608 (-23)) (S754_finite false mq eq))
        (S754_zero false) = false.
Proof.
  intros Hd He.
  pose proof (proj2 (digits_24 mq) Hd) as B.
  assert (Hz : is_zero (SFsub 24 128 (S754_finite false 8388608 (-23))
                              (S754_finite false mq eq)) = false).
  { cbn [SFsub cond_Zopp]. replace (Z.min (-23) eq) with eq by lia.
    unfold shl_align at 2. rewrite Z.sub_diag. cbn [fst].
    unfold shl_align.
    destruct (eq - -23) as [|d|d] eqn:Ed; try lia. cbn [fst].
    rewrite iter_xO.
    assert (H2 : 2 <= 2 ^ Z.pos d).
    { change 2 with (2 ^ 1) at 1. apply Z.pow_le_mono_r; lia. }
    destruct (8388608 * 2 ^ Z.pos d - Z.pos mq) as [|pD|pD] eqn:ED; try lia.
    cbn [binary_normalize]. apply binary_round_not_zero. lia. }
  destruct (SFsub 24 128 _ _) as [s|s| |s m e]; try discriminate Hz;
    try destruct s; reflexivity.
Qed.

End Binary32Sub.

Section Binary32Ghost.

Import Binary32 Viewport.

Lemma all_from_spec (f : Z -> bool) (n : nat) :
  forall i, all_from f i n = true -> forall j, i <= j < i + Z.of_nat n -> f j = true.
Proof.
  induction n as [|n IH]; intros i Hall j Hj; [lia|].
  cbn [all_from] in Hall. apply andb_true_iff in Hall as [Hi Hrest].
  destruct (Z.eq_dec j i) as [->|Hne]; [exact Hi|].
  apply (IH (i + 1) Hrest). lia.
Qed.

(** Every value of a positive [short] converts exactly (checked on all
    32767 of them). *)
Lemma shorts_convert_exactly :
  all_from converts_exactly 1 (Z.to_nat 32767) = true.
Proof. vm_compute. reflexivity. Qed.

Lemma short_converts (i : Z) :
  1 <= i <= 32767 ->
  exists m e,
    F32.of_Z i = S754_finite false m e /\ digits2_pos m = 24%positive /\
    -23 <= e <= -9 /\ Z.pos m = i * 2 ^ (- e).
Proof.
  intros Hi.
  pose proof (all_from_spec _ _ _ shorts_convert_exactly i ltac:(lia)) as Hok.
  unfold converts_exactly in Hok.
  destruct (F32.of_Z i) as [| | |[] m e]; try discriminate Hok.
  apply andb_true_iff in Hok as [Hok H4]. apply andb_true_iff in Hok as [Hok H3].
  apply andb_true_iff in Hok as [H1 H2].
  exists m, e. split; [reflexivity|]. split; [apply Pos.eqb_eq; exact H1|].
  split; lia.
Qed.

(** The ghost alpha of a frame strictly inside the window is not zero. *)
Lemma ghostAlpha_not_zero (i ghost : Z) :
  1 <= i < ghost -> ghost <= 32767 ->
  F32.eqb (ghostAlpha i ghost) F32.zero = false.
Proof.
  intros Hi Hg.
  destruct (short_converts i ltac:(lia)) as (m1 & e1 & E1 & D1 & R1 & V1).
  destruct (short_converts ghost ltac:(lia)) as (m2 & e2 & E2 & D2 & R2 & V2).
  pose proof (proj2 (digits_24 m1) D1) as B1.
  pose proof (proj2 (digits_24 m2) D2) as B2.
  assert (Hord : e1 - e2 < 0 \/ (e1 = e2 /\ Z.pos m1 < Z.pos m2)).
  { destruct (Z.lt_trichotomy e1 e2) as [Hlt|[Heq|Hgt]]; [left; lia| |].
    - right. split; [assumption|]. subst e2. rewrite V1, V2.
      assert (0 < 2 ^ (- e1)) by (apply Z.pow_pos_nonneg; lia). nia.
    - exfalso.
      replace (- e2) with ((- e1) + (e1 - e2)) in V2 by lia.
      rewrite Z.pow_add_r in V2 by lia.
      assert (0 < 2 ^ (- e1)) by (apply Z.pow_pos_nonneg; lia).
      assert (2 <= 2 ^ (e1 - e2)).
      { change 2 with (2 ^ 1) at 1. apply Z.pow_le_mono_r; lia. }
      set (P := 2 ^ (- e1)) in *. set (Q := 2 ^ (e1 - e2)) in *.
      assert (Z.pos m1 < ghost * P) by nia.
      assert (ghost * P * 2 <= ghost * P * Q) by (apply Z.mul_le_mono_nonneg_l; nia).
      lia. }
  destruct (div_below_one m1 m2 e1 e2 D1 D2 ltac:(lia) ltac:(lia))
    as (mq & eq & E & Dq & Rq).
  unfold ghostAlpha, F32.eqb, F32.sub, F32.div, F32.zero, F32.prec, F32.emax.
  rewrite E1, E2, E.
  change F32.one with (S754_finite false 8388608 (-23)).
  apply one_minus_below_one; assumption.
Qed.

End Binary32Ghost.

(* ================================================================== *)
(** * Further facts about binary32: integers and order *)
(* ================================================================== *)

(** Case analysis of a comparison of floats down to comparisons of
    exponents and mantissas. *)
Ltac order_cases :=
  unfold F32.ltb, SFltb, SFleb, SFcompare;
  repeat match goal with x : float |- _ => destruct x as [[]|[]| |[] ? ?] end;
  try discriminate; try reflexivity;
  repeat match goal with
         | |- context [Z.compare ?a ?b] => destruct (Z.compare_spec a b)
         end; try discriminate; try reflexivity; try lia; subst;
  rewrite ?Pos.compare_cont_spec; cbn [Pos.switch_Eq];
  repeat match goal with
         | |- context [Pos.compare ?a ?b] => destruct (Pos.compare_spec a b)
         end; cbn; try discriminate; try reflexivity; try lia.


Section Binary32Integers.
Import Binary32.

Lemma binary_round_aux_24 (s : bool) (p : positive) (e : Z) :
  digits2_pos p = 24%positive -> -149 <= e <= 104 ->
  binary_round_aux 24 128 s (Z.pos p) e loc_Exact = S754_finite s p e.
Proof.
  intros Hd He. unfold binary_round_aux.
  rewrite shr_fexp_24 by (assumption || lia).
  cbn [shr_record_of_loc shr_m loc_of_shr_record round_nearest_even].
  rewrite shr_fexp_24 by (assumption || lia).
  cbn [shr_record_of_loc shr_m].
  replace (e <=? 128 - 24) with true by lia. reflexivity.
Qed.

Lemma of_pos_exact (s : bool) (p : positive) :
  Z.pos p < 16777216 ->
  exists m e,
    binary_round 24 128 s p 0 = S754_finite s m e /\
    -23 <= e <= 0 /\ Z.pos m = Z.pos p * 2 ^ (- e).
Proof.
  intros Hp. pose proof (digits2_pos_bounds p) as [Blo Bhi].
  set (d := Z.pos (digits2_pos p)) in *.
  assert (Hd : 1 <= d <= 24).
  { split; [subst d; lia|].
    destruct (Z_le_gt_dec d 24) as [|Hgt]; [assumption|].
    assert (2 ^ 24 <= 2 ^ (d - 1)) by (apply Z.pow_le_mono_r; lia).
    change (2 ^ 24) with 16777216 in *. lia. }
  unfold binary_round. rewrite Z.add_0_r. fold d.
  unfold fexp, emin. replace (Z.max (d - 24) (3 - 128 - 24)) with (d - 24) by lia.
  unfold shl_align. rewrite Z.sub_0_r.
  destruct (Z.eq_dec d 24) as [E|NE].
  - rewrite E. change (24 - 24) with 0. cbv iota beta.
    rewrite binary_round_aux_24; [|apply Pos2Z.inj; exact E|lia].
    exists p, 0. repeat split; try lia.
  - destruct (d - 24) as [|q|q] eqn:Eq; try lia.
    assert (Hm : Z.pos (Pos.iter xO p q) = Z.pos p * 2 ^ Z.pos q) by apply iter_xO.
    assert (Hq : Z.pos q = 24 - d) by lia.
    assert (Hd24 : digits2_pos (Pos.iter xO p q) = 24%positive).
    { apply Pos2Z.inj. apply digits2_pos_unique; [|lia].
      rewrite Hm, Hq. change (24 - 1) with 23.
      assert (E23 : 2 ^ 23 = 2 ^ (d - 1) * 2 ^ (24 - d)).
      { rewrite <- Z.pow_add_r by lia. f_equal. lia. }
      assert (E24 : 2 ^ 24 = 2 ^ d * 2 ^ (24 - d)).
      { rewrite <- Z.pow_add_r by lia. f_equal. lia. }
      assert (0 < 2 ^ (24 - d)) by (apply Z.pow_pos_nonneg; lia).
      rewrite E23, E24.
      split; [apply Z.mul_le_mono_nonneg_r; lia|apply Z.mul_lt_mono_pos_r; lia]. }
    rewrite binary_round_aux_24; [|exact Hd24|lia].
    exists (Pos.iter xO p q), (Z.neg q). repeat split; try lia.
    rewrite Hm. reflexivity.
Qed.

Lemma to_int_of_Z (z : Z) : -16777216 < z < 16777216 -> F32.to_int (F32.of_Z z) = z.
Proof.
  intros Hz. unfold F32.of_Z, binary_normalize, F32.prec, F32.emax. destruct z as [|p|p].
  - reflexivity.
  - destruct (of_pos_exact false p) as (m & e & -> & He & Hm); [lia|].
    unfold F32.to_int. destruct (Z.eq_dec e 0) as [->|NE].
    + cbn. change (2 ^ (- 0)) with 1 in Hm. lia.
    + replace (0 <=? e) with false by lia. rewrite Hm.
      apply Z.div_mul. apply Z.pow_nonzero; lia.
  - destruct (of_pos_exact true p) as (m & e & -> & He & Hm); [lia|].
    unfold F32.to_int. destruct (Z.eq_dec e 0) as [->|NE].
    + cbn. change (2 ^ (- 0)) with 1 in Hm. lia.
    + replace (0 <=? e) with false by lia. rewrite Hm.
      rewrite Z.div_mul by (apply Z.pow_nonzero; lia). lia.
Qed.

End Binary32Integers.

Section Binary32Order.

Lemma ltb_irrefl (x : float) : F32.ltb x x = false.
Proof.
  unfold F32.ltb, SFltb, SFcompare.
  destruct x as [s|s| |s m e]; try destruct s; try reflexivity;
    rewrite Z.compare_refl, Pos.compare_cont_refl; reflexivity.
Qed.

Lemma ltb_trans (x y z : float) :
  F32.ltb x y = true -> F32.ltb y z = true -> F32.ltb x z = true.
Proof.
  unfold F32.ltb, SFltb, SFcompare.
  destruct x as [sx|sx| |sx mx ex], y as [sy|sy| |sy my ey], z as [sz|sz| |sz mz ez];
    try destruct sx; try destruct sy; try destruct sz; try discriminate; try reflexivity;
    repeat match goal with
           | |- context [Z.compare ?a ?b] => destruct (Z.compare_spec a b)
           end; try discriminate; try reflexivity; try lia; subst;
    rewrite ?Pos.compare_cont_spec; cbn [Pos.switch_Eq];
    repeat match goal with
           | |- context [Pos.compare ?a ?b] => destruct (Pos.compare_spec a b)
           end; cbn; try discriminate; try reflexivity; try lia.
Qed.

Lemma ltb_asym (x y : float) : F32.ltb x y = true -> F32.ltb y x = false.
Proof.
  intros H. destruct (F32.ltb y x) eqn:E; [|reflexivity].
  pose proof (ltb_trans _ _ _ H E) as T. rewrite ltb_irrefl in T. discriminate.
Qed.

Lemma leb_ltb_trans (x y z : float) :
  SFleb x y = true -> F32.ltb y z = true -> SFleb x z = true.
Proof. order_cases. Qed.

Lemma ltb_leb_trans (x y z : float) :
  F32.ltb x y = true -> SFleb y z = true -> SFleb x z = true.
Proof. order_cases. Qed.

End Binary32Order.

(* ================================================================== *)
(** * Ghosting *)
(* ================================================================== *)

Section Ghost.

Import Viewport.

Lemma ghostScan_miss (frameAt : Z -> Z) (alphaAt : Z -> float) (annotationFrame : Z)
    (counter : list Z) (alphamult : float) :
  (forall i, In i counter -> frameAt i <> annotationFrame) ->
  ghostScan frameAt alphaAt annotationFrame counter alphamult = alphamult.
Proof.
  induction counter as [|j rest IH]; intros Hmiss; [reflexivity|].
  cbn [ghostScan].
  destruct (Z.eqb_spec (frameAt j) annotationFrame) as [E|_].
  - exfalso. exact (Hmiss j (or_introl eq_refl) E).
  - apply IH. intros i Hi. apply Hmiss. right; assumption.
Qed.

Lemma ghostScan_hit (frameAt : Z -> Z) (alphaAt : Z -> float) (annotationFrame : Z)
    (counter : list Z) (alphamult : float) (i : Z) :
  In i counter -> frameAt i = annotationFrame ->
  (forall j, In j counter -> frameAt j = annotationFrame -> j = i) ->
  ghostScan frameAt alphaAt annotationFrame counter alphamult = alphaAt i.
Proof.
  induction counter as [|j rest IH]; intros Hin Hi Huniq; [contradiction|].
  cbn [ghostScan].
  destruct (Z.eqb_spec (frameAt j) annotationFrame) as [E|NE].
  - rewrite (Huniq j (or_introl eq_refl) E). reflexivity.
  - destruct Hin as [->|Hin]; [contradiction|].
    apply IH; [assumption|assumption|].
    intros k Hk. apply Huniq. right; assumption.
Qed.

Lemma to_short_id (z : Z) : -32768 <= z <= 32767 -> to_short z = z.
Proof. intros Hz. unfold to_short. zmod. Qed.

Lemma in_previousCounter (ghost i : Z) :
  -32768 < ghost <= 32767 ->
  In i (previousCounter ghost) <-> 1 <= i <= ghost - 1.
Proof.
  intros Hg. unfold previousCounter. rewrite to_short_id by lia.
  rewrite <- list_elem_of_In, elem_of_reverse, elem_of_seqZ. lia.
Qed.

Lemma in_nextCounter (ghost i : Z) :
  In i (nextCounter ghost) <-> 1 <= i <= ghost - 1.
Proof.
  unfold nextCounter. rewrite <- list_elem_of_In, elem_of_seqZ. lia.
Qed.

Variable v : View.
Variable currentFrame : Z.
Variable annotation : Annotation.
Hypothesis previous_range : -32768 < ghostPrevious v <= 32767.
Hypothesis not_all_frames : allFrames annotation = false.
Hypothesis other_frame : frame annotation <> currentFrame.

Lemma alphaMult_scans :
  alphaMult v currentFrame annotation =
    (let alphamult :=
       if ghostPrevious v =? 0 then F32.zero
       else ghostScan (fun i => currentFrame - i) (fun i => ghostAlpha i (ghostPrevious v))
                      (frame annotation) (previousCounter (ghostPrevious v)) F32.zero in
     if ghostNext v =? 0 then alphamult
     else ghostScan (fun i => currentFrame + i) (fun i => ghostAlpha i (ghostNext v))
                    (frame annotation) (nextCounter (ghostNext v)) alphamult).
Proof.
  unfold alphaMult. rewrite not_all_frames, orb_false_r.
  destruct (Z.eqb_spec currentFrame (frame annotation)) as [E|_]; [congruence|].
  reflexivity.
Qed.

Lemma alphaMult_previous (i : Z) :
  1 <= i <= ghostPrevious v - 1 -> currentFrame - frame annotation = i ->
  alphaMult v currentFrame annotation = ghostAlpha i (ghostPrevious v).
Proof.
  intros Hi Hd. rewrite alphaMult_scans. cbv zeta.
  destruct (Z.eqb_spec (ghostPrevious v) 0) as [E|_]; [lia|].
  rewrite (ghostScan_hit _ _ _ _ _ i);
    [|apply in_previousCounter; lia|lia|intros j _ Hj; lia].
  destruct (ghostNext v =? 0); [reflexivity|].
  apply ghostScan_miss. intros j Hj. apply in_nextCounter in Hj. lia.
Qed.

Lemma alphaMult_next (i : Z) :
  1 <= i <= ghostNext v - 1 -> frame annotation - currentFrame = i ->
  alphaMult v currentFrame annotation = ghostAlpha i (ghostNext v).
Proof.
  intros Hi Hd. rewrite alphaMult_scans. cbv zeta.
  destruct (Z.eqb_spec (ghostNext v) 0) as [E|_]; [lia|].
  apply (ghostScan_hit (fun j => currentFrame + j) (fun j => ghostAlpha j (ghostNext v)));
    [apply in_nextCounter; lia|lia|intros j _ Hj; lia].
Qed.

Lemma alphaMult_outside :
  ~ (1 <= currentFrame - frame annotation <= ghostPrevious v - 1) ->
  ~ (1 <= frame annotation - currentFrame <= ghostNext v - 1) ->
  alphaMult v currentFrame annotation = F32.zero.
Proof.
  intros Hp Hn. rewrite alphaMult_scans. cbv zeta.
  assert (Hprev : (if ghostPrevious v =? 0 then F32.zero
                   else ghostScan (fun i => currentFrame - i)
                          (fun i => ghostAlpha i (ghostPrevious v))
                          (frame annotation) (previousCounter (ghostPrevious v)) F32.zero)
                  = F32.zero).
  { destruct (ghostPrevious v =? 0); [reflexivity|].
    apply ghostScan_miss. intros j Hj. apply in_previousCounter in Hj; lia. }
  rewrite Hprev.
  destruct (ghostNext v =? 0); [reflexivity|].
  apply ghostScan_miss. intros j Hj. apply in_nextCounter in Hj. lia.
Qed.

End Ghost.

Section GhostDraws.

Import Viewport DrawSpec.

Variable USE_OPENGL2 : bool.
Variable v : View.
Variable m : float.

(** One shape in the main pass, drawn with the multiplier [m]. *)
Lemma drawShape_with (h0 : gmap nat Shape) (p : nat) (st : DrawState) :
  same_frozen (heap st) h0 ->
  stepsTo (drawnWith m h0) h0 st (drawShape USE_OPENGL2 v m st p)
          (if drawnByMain USE_OPENGL2 h0 p then [p] else []).
Proof.
  intros Hsf.
  rewrite <- (same_frozen_drawnByMain USE_OPENGL2 (heap st) h0 p Hsf).
  unfold drawShape, drawnByMain.
  destruct (heap st !! p) as [s|] eqn:Es; [|apply stepsTo_refl; assumption].
  destruct (USE_OPENGL2 && is_GL2TextShape s); cbn [negb];
    [apply stepsTo_refl; assumption|].
  destruct (same_frozen_lookup _ _ _ _ Hsf Es) as (s0 & Es0 & Hf).
  split.
  - cbn [heap]. eapply same_frozen_trans; [|exact Hsf].
    eapply same_frozen_insert; [exact Es|].
    unfold frozen, set_color_a, set_matrix, set_a; cbn. destruct (color s); reflexivity.
  - eexists. split; [reflexivity|]. split; [reflexivity|].
    constructor; [|constructor]. cbn.
    exists s0. split; [assumption|].
    unfold frozen in Hf. congruence.
Qed.

(** One shape in the GL2 pass, drawn with the multiplier [m]. *)
Lemma drawShapeGL2_with (h0 : gmap nat Shape) (p : nat) (st : DrawState) :
  same_frozen (heap st) h0 ->
  stepsTo (drawnWith m h0) h0 st (drawShapeGL2 v m st p)
          (if drawnByGL2 h0 p then [p] else []).
Proof.
  intros Hsf.
  rewrite <- (same_frozen_drawnByGL2 (heap st) h0 p Hsf).
  unfold drawShapeGL2, drawnByGL2.
  destruct (heap st !! p) as [s|] eqn:Es; [|apply stepsTo_refl; assumption].
  destruct (is_GL2TextShape s); cbn [negb]; [|apply stepsTo_refl; assumption].
  destruct (same_frozen_lookup _ _ _ _ Hsf Es) as (s0 & Es0 & Hf).
  split.
  - cbn [heap]. eapply same_frozen_trans; [|exact Hsf].
    eapply same_frozen_insert; [exact Es|].
    unfold frozen, set_color_a, set_matrix, set_gl2, set_a; cbn.
    destruct (color s); reflexivity.
  - eexists. split; [reflexivity|]. split; [reflexivity|].
    constructor; [|constructor]. cbn.
    exists s0. split; [assumption|].
    unfold frozen in Hf. congruence.
Qed.

(** An annotation whose multiplier is [m], not 0, in the two passes: the
    calls made are draws of its shapes, each with its stored alpha times
    [m]; the main pass takes the shapes it draws in reverse of their stored
    order, the GL2 pass takes the GL2 text shapes in stored order. *)
Lemma annotation_drawn_with (currentFrame : Z) (annotation : Annotation) (st : DrawState) :
  alphaMult v currentFrame annotation = m ->
  F32.eqb m F32.zero = false ->
  (exists calls,
     out (drawAnnotation USE_OPENGL2 v currentFrame st annotation) = out st ++ calls /\
     drawnShapes calls
       = rev (List.filter (drawnByMain USE_OPENGL2 (heap st)) (shapes annotation)) /\
     Forall (drawnWith m (heap st)) calls) /\
  (exists calls,
     out (drawAnnotationGL2 v currentFrame st annotation) = out st ++ calls /\
     drawnShapes calls = List.filter (drawnByGL2 (heap st)) (shapes annotation) /\
     Forall (drawnWith m (heap st)) calls).
Proof.
  intros Ea Hnz. split.
  - unfold drawAnnotation. rewrite Ea, Hnz. rewrite <- filter_reverse.
    apply (foldl_stepsTo (drawnWith m (heap st)) (heap st) (drawShape USE_OPENGL2 v m)
             (drawnByMain USE_OPENGL2 (heap st)) (reverse (shapes annotation))).
    + intros p _ st' Hsf. apply drawShape_with. assumption.
    + apply same_frozen_refl.
  - unfold drawAnnotationGL2. rewrite Ea, Hnz.
    apply (foldl_stepsTo (drawnWith m (heap st)) (heap st) (drawShapeGL2 v m)
             (drawnByGL2 (heap st)) (shapes annotation)).
    + intros p _ st' Hsf. apply drawShapeGL2_with. assumption.
    + apply same_frozen_refl.
Qed.

End GhostDraws.

Section GhostTheorem.

Import Viewport DrawSpec.

(** C1.  For an annotation that is not on all frames and whose frame is
    not the current one, with ghost counts that are [short] values (and
    [ghostPrevious] above -32768, so that [short i = ghostPrevious - 1]
    does not wrap): if the current frame is [i] frames after the
    annotation's, with [1 <= i <= ghostPrevious - 1], the alpha multiplier
    is [1.F - (float)i / ghostPrevious] in float arithmetic, and the
    annotation is drawn with it: the calls the main pass adds are the draws
    of the shapes it draws, in reverse of their stored order, each with the
    stored alpha of the shape times that multiplier, and those of the GL2
    pass are the draws of the GL2 text shapes with the same alpha.  The
    same holds with [ghostNext] when the current frame is [i] frames before
    the annotation's.  When the distance is in neither window the
    multiplier is 0 and the annotation is skipped: no call is made and the
    state (shape heap, matrix, call log) is unchanged.  At frame 12, an
    annotation of frame 10 with [ghostPrevious = 5] gets 10066330 * 2^-24,
    the float nearest 0.6. *)
Theorem ghost_alpha (USE_OPENGL2 : bool) (v : View) (currentFrame : Z)
    (annotation : Annotation) (st : DrawState) :
  -32768 < ghostPrevious v <= 32767 ->
  -32768 <= ghostNext v <= 32767 ->
  allFrames annotation = false ->
  frame annotation <> currentFrame ->
  let drawnWithAlpha (m : float) :=
    (exists calls,
       out (drawAnnotation USE_OPENGL2 v currentFrame st annotation) = out st ++ calls /\
       drawnShapes calls
         = rev (List.filter (drawnByMain USE_OPENGL2 (heap st)) (shapes annotation)) /\
       Forall (drawnWith m (heap st)) calls) /\
    (exists calls,
       out (drawAnnotationGL2 v currentFrame st annotation) = out st ++ calls /\
       drawnShapes calls = List.filter (drawnByGL2 (heap st)) (shapes annotation) /\
       Forall (drawnWith m (heap st)) calls) in
  (forall i, 1 <= i <= ghostPrevious v - 1 -> currentFrame - frame annotation = i ->
     alphaMult v currentFrame annotation
       = (F32.one - F32.of_Z i / F32.of_Z (ghostPrevious v))%f32 /\
     F32.eqb (F32.one - F32.of_Z i / F32.of_Z (ghostPrevious v))%f32 F32.zero = false /\
     drawnWithAlpha (F32.one - F32.of_Z i / F32.of_Z (ghostPrevious v))%f32) /\
  (forall i, 1 <= i <= ghostNext v - 1 -> frame annotation - currentFrame = i ->
     alphaMult v currentFrame annotation
       = (F32.one - F32.of_Z i / F32.of_Z (ghostNext v))%f32 /\
     F32.eqb (F32.one - F32.of_Z i / F32.of_Z (ghostNext v))%f32 F32.zero = false /\
     drawnWithAlpha (F32.one - F32.of_Z i / F32.of_Z (ghostNext v))%f32) /\
  (~ (1 <= currentFrame - frame annotation <= ghostPrevious v - 1) ->
   ~ (1 <= frame annotation - currentFrame <= ghostNext v - 1) ->
   alphaMult v currentFrame annotation = F32.zero /\
   drawAnnotation USE_OPENGL2 v currentFrame st annotation = st /\
   drawAnnotationGL2 v currentFrame st annotation = st) /\
  (ghostPrevious v = 5 -> frame annotation = 10 -> currentFrame = 12 ->
   alphaMult v currentFrame annotation = S754_finite false 10066330 (-24) /\
   alphaMult v currentFrame annotation = F32.div (F32.of_Z 6) (F32.of_Z 10)).
Proof.
  intros Hp Hn Hall Hother drawnWithAlpha.
  split; [|split; [|split]].
  - intros i Hi Hd.
    pose proof (alphaMult_previous v currentFrame annotation Hp Hall Hother i Hi Hd) as Ea.
    pose proof (ghostAlpha_not_zero i (ghostPrevious v) ltac:(lia) ltac:(lia)) as Hnz.
    unfold ghostAlpha in Ea, Hnz.
    split; [exact Ea|]. split; [exact Hnz|].
    exact (annotation_drawn_with USE_OPENGL2 v _ currentFrame annotation st Ea Hnz).
  - intros i Hi Hd.
    pose proof (alphaMult_next v currentFrame annotation Hall Hother i Hi Hd) as Ea.
    pose proof (ghostAlpha_not_zero i (ghostNext v) ltac:(lia) ltac:(lia)) as Hnz.
    unfold ghostAlpha in Ea, Hnz.
    split; [exact Ea|]. split; [exact Hnz|].
    exact (annotation_drawn_with USE_OPENGL2 v _ currentFrame annotation st Ea Hnz).
  - intros Ho1 Ho2.
    pose proof (alphaMult_outside v currentFrame annotation Hp Hall Hother Ho1 Ho2) as Ea.
    split; [exact Ea|].
    unfold drawAnnotation, drawAnnotationGL2. rewrite Ea. split; reflexivity.
  - intros E5 E10 E12.
    rewrite (alphaMult_previous v currentFrame annotation Hp Hall Hother 2) by lia.
    rewrite E5. split; vm_compute; reflexivity.
Qed.

End GhostTheorem.

Lemma ghost_alpha_witness :
  let v := Sample.view 5 0 in
  let st := Sample.drawState0 in
  let m := (F32.one - F32.of_Z 2 / F32.of_Z 5)%f32 in
  (-32768 < Viewport.ghostPrevious v <= 32767) /\
  (-32768 <= Viewport.ghostNext v <= 32767) /\
  Viewport.allFrames Sample.annotation10 = false /\
  Viewport.frame Sample.annotation10 <> 12 /\
  (1 <= 2 <= Viewport.ghostPrevious v - 1) /\
  12 - Viewport.frame Sample.annotation10 = 2 /\
  Viewport.alphaMult v 12 Sample.annotation10 = m /\
  exists calls,
    Viewport.out (Viewport.drawAnnotation false v 12 st Sample.annotation10)
      = Viewport.out st ++ calls /\
    Viewport.drawnShapes calls
      = rev (List.filter (DrawSpec.drawnByMain false (Viewport.heap st))
                         (Viewport.shapes Sample.annotation10)) /\
    Forall (DrawSpec.drawnWith m (Viewport.heap st)) calls.
Proof.
  cbv zeta.
  assert (H1 : -32768 < Viewport.ghostPrevious (Sample.view 5 0) <= 32767) by (cbn; lia).
  assert (H2 : -32768 <= Viewport.ghostNext (Sample.view 5 0) <= 32767) by (cbn; lia).
  assert (H3 : Viewport.allFrames Sample.annotation10 = false) by reflexivity.
  assert (H4 : Viewport.frame Sample.annotation10 <> 12) by (cbn; lia).
  assert (H5 : 1 <= 2 <= Viewport.ghostPrevious (Sample.view 5 0) - 1) by (cbn; lia).
  assert (H6 : 12 - Viewport.frame Sample.annotation10 = 2) by reflexivity.
  repeat (split; [assumption|]).
  pose proof (proj1 (ghost_alpha false (Sample.view 5 0) 12 Sample.annotation10
                       Sample.drawState0 H1 H2 H3 H4) 2 H5 H6) as (Ea & _ & Hmain & _).
  split; [exact Ea|exact Hmain].
Defined.

(** Outside the window (frame 16, annotation at frame 10, window 5) the
    multiplier is 0 and nothing is drawn. *)
Lemma ghost_alpha_outside_example :
  Viewport.alphaMult (Sample.view 5 0) 16 Sample.annotation10 = F32.zero /\
  Viewport.drawAnnotation false (Sample.view 5 0) 16 Sample.drawState0 Sample.annotation10
    = Sample.drawState0.
Proof. split; vm_compute; reflexivity. Qed.

(* ================================================================== *)
(** * More about the pixel probe *)
(* ================================================================== *)


Section ProbeReflection.
Import PixelProbe ProbeSpec.
Context `{ColorSpaces}.

Lemma probe_reflect (mx my : bool) (size : Size) (pos : Vector2i) :
  probeX mx size pos = probeX false size (reflect mx my size pos) /\
  probeY my size pos = probeY false size (reflect mx my size pos).
Proof. unfold probeX, probeY, reflect. destruct mx, my; cbn; auto. Qed.

(** X1.  A probe with the display mirrored is the probe of the reflected
    position with the mirrors off: column [w - 1 - x] for the x mirror,
    row [h - 1 - y] for the y mirror.  Whatever the mirror flags, the probe
    lies in the image exactly when [0 <= pos.x < w] and [0 <= pos.y < h],
    and reflecting twice gives the position back. *)
Theorem mirrored_probe_is_reflected_probe (mx my : bool) (rgba : Color4f)
    (image : Image) (pos : Vector2i) :
  let size := getSize image in
  _getPixelValue mx my rgba image pos
    = _getPixelValue false false rgba image (reflect mx my size pos) /\
  (inImage size (probeX mx size pos) (probeY my size pos) = true
     <-> 0 <= x pos < w size /\ 0 <= y pos < h size) /\
  reflect mx my size (reflect mx my size pos) = pos.
Proof.
  intros size. split; [|split].
  - unfold _getPixelValue. fold size.
    destruct (probe_reflect mx my size pos) as [-> ->]. reflexivity.
  - rewrite inImage_spec. unfold probeX, probeY. destruct mx, my; cbn; lia.
  - destruct pos as [px py]. unfold reflect. cbn. destruct mx, my; f_equal; lia.
Qed.

End ProbeReflection.

Section ProbeInterleaved.
Import PixelProbe ProbeSpec.
Context `{ColorSpaces}.

Lemma u8_slice (data : list Byte.byte) (o n i : Z) :
  0 <= o -> 0 <= i < n ->
  Mem.u8 (take (Z.to_nat n) (drop (Z.to_nat o) data)) i = Mem.u8 data (o + i).
Proof.
  intros Ho Hi. unfold Mem.u8.
  replace (i <? 0) with false by lia. replace (o + i <? 0) with false by lia.
  rewrite lookup_take_lt by lia. rewrite lookup_drop.
  replace (Z.to_nat o + Z.to_nat i)%nat with (Z.to_nat (o + i)) by lia. reflexivity.
Qed.

Lemma u16_slice (data : list Byte.byte) (o n j : Z) :
  0 <= o -> 0 <= j -> 2 * j + 1 < n ->
  Mem.u16 (take (Z.to_nat n) (drop (Z.to_nat o) data)) 0 j = Mem.u16 data o j.
Proof.
  intros Ho Hj Hn. unfold Mem.u16. rewrite !u8_slice by lia.
  replace (o + (0 + 2 * j)) with (o + 2 * j) by lia.
  replace (o + (0 + 2 * j + 1)) with (o + 2 * j + 1) by lia. reflexivity.
Qed.

Lemma u32_slice (data : list Byte.byte) (o n j : Z) :
  0 <= o -> 0 <= j -> 4 * j + 3 < n ->
  Mem.u32 (take (Z.to_nat n) (drop (Z.to_nat o) data)) 0 j = Mem.u32 data o j.
Proof.
  intros Ho Hj Hn. unfold Mem.u32. rewrite !u8_slice by lia.
  replace (o + (0 + 4 * j)) with (o + 4 * j) by lia.
  replace (o + (0 + 4 * j + 1)) with (o + 4 * j + 1) by lia.
  replace (o + (0 + 4 * j + 2)) with (o + 4 * j + 2) by lia.
  replace (o + (0 + 4 * j + 3)) with (o + 4 * j + 3) by lia. reflexivity.
Qed.

Lemma u16_read (data : list Byte.byte) (o j : Z) :
  0 <= o + 2 * j -> o + 2 * j + 1 < Z.of_nat (length data) ->
  exists v, Mem.u16 data o j = Some v.
Proof.
  intros H0 H1. unfold Mem.u16.
  destruct (u8_read data (o + 2 * j)) as [v0 ->]; [lia|].
  destruct (u8_read data (o + 2 * j + 1)) as [v1 ->]; [lia|].
  cbn. eauto.
Qed.

Lemma u32_read (data : list Byte.byte) (o j : Z) :
  0 <= o + 4 * j -> o + 4 * j + 3 < Z.of_nat (length data) ->
  exists v, Mem.u32 data o j = Some v.
Proof.
  intros H0 H1. unfold Mem.u32.
  destruct (u8_read data (o + 4 * j)) as [v0 ->]; [lia|].
  destruct (u8_read data (o + 4 * j + 1)) as [v1 ->]; [lia|].
  destruct (u8_read data (o + 4 * j + 2)) as [v2 ->]; [lia|].
  destruct (u8_read data (o + 4 * j + 3)) as [v3 ->]; [lia|].
  cbn. eauto.
Qed.

(** The pixel index stays below the pixel count. *)
Lemma pixel_index_bounds (size : Size) (X Y : Z) :
  inImage size X Y = true -> 0 <= Y * w size + X < w size * h size.
Proof. rewrite inImage_spec. intros [HX HY]. nia. Qed.

Ltac depth_consts :=
  change (8 / 8) with 1 in *; change (16 / 8) with 2 in *; change (32 / 8) with 4 in *.

Lemma byteOffset_interleaved (t : PixelType) (size : Size) (X Y : Z) :
  isInterleaved t = true ->
  byteOffset t size X Y = (Y * w size + X) * pixelBytes t /\
  byteOffset t (mkSize 1 1) 0 0 = 0 /\ 0 < pixelBytes t.
Proof.
  intros Ht. unfold byteOffset, pixelBytes.
  destruct t; try discriminate Ht; cbn [getChannelCount getBitDepth w h]; depth_consts; lia.
Qed.

(** X2.  For every interleaved format the switch decodes (L, LA, RGB,
    RGBA in U8, U16, U32 and F16, RGB and RGBA in F32), an in-image probe
    of a buffer of [w * h * channels * depth] bytes reads no byte outside
    it, and what it returns is decided by the bytes of the probed pixel
    alone: it is the probe of the 1 x 1 image made of those bytes. *)
Theorem interleaved_probe_reads_its_own_pixel (mx my : bool) (rgba : Color4f)
    (image : Image) (pos : Vector2i) :
  let t := getPixelType image in
  let size := getSize image in
  let X := probeX mx size pos in
  let Y := probeY my size pos in
  isInterleaved t = true ->
  inImage size X Y = true ->
  w size * h size * pixelBytes t <= Z.of_nat (length (getData image)) ->
  exists c,
    _getPixelValue mx my rgba image pos = Some c /\
    _getPixelValue false false rgba (pixelImage image (Y * w size + X)) (mkVector2i 0 0)
      = Some c.
Proof.
  intros t size X Y Ht Hin Hlen.
  pose proof (pixel_index_bounds size X Y Hin) as Hk.
  destruct (byteOffset_interleaved t size X Y Ht) as (Hoff & Hoff0 & Hpos).
  unfold _getPixelValue.
  change (getSize (pixelImage image (Y * w size + X))) with (mkSize 1 1).
  change (getPixelType (pixelImage image (Y * w size + X))) with t.
  change (videoLevels (getInfo (pixelImage image (Y * w size + X))))
    with (videoLevels (getInfo image)).
  change (yuvCoefficients (getInfo (pixelImage image (Y * w size + X))))
    with (yuvCoefficients (getInfo image)).
  fold t size X Y. rewrite Hin.
  change (inImage (mkSize 1 1) (probeX false (mkSize 1 1) (mkVector2i 0 0))
                  (probeY false (mkSize 1 1) (mkVector2i 0 0))) with true.
  cbn [negb].
  change (probeX false (mkSize 1 1) (mkVector2i 0 0)) with 0.
  change (probeY false (mkSize 1 1) (mkVector2i 0 0)) with 0.
  unfold pixelImage. cbn [getData]. fold (getPixelType image). fold t.
  rewrite Hoff, Hoff0.
  set (data := getData image) in *.
  set (n := pixelBytes t) in *.
  set (o := (Y * w size + X) * n) in *.
  assert (Hn : 0 <= o /\ o + n <= Z.of_nat (length data)) by (subst o; nia).
  destruct Hn as (Ho & Hend).
  set (slice := take (Z.to_nat n) (drop (Z.to_nat o) data)).
  assert (S8 : forall i, 0 <= i < n -> Mem.u8 slice i = Mem.u8 data (o + i))
    by (intros; apply u8_slice; lia).
  assert (S16 : forall j, 0 <= j -> 2 * j + 1 < n -> Mem.u16 slice 0 j = Mem.u16 data o j)
    by (intros; apply u16_slice; lia).
  assert (S32 : forall j, 0 <= j -> 4 * j + 3 < n -> Mem.u32 slice 0 j = Mem.u32 data o j)
    by (intros; apply u32_slice; lia).
  assert (R8 : forall i, 0 <= i < n -> exists v, Mem.u8 data (o + i) = Some v)
    by (intros; apply u8_read; lia).
  assert (R16 : forall j, 0 <= j -> 2 * j + 1 < n -> exists v, Mem.u16 data o j = Some v)
    by (intros; apply u16_read; lia).
  assert (R32 : forall j, 0 <= j -> 4 * j + 3 < n -> exists v, Mem.u32 data o j = Some v)
    by (intros; apply u32_read; lia).
  clearbody slice data o. clear Hoff Hoff0 Hk Hlen Hin.
  unfold Mem.f16, Mem.f32.
  unfold n, pixelBytes in *. clear n.
  destruct t; try discriminate Ht; cbn [getChannelCount getBitDepth] in *; depth_consts;
    change (0 + 1) with 1; change (0 + 2) with 2; change (0 + 3) with 3;
    rewrite ?S16, ?S32 by lia; rewrite ?(S8 0), ?(S8 1), ?(S8 2), ?(S8 3) by lia;
    rewrite ?Z.add_0_r;
    match goal with
    | |- exists c, ?E = Some c /\ ?E = Some c =>
        destruct E as [c|] eqn:EE; [exists c; split; reflexivity|exfalso]
    end.
  all: try (destruct (R8 0) as [v0 E0]; [lia|]; rewrite Z.add_0_r in E0; rewrite E0 in EE).
  all: try (destruct (R8 1) as [v1 E1]; [lia|]; rewrite E1 in EE).
  all: try (destruct (R8 2) as [v2 E2]; [lia|]; rewrite E2 in EE).
  all: try (destruct (R8 3) as [v3 E3]; [lia|]; rewrite E3 in EE).
  all: try (destruct (R16 0) as [h0 F0]; [lia|lia|]; rewrite F0 in EE).
  all: try (destruct (R16 1) as [h1 F1]; [lia|lia|]; rewrite F1 in EE).
  all: try (destruct (R16 2) as [h2 F2]; [lia|lia|]; rewrite F2 in EE).
  all: try (destruct (R16 3) as [h3 F3]; [lia|lia|]; rewrite F3 in EE).
  all: try (destruct (R32 0) as [w0 G0]; [lia|lia|]; rewrite G0 in EE).
  all: try (destruct (R32 1) as [w1 G1]; [lia|lia|]; rewrite G1 in EE).
  all: try (destruct (R32 2) as [w2 G2]; [lia|lia|]; rewrite G2 in EE).
  all: try (destruct (R32 3) as [w3 G3]; [lia|lia|]; rewrite G3 in EE).
  all: cbn in EE; discriminate EE.
Qed.

End ProbeInterleaved.

Section ProbeAlpha.
Import PixelProbe ProbeSpec.
Context `{ColorSpaces}.

(** X3.  For the formats without a stored alpha (L and RGB of every
    depth, and the formats the switch does not decode), an in-image probe
    that returns gives alpha exactly 1. *)
Theorem opaque_formats_probe_alpha_one (mx my : bool) (rgba : Color4f)
    (image : Image) (pos : Vector2i) (c : Color4f) :
  let size := getSize image in
  isOpaque (getPixelType image) = true ->
  inImage size (probeX mx size pos) (probeY my size pos) = true ->
  _getPixelValue mx my rgba image pos = Some c ->
  a c = F32.one.
Proof.
  intros size Ht Hin. unfold _getPixelValue. fold size. rewrite Hin. cbn [negb].
  destruct (getPixelType image); try discriminate Ht; unfold Mem.f16, Mem.f32; intros E;
    repeat match type of E with
      | context [Mem.u8 ?d ?i] => destruct (Mem.u8 d i); [|discriminate E]
      | context [Mem.u16 ?d ?o ?i] => destruct (Mem.u16 d o i); [|discriminate E]
      | context [Mem.u32 ?d ?o ?i] => destruct (Mem.u32 d o i); [|discriminate E]
      end; cbn in E; injection E as <-; reflexivity.
Qed.

(** X4.  [L_F32], [LA_F32] and [None] have no case in the decoding
    switch: an in-image probe only sets alpha to 1, keeps the red, green
    and blue it was given and reads no byte of the image, so it gives the
    same result for any image data. *)
Theorem undecoded_formats_keep_colour (mx my : bool) (rgba : Color4f)
    (image : Image) (pos : Vector2i) :
  let size := getSize image in
  isUndecoded (getPixelType image) = true ->
  inImage size (probeX mx size pos) (probeY my size pos) = true ->
  _getPixelValue mx my rgba image pos = Some (set_a rgba F32.one) /\
  forall data,
    _getPixelValue mx my rgba (mkImage (getInfo image) data) pos
      = _getPixelValue mx my rgba image pos.
Proof.
  intros size Ht Hin. unfold _getPixelValue.
  change (getSize (mkImage (getInfo image) ?d)) with size.
  fold size. rewrite Hin. cbn [negb].
  split; [|intros data; change (getPixelType (mkImage (getInfo image) data))
                          with (getPixelType image)];
    destruct (getPixelType image); try discriminate Ht; reflexivity.
Qed.

End ProbeAlpha.

Section ProbePacked.
Import PixelProbe ProbeSpec.
Context `{ColorSpaces}.

(** X5.  For [RGB_U10] the byte offset is [3 * k] for pixel index
    [k = Y * w + X] (one byte of depth times three channels), although a
    packed pixel is a 32-bit word: in a buffer of [4 * w * h] bytes the
    probe succeeds, and decodes the word that starts at byte [3 * k], which
    is the pixel's own word at byte [4 * k] only for [k = 0]. *)
Theorem rgb_u10_probe_steps_three_bytes (mx my : bool) (rgba : Color4f)
    (image : Image) (pos : Vector2i) :
  let size := getSize image in
  let data := getData image in
  let X := probeX mx size pos in
  let Y := probeY my size pos in
  let k := Y * w size + X in
  getPixelType image = RGB_U10 ->
  inImage size X Y = true ->
  4 * (w size * h size) <= Z.of_nat (length data) ->
  exists word,
    Mem.u32 data (3 * k) 0 = Some word /\
    _getPixelValue mx my rgba image pos =
      Some (mkColor4f (norm (U10_r word) F32.UINT32_MAX_F) (norm (U10_g word) F32.UINT32_MAX_F)
                      (norm (U10_b word) F32.UINT32_MAX_F) F32.one) /\
    (3 * k = 4 * k <-> k = 0).
Proof.
  intros size data X Y k Ht Hin Hlen.
  pose proof (pixel_index_bounds size X Y Hin) as Hk. fold k in Hk.
  assert (Hv : _getPixelValue mx my rgba image pos =
               (f ← Mem.u32 data (3 * k) 0;
                Some (mkColor4f (norm (U10_r f) F32.UINT32_MAX_F)
                                (norm (U10_g f) F32.UINT32_MAX_F)
                                (norm (U10_b f) F32.UINT32_MAX_F) F32.one))).
  { unfold _getPixelValue. fold size X Y data. rewrite Hin, Ht. cbn [negb].
    unfold byteOffset. cbn [getChannelCount getBitDepth]. change (10 / 8) with 1.
    fold k. replace (k * 1 * 3) with (3 * k) by lia. reflexivity. }
  clearbody k data.
  destruct (u32_read data (3 * k) 0) as [word E]; [lia|lia|].
  exists word. split; [exact E|]. split; [|lia].
  rewrite Hv, E. reflexivity.
Qed.

End ProbePacked.

Lemma rgb_u10_probe_steps_three_bytes_witness :
  let image := Sample.image RGB_U10 2 1 [0; 0; 0; 0; 255; 255; 255; 255] in
  let pos := mkVector2i 1 0 in
  getPixelType image = RGB_U10 /\
  PixelProbe.inImage (getSize image) (PixelProbe.probeX false (getSize image) pos)
                     (PixelProbe.probeY false (getSize image) pos) = true /\
  4 * (w (getSize image) * h (getSize image)) <= Z.of_nat (length (getData image)) /\
  Mem.u32 (getData image) 0 1 = Some 4294967295 /\
  exists word,
    Mem.u32 (getData image) 3 0 = Some word /\ word = 4294967040 /\
    @PixelProbe._getPixelValue Sample.plainColorSpaces false false Sample.black image pos =
      Some (mkColor4f (PixelProbe.norm (U10_r word) F32.UINT32_MAX_F)
                      (PixelProbe.norm (U10_g word) F32.UINT32_MAX_F)
                      (PixelProbe.norm (U10_b word) F32.UINT32_MAX_F) F32.one).
Proof.
  intros image pos.
  assert (Ht : getPixelType image = RGB_U10) by reflexivity.
  assert (Hin : PixelProbe.inImage (getSize image)
                  (PixelProbe.probeX false (getSize image) pos)
                  (PixelProbe.probeY false (getSize image) pos) = true) by reflexivity.
  assert (Hlen : 4 * (w (getSize image) * h (getSize image))
                 <= Z.of_nat (length (getData image))) by (vm_compute; discriminate).
  split; [exact Ht|]. split; [exact Hin|]. split; [exact Hlen|]. split; [reflexivity|].
  destruct (@rgb_u10_probe_steps_three_bytes Sample.plainColorSpaces false false Sample.black
              image pos Ht Hin Hlen) as (word & E & R & _).
  exists word. split; [exact E|]. split; [|exact R].
  vm_compute in E. injection E as <-. reflexivity.
Defined.

Section ProbeNormalisation.
Import PixelProbe ProbeSpec.

Lemma increasing_from_spec (f : Z -> float) (n : nat) :
  forall prev i, increasing_from f prev i n = true ->
  forall j, i <= j < i + Z.of_nat n ->
    F32.ltb prev (f j) = true /\
    forall j', j < j' < i + Z.of_nat n -> F32.ltb (f j) (f j') = true.
Proof.
  induction n as [|n IH]; intros prev i Hall j Hj; [lia|].
  cbn [increasing_from] in Hall. apply andb_prop in Hall as [Hfirst Hrest].
  destruct (Z.eq_dec j i) as [->|Hne].
  - split; [exact Hfirst|]. intros j' Hj'.
    apply (IH (f i) (i + 1) Hrest j'). lia.
  - destruct (IH (f i) (i + 1) Hrest j) as [Hlt Hpairs]; [lia|]. split.
    + exact (ltb_trans _ _ _ Hfirst Hlt).
    + intros j' Hj'. apply Hpairs. lia.
Qed.

Lemma bytes_increase :
  increasing_from (fun i => norm i f255) (norm 0 f255) 1 (Z.to_nat 255) = true.
Proof. vm_compute. reflexivity. Qed.

Lemma shorts_increase :
  increasing_from (fun i => norm i f65535) (norm 0 f65535) 1 (Z.to_nat 65535) = true.
Proof. vm_compute. reflexivity. Qed.

Lemma norm_increasing (f : Z -> float) (top : Z) (u v : Z) :
  increasing_from f (f 0) 1 (Z.to_nat top) = true ->
  0 <= u < v -> v <= top -> F32.ltb (f u) (f v) = true.
Proof.
  intros Hall Hu Hv.
  destruct (Z.eq_dec u 0) as [->|Hne].
  - apply (increasing_from_spec f _ _ _ Hall v). lia.
  - apply (increasing_from_spec f _ _ _ Hall u); lia.
Qed.

(** X6.  The normalisation of 8-bit and 16-bit samples, [v / 255.0f]
    and [v / 65535.0f], is strictly increasing over the whole sample range,
    from exactly 0 at 0 to exactly 1 at full scale: distinct samples give
    distinct floats, in the same order. *)
Theorem normalisation_is_strictly_increasing (u v : Z) :
  0 <= u < v ->
  (v <= 255 -> F32.ltb (norm u f255) (norm v f255) = true) /\
  (v <= 65535 -> F32.ltb (norm u f65535) (norm v f65535) = true) /\
  norm 0 f255 = F32.zero /\ norm 255 f255 = F32.one /\
  norm 0 f65535 = F32.zero /\ norm 65535 f65535 = F32.one.
Proof.
  intros Hu. split; [|split].
  - intros Hv. exact (norm_increasing (fun i => norm i f255) 255 u v bytes_increase Hu Hv).
  - intros Hv. exact (norm_increasing (fun i => norm i f65535) 65535 u v shorts_increase Hu Hv).
  - repeat split; vm_compute; reflexivity.
Qed.

Lemma norm_unit (f : Z -> float) (top v : Z) :
  increasing_from f (f 0) 1 (Z.to_nat top) = true ->
  f 0 = F32.zero -> f top = F32.one -> 0 <= v <= top -> inUnit (f v).
Proof.
  intros Hall H0 H1 Hv. split.
  - destruct (Z.eq_dec v 0) as [->|Hne]; [rewrite H0; reflexivity|].
    rewrite <- H0. apply ltb_asym. apply (norm_increasing f top 0 v Hall); lia.
  - destruct (Z.eq_dec v top) as [->|Hne]; [rewrite H1; reflexivity|].
    rewrite <- H1. apply ltb_asym. apply (norm_increasing f top v top Hall); lia.
Qed.

Lemma norm_u8_unit (v : Z) : 0 <= v <= 255 -> inUnit (norm v f255).
Proof.
  apply (norm_unit (fun i => norm i f255) 255 v bytes_increase); vm_compute; reflexivity.
Qed.

Lemma norm_u16_unit (v : Z) : 0 <= v <= 65535 -> inUnit (norm v f65535).
Proof.
  apply (norm_unit (fun i => norm i f65535) 65535 v shorts_increase); vm_compute; reflexivity.
Qed.

Lemma u8_range (data : list Byte.byte) (i v : Z) : Mem.u8 data i = Some v -> 0 <= v <= 255.
Proof.
  unfold Mem.u8. destruct (i <? 0); [discriminate|].
  destruct (data !! Z.to_nat i) as [c|]; [|discriminate]. cbn. intros [= <-].
  pose proof (Byte.to_N_bounded c). lia.
Qed.

Lemma u16_range (data : list Byte.byte) (o j v : Z) :
  Mem.u16 data o j = Some v -> 0 <= v <= 65535.
Proof.
  unfold Mem.u16.
  destruct (Mem.u8 data (o + 2 * j)) as [b0|] eqn:E0; [|discriminate].
  destruct (Mem.u8 data (o + 2 * j + 1)) as [b1|] eqn:E1; [|discriminate].
  cbn. intros [= <-]. apply u8_range in E0, E1. lia.
Qed.

Lemma one_unit : inUnit F32.one.
Proof. split; reflexivity. Qed.

End ProbeNormalisation.

Section ProbeUnitRange.
Import PixelProbe ProbeSpec.
Context `{ColorSpaces}.

(** X7.  For the interleaved formats with 8-bit or 16-bit integer
    channels, every component of an in-image probe that returns lies in
    [0, 1]: it is neither below 0 nor above 1. *)
Theorem small_integer_formats_probe_in_unit_range (mx my : bool) (rgba : Color4f)
    (image : Image) (pos : Vector2i) (c : Color4f) :
  let size := getSize image in
  isSmallInteger (getPixelType image) = true ->
  inImage size (probeX mx size pos) (probeY my size pos) = true ->
  _getPixelValue mx my rgba image pos = Some c ->
  inUnit (r c) /\ inUnit (g c) /\ inUnit (b c) /\ inUnit (a c).
Proof.
  intros size Ht Hin. unfold _getPixelValue. fold size. rewrite Hin. cbn [negb].
  destruct (getPixelType image); try discriminate Ht; intros E;
    repeat match type of E with
      | context [Mem.u8 ?d ?i] =>
          let R := fresh "R" in
          destruct (Mem.u8 d i) eqn:R; [apply u8_range in R|discriminate E]
      | context [Mem.u16 ?d ?o ?i] =>
          let R := fresh "R" in
          destruct (Mem.u16 d o i) eqn:R; [apply u16_range in R|discriminate E]
      end; cbn in E; injection E as <-; cbn [r g b a set_a];
    repeat split; try apply one_unit; try (apply norm_u8_unit; assumption);
    try (apply norm_u16_unit; assumption).
Qed.

End ProbeUnitRange.

Section ProbePlanar16.
Import PixelProbe ProbeSpec Planar.
Context `{ColorSpaces}.

(** X8.  For the 16-bit planar YUV formats the three samples of an
    in-image probe are single bytes: each of [data[...]] is between 0 and
    255 and is divided by 65535, so every component handed to the level
    correction is below [256 / 65535]. *)
Theorem planar_u16_probe_decodes_single_bytes (mx my : bool) (rgba : Color4f)
    (image : Image) (pos : Vector2i) :
  let t := getPixelType image in
  let size := getSize image in
  isPlanarU16 t = true ->
  inImage size (probeX mx size pos) (probeY my size pos) = true ->
  byteCount t size <= Z.of_nat (length (getData image)) ->
  exists vy vu vv,
    (0 <= vy <= 255 /\ 0 <= vu <= 255 /\ 0 <= vv <= 255) /\
    _getPixelValue mx my rgba image pos =
      Some (YPbPr_to_rgb
              (checkLevels (mkColor4f (norm vy f65535) (norm vu f65535) (norm vv f65535)
                                      F32.one)
                           (videoLevels (getInfo image)))
              (getYUVCoefficients (yuvCoefficients (getInfo image)))) /\
    F32.ltb (norm vy f65535) (norm 256 f65535) = true /\
    F32.ltb (norm vu f65535) (norm 256 f65535) = true /\
    F32.ltb (norm vv f65535) (norm 256 f65535) = true.
Proof.
  intros t size Ht Hin Hlen.
  destruct (planar_u16_decode mx my rgba image pos Ht Hin Hlen)
    as (iy & iu & iv & vy & vu & vv & Ey & Eu & Ev & E).
  apply u8_range in Ey, Eu, Ev.
  exists vy, vu, vv. split; [auto|]. split; [exact E|].
  repeat split;
    apply (norm_increasing (fun i => norm i f65535) 65535 _ 256 shorts_increase); lia.
Qed.

End ProbePlanar16.

Lemma planar_u16_probe_decodes_single_bytes_witness :
  let image := Sample.image YUV_444P_U16 1 1 [255; 255; 0; 128; 0; 128] in
  let pos := mkVector2i 0 0 in
  Planar.isPlanarU16 (getPixelType image) = true /\
  PixelProbe.inImage (getSize image) (PixelProbe.probeX false (getSize image) pos)
                     (PixelProbe.probeY false (getSize image) pos) = true /\
  Planar.byteCount (getPixelType image) (getSize image)
    <= Z.of_nat (length (getData image)) /\
  exists vy vu vv,
    (0 <= vy <= 255 /\ 0 <= vu <= 255 /\ 0 <= vv <= 255) /\
    @PixelProbe._getPixelValue Sample.plainColorSpaces false false Sample.black image pos =
      Some (mkColor4f (PixelProbe.norm vy PixelProbe.f65535)
                      (PixelProbe.norm vu PixelProbe.f65535)
                      (PixelProbe.norm vv PixelProbe.f65535) F32.one).
Proof.
  intros image pos.
  assert (Ht : Planar.isPlanarU16 (getPixelType image) = true) by reflexivity.
  assert (Hin : PixelProbe.inImage (getSize image)
                  (PixelProbe.probeX false (getSize image) pos)
                  (PixelProbe.probeY false (getSize image) pos) = true) by reflexivity.
  assert (Hlen : Planar.byteCount (getPixelType image) (getSize image)
                 <= Z.of_nat (length (getData image))) by (vm_compute; discriminate).
  split; [exact Ht|]. split; [exact Hin|]. split; [exact Hlen|].
  destruct (@planar_u16_probe_decodes_single_bytes Sample.plainColorSpaces false false
              Sample.black image pos Ht Hin Hlen) as (vy & vu & vv & R & E & _).
  exists vy, vu, vv. split; [exact R|exact E].
Defined.

Section ProbeChroma.
Import PixelProbe ProbeSpec Planar.
Context `{ColorSpaces}.

(** X9.  For every format the switch decodes, an in-image probe
    overwrites the colour it is given: the result does not depend on the
    value [rgba] had at the call. *)
Theorem decoded_probe_overwrites_the_colour (mx my : bool) (rgba rgba' : Color4f)
    (image : Image) (pos : Vector2i) :
  let size := getSize image in
  isUndecoded (getPixelType image) = false ->
  inImage size (probeX mx size pos) (probeY my size pos) = true ->
  _getPixelValue mx my rgba image pos = _getPixelValue mx my rgba' image pos.
Proof.
  intros size Ht Hin. unfold _getPixelValue. fold size. rewrite Hin. cbn [negb].
  destruct (getPixelType image); try discriminate Ht; reflexivity.
Qed.

(** X10.  In the 8-bit planar YUV formats the pixels of one chroma
    block share their chroma: two in-image probes whose columns agree
    after division by the horizontal subsampling and whose rows agree after
    division by the vertical subsampling decode the same U and V samples,
    and differ at most in luma. *)
Theorem subsampled_chroma_is_shared (mx my : bool) (rgba : Color4f)
    (image : Image) (pos pos' : Vector2i) :
  let t := getPixelType image in
  let size := getSize image in
  let X := probeX mx size pos in
  let Y := probeY my size pos in
  let X' := probeX mx size pos' in
  let Y' := probeY my size pos' in
  isPlanarU8 t = true ->
  inImage size X Y = true -> inImage size X' Y' = true ->
  byteCount t size <= Z.of_nat (length (getData image)) ->
  X / subX t = X' / subX t -> Y / subY t = Y' / subY t ->
  exists vy vy' vu vv,
    _getPixelValue mx my rgba image pos =
      Some (YPbPr_to_rgb
              (checkLevels (mkColor4f (norm vy f255) (norm vu f255) (norm vv f255) F32.one)
                           (videoLevels (getInfo image)))
              (getYUVCoefficients (yuvCoefficients (getInfo image)))) /\
    _getPixelValue mx my rgba image pos' =
      Some (YPbPr_to_rgb
              (checkLevels (mkColor4f (norm vy' f255) (norm vu f255) (norm vv f255) F32.one)
                           (videoLevels (getInfo image)))
              (getYUVCoefficients (yuvCoefficients (getInfo image)))).
Proof.
  intros t size X Y X' Y' Ht Hin Hin' Hlen HX HY.
  destruct (planar_u8_decode mx my rgba image pos Ht Hin Hlen)
    as (vy & vu & vv & _ & Eu & Ev & E).
  destruct (planar_u8_decode mx my rgba image pos' Ht Hin' Hlen)
    as (vy' & vu' & vv' & _ & Eu' & Ev' & E').
  fold t size X Y in Eu, Ev. fold t size X' Y' in Eu', Ev'.
  assert (Hc : chromaOffset t size X' Y' = chromaOffset t size X Y).
  { unfold chromaOffset. rewrite HX, HY. reflexivity. }
  rewrite Hc in Eu', Ev'. rewrite Eu in Eu'. rewrite Ev in Ev'.
  injection Eu' as <-. injection Ev' as <-.
  exists vy, vy', vu, vv. split; assumption.
Qed.

End ProbeChroma.

(* ================================================================== *)
(** * More about the region statistics *)
(* ================================================================== *)

Section AreaScan.
Import Viewport AreaSpec.
Context `{ColorSpaces}.
Variable spaceOf : Z -> Space.
Variable boxW boxH : math.BBox2i -> Z.

Lemma forEach_invariant {S : Type} (P : S -> Prop) (body : S -> Z -> option S)
    (l : list Z) :
  (forall s i s', In i l -> P s -> body s i = Some s' -> P s') ->
  forall s s', P s -> forEach body s l = Some s' -> P s'.
Proof.
  induction l as [|i l IH]; intros Hbody s s' Hs E; cbn [forEach] in E.
  - injection E as <-. exact Hs.
  - destruct (body s i) as [s1|] eqn:E1; [|discriminate E]. cbn in E.
    apply (IH (fun s i s' Hi => Hbody s i s' (or_intror Hi)) s1 s'); [|exact E].
    apply (Hbody s i s1); [left; reflexivity|exact Hs|exact E1].
Qed.

Lemma forEach_total {S : Type} (P : S -> Prop) (body : S -> Z -> option S)
    (l : list Z) :
  (forall s i, In i l -> P s -> exists s', body s i = Some s' /\ P s') ->
  forall s, P s -> exists s', forEach body s l = Some s' /\ P s'.
Proof.
  induction l as [|i l IH]; intros Hbody s Hs; cbn [forEach].
  - eauto.
  - destruct (Hbody s i (or_introl eq_refl) Hs) as (s1 & -> & Hs1). cbn.
    apply IH; [|exact Hs1]. intros s2 j Hj. apply Hbody. right. exact Hj.
Qed.

Lemma in_seqZ (m n i : Z) : In i (seqZ m n) <-> m <= i < m + n.
Proof. rewrite <- list_elem_of_In, elem_of_seqZ. reflexivity. Qed.

Lemma scanPixel_box (img : list float) (ui : UI) (info info' : area.Info) (X Y : Z) :
  scanPixel spaceOf img ui info X Y = Some info' -> area.box info' = area.box info.
Proof.
  unfold scanPixel. intros E.
  repeat match type of E with
    | context [if ?c then None else ?l] => destruct (if c then None else l); [|discriminate E]
    end.
  cbn in E. injection E as <-. reflexivity.
Qed.

Lemma scanPixel_total (img : list float) (ui : UI) (info : area.Info) (X Y : Z) :
  0 <= X < w (renderSize ui) -> 0 <= Y < h (renderSize ui) ->
  4 * (w (renderSize ui) * h (renderSize ui)) <= Z.of_nat (length img) ->
  exists info', scanPixel spaceOf img ui info X Y = Some info'.
Proof.
  intros HX HY Hlen. unfold scanPixel.
  set (i := (X + Y * w (renderSize ui)) * 4).
  assert (Hi : 0 <= i /\ i + 3 < Z.of_nat (length img)) by (subst i; nia).
  assert (R : forall k, 0 <= k <= 3 -> exists v,
                (if i + k <? 0 then None else img !! Z.to_nat (i + k)) = Some v).
  { intros k Hk. replace (i + k <? 0) with false by lia.
    destruct (lookup_lt_is_Some_2 img (Z.to_nat (i + k))) as [v E]; [lia|]. eauto. }
  destruct (R 0) as [vb ->]; [lia|]. destruct (R 1) as [vg ->]; [lia|].
  destruct (R 2) as [vr ->]; [lia|]. destruct (R 3) as [va ->]; [lia|].
  cbn. eauto.
Qed.

(** X11.  When a buffer is mapped, the region lies in the frame and the
    buffer holds [4 * w * h] floats, [_calculateColorArea] reads no float
    outside the buffer and returns; it leaves the box of [info] as it was,
    and the differences it stores are the maxima minus the minima, channel
    by channel, for both sets of statistics. *)
Theorem color_area_scan_stays_in_buffer (gl : GLPrivate) (ui : UI) (info : area.Info)
    (img : list float) :
  image gl = Some img ->
  inFrame (renderSize ui) (area.box info) ->
  4 * (w (renderSize ui) * h (renderSize ui)) <= Z.of_nat (length img) ->
  exists info',
    _calculateColorArea spaceOf boxW boxH gl ui info = Some info' /\
    area.box info' = area.box info /\
    area.diff (area.rgba info') = minus (area.max (area.rgba info')) (area.min (area.rgba info')) /\
    area.diff (area.hsv info') = minus (area.max (area.hsv info')) (area.min (area.hsv info')).
Proof.
  intros Himg (Hx0 & Hx1 & Hy0 & Hy1) Hlen. unfold _calculateColorArea. rewrite Himg.
  cbn [area.box]. unfold math.bx, math.by_.
  set (box := area.box info).
  set (info0 := area.mkInfo box (resetStats (area.rgba info)) (resetStats (area.hsv info))).
  destruct (forEach_total (fun i : area.Info => area.box i = box)
              (fun info Y =>
                 forEach (fun info X => scanPixel spaceOf img ui info X Y) info
                         (seqZ (x (math.min box)) (x (math.max box) - x (math.min box))))
              (seqZ (y (math.min box)) (y (math.max box) - y (math.min box))))
    with (s := info0) as (info1 & -> & Hbox1).
  - intros s Y HY Hs. apply in_seqZ in HY.
    apply (forEach_total (fun i : area.Info => area.box i = box)); [|exact Hs].
    intros s1 X HX Hs1. apply in_seqZ in HX.
    destruct (scanPixel_total img ui s1 X Y) as [s2 E]; [unfold box in *; lia..|].
    exists s2. split; [exact E|]. rewrite (scanPixel_box _ _ _ _ _ _ E). exact Hs1.
  - reflexivity.
  - cbn. eexists. split; [reflexivity|]. repeat split.
Qed.


Lemma raise_keeps_floor (mx c : float) :
  SFleb F32.FLT_MIN mx = true ->
  SFleb F32.FLT_MIN (if F32.ltb mx c then c else mx) = true.
Proof.
  intros Hmx. destruct (F32.ltb mx c) eqn:E; [|exact Hmx].
  exact (leb_ltb_trans _ _ _ Hmx E).
Qed.

Lemma lower_keeps_ceiling (mn c : float) :
  SFleb mn F32.FLT_MAX = true ->
  SFleb (if F32.ltb c mn then c else mn) F32.FLT_MAX = true.
Proof.
  intros Hmn. destruct (F32.ltb c mn) eqn:E; [|exact Hmn].
  exact (ltb_leb_trans _ _ _ E Hmn).
Qed.

Lemma accumulate_max (s : area.Stats) (c : Color4f) :
  area.max (accumulate s c) =
    let mx := area.max s in
    mkColor4f (if F32.ltb (r mx) (r c) then r c else r mx)
              (if F32.ltb (g mx) (g c) then g c else g mx)
              (if F32.ltb (b mx) (b c) then b c else b mx)
              (if F32.ltb (a mx) (a c) then a c else a mx).
Proof.
  unfold accumulate. cbn [area.max]. destruct (area.max s) as [xr xg xb xa]. cbn.
  destruct (F32.ltb xr (r c)); cbn; destruct (F32.ltb xg (g c)); cbn;
    destruct (F32.ltb xb (b c)); cbn; destruct (F32.ltb xa (a c)); reflexivity.
Qed.

Lemma accumulate_min (s : area.Stats) (c : Color4f) :
  area.min (accumulate s c) =
    let mn := area.min s in
    mkColor4f (if F32.ltb (r c) (r mn) then r c else r mn)
              (if F32.ltb (g c) (g mn) then g c else g mn)
              (if F32.ltb (b c) (b mn) then b c else b mn)
              (if F32.ltb (a c) (a mn) then a c else a mn).
Proof.
  unfold accumulate. cbn [area.min]. destruct (area.min s) as [nr ng nb na]. cbn.
  destruct (F32.ltb (r c) nr); cbn; destruct (F32.ltb (g c) ng); cbn;
    destruct (F32.ltb (b c) nb); cbn; destruct (F32.ltb (a c) na); reflexivity.
Qed.

Lemma accumulate_mean (s : area.Stats) (c : Color4f) :
  area.mean (accumulate s c) =
    let mean := area.mean s in
    mkColor4f (r mean + r c)%f32 (g mean + g c)%f32 (b mean + b c)%f32 (a mean + a c)%f32.
Proof. reflexivity. Qed.

Lemma accumulate_bounded (s : area.Stats) (c : Color4f) :
  bounded s -> bounded (accumulate s c).
Proof.
  intros [(M1 & M2 & M3 & M4) (N1 & N2 & N3 & N4)].
  unfold bounded, each. rewrite accumulate_max, accumulate_min. cbn [r g b a].
  repeat split; (apply raise_keeps_floor || apply lower_keeps_ceiling); assumption.
Qed.

Lemma scanPixel_bounded (img : list float) (ui : UI) (info info' : area.Info) (X Y : Z) :
  bounded (area.rgba info) /\ bounded (area.hsv info) ->
  scanPixel spaceOf img ui info X Y = Some info' ->
  bounded (area.rgba info') /\ bounded (area.hsv info').
Proof.
  intros [Br Bh]. unfold scanPixel. intros E.
  repeat match type of E with
    | context [if ?c then None else ?l] => destruct (if c then None else l); [|discriminate E]
    end.
  cbn in E. injection E as <-. cbn [area.rgba area.hsv].
  split; apply accumulate_bounded; assumption.
Qed.

Lemma resetStats_bounded (s : area.Stats) : bounded (resetStats s).
Proof. repeat split. Qed.

Lemma color_area_extrema_bounded_aux (gl : GLPrivate) (ui : UI) (info info' : area.Info)
    (img : list float) :
  image gl = Some img ->
  _calculateColorArea spaceOf boxW boxH gl ui info = Some info' ->
  (each (fun c => SFleb F32.FLT_MIN c = true) (area.max (area.rgba info')) /\
   each (fun c => SFleb c F32.FLT_MAX = true) (area.min (area.rgba info'))) /\
  (each (fun c => SFleb F32.FLT_MIN c = true) (area.max (area.hsv info')) /\
   each (fun c => SFleb c F32.FLT_MAX = true) (area.min (area.hsv info'))) /\
  F32.ltb F32.zero F32.FLT_MIN = true.
Proof.
  intros Himg. unfold _calculateColorArea. rewrite Himg. cbn [area.box].
  match goal with
  | |- context [forEach ?body ?s0 ?l] =>
      destruct (forEach body s0 l) as [info1|] eqn:E; [|discriminate]
  end.
  cbn. intros [= <-]. cbn [area.rgba area.hsv finishStats area.max area.min].
  assert (B : bounded (area.rgba info1) /\ bounded (area.hsv info1)).
  { revert E. apply (forEach_invariant (fun i => bounded (area.rgba i) /\ bounded (area.hsv i))).
    - intros s Y s' _ Hs. apply (forEach_invariant
        (fun i => bounded (area.rgba i) /\ bounded (area.hsv i))); [|exact Hs].
      intros s1 X s2 _ Hs1. apply scanPixel_bounded. exact Hs1.
    - split; apply resetStats_bounded. }
  destruct B as [Br Bh]. split; [exact Br|]. split; [exact Bh|reflexivity].
Qed.

(** X12.  The maxima [_calculateColorArea] reports are never below
    [numeric_limits<float>::min()], the least positive normal float, and
    the minima never above [numeric_limits<float>::max()], for both sets of
    statistics and whatever the pixels are: the running maximum starts at
    that positive value, so a maximum of zero or less is never reported. *)
Theorem color_area_extrema_are_bounded (gl : GLPrivate) (ui : UI) (info info' : area.Info)
    (img : list float) :
  image gl = Some img ->
  _calculateColorArea spaceOf boxW boxH gl ui info = Some info' ->
  (each (fun c => SFleb F32.FLT_MIN c = true) (area.max (area.rgba info')) /\
   each (fun c => SFleb c F32.FLT_MAX = true) (area.min (area.rgba info'))) /\
  (each (fun c => SFleb F32.FLT_MIN c = true) (area.max (area.hsv info')) /\
   each (fun c => SFleb c F32.FLT_MAX = true) (area.min (area.hsv info'))) /\
  F32.ltb F32.zero F32.FLT_MIN = true.
Proof. apply color_area_extrema_bounded_aux. Qed.


Lemma scanPixel_black (img : list float) (ui : UI) (info info' : area.Info) (X Y : Z)
    (seen : bool) :
  Forall (fun v => v = F32.zero) img ->
  blackStats seen (area.rgba info) ->
  scanPixel spaceOf img ui info X Y = Some info' ->
  blackStats true (area.rgba info').
Proof.
  intros Hz (Hmax & Hmean & Hmin). unfold scanPixel. intros E.
  rewrite Forall_lookup in Hz.
  repeat match type of E with
    | context [if ?c then None else ?l] =>
        let R := fresh "R" in
        destruct (if c then None else l) eqn:R; [|discriminate E];
        destruct c; [discriminate R|]; apply Hz in R; subst
    end.
  cbn in E. injection E as <-. cbn [area.rgba]. unfold blackStats.
  rewrite accumulate_max, accumulate_min, accumulate_mean, Hmax, Hmean.
  split; [reflexivity|]. split; [reflexivity|]. left.
  destruct Hmin as [->|[_ ->]]; reflexivity.
Qed.

Lemma blackStats_seen (s : area.Stats) : blackStats true s -> forall seen, blackStats seen s.
Proof.
  intros (Hmax & Hmean & [Hmin|[Hf _]]) seen; [|discriminate Hf].
  repeat split; auto.
Qed.

Lemma forEach_nonempty {S : Type} (P Q : S -> Prop) (body : S -> Z -> option S)
    (l : list Z) :
  l <> [] ->
  (forall s, Q s -> P s) ->
  (forall s i s', P s -> body s i = Some s' -> Q s') ->
  forall s s', P s -> forEach body s l = Some s' -> Q s'.
Proof.
  intros Hne HQP Hbody s s' Hs E. destruct l as [|i l]; [contradiction|].
  cbn [forEach] in E. destruct (body s i) as [s1|] eqn:E1; [|discriminate E]. cbn in E.
  revert E. apply (forEach_invariant Q).
  - intros s2 j s3 _ Hs2. apply Hbody. apply HQP. exact Hs2.
  - exact (Hbody s i s1 Hs E1).
Qed.

Lemma seqZ_nonempty (m n : Z) : 0 < n -> seqZ m n <> [].
Proof.
  intros Hn E. assert (Hin : In m (seqZ m n)) by (apply in_seqZ; lia).
  rewrite E in Hin. exact Hin.
Qed.

(** X13.  For a region of at least one pixel in a buffer that holds
    only zeros (a black, transparent frame), the RGBA statistics report the
    minimum 0 but the maximum [numeric_limits<float>::min()], which is
    positive, and that same value as the difference. *)
Theorem black_region_reports_positive_maximum (gl : GLPrivate) (ui : UI)
    (info info' : area.Info) (img : list float) :
  image gl = Some img ->
  Forall (fun v => v = F32.zero) img ->
  nonEmpty (area.box info) ->
  _calculateColorArea spaceOf boxW boxH gl ui info = Some info' ->
  area.max (area.rgba info') = splat F32.FLT_MIN /\
  area.min (area.rgba info') = splat F32.zero /\
  area.diff (area.rgba info') = splat F32.FLT_MIN /\
  F32.ltb F32.zero F32.FLT_MIN = true.
Proof.
  intros Himg Hz [Hx Hy]. unfold _calculateColorArea. rewrite Himg. cbn [area.box].
  unfold math.bx, math.by_.
  match goal with
  | |- context [forEach ?body ?s0 ?l] =>
      destruct (forEach body s0 l) as [info1|] eqn:E; [|discriminate]
  end.
  cbn. intros [= <-]. cbn [area.rgba finishStats area.max area.min area.diff].
  assert (B : blackStats true (area.rgba info1)).
  { revert E. apply (forEach_nonempty (fun i => blackStats false (area.rgba i))
                                      (fun i => blackStats true (area.rgba i))).
    - apply seqZ_nonempty. lia.
    - intros s Hs. apply blackStats_seen. exact Hs.
    - intros s Y s' Hs. apply (forEach_nonempty (fun i => blackStats false (area.rgba i))
                                      (fun i => blackStats true (area.rgba i))).
      + apply seqZ_nonempty. lia.
      + intros s1 Hs1. apply blackStats_seen. exact Hs1.
      + intros s1 X s2 Hs1. apply (scanPixel_black img ui s1 s2 X Y false Hz Hs1).
      + exact Hs.
    - cbn. repeat split. right. split; reflexivity. }
  destruct B as (-> & _ & [->|[Hf _]]); [|discriminate Hf].
  repeat split.
Qed.

Lemma clamp01_channels (c : Color4f) :
  let clamp v := if F32.ltb v F32.zero then F32.zero
                 else if F32.ltb F32.one v then F32.one else v in
  clamp01 c = mkColor4f (clamp (r c)) (clamp (g c)) (clamp (b c)) (a c).
Proof.
  destruct c as [cr cg cb ca]. unfold clamp01. cbv zeta.
  pose proof (eq_refl : F32.ltb F32.one F32.zero = false) as E10.
  cbn [r g b a set_r set_g set_b].
  destruct (F32.ltb cr F32.zero); cbn [r g b a set_r set_g set_b];
    destruct (F32.ltb cg F32.zero); cbn [r g b a set_r set_g set_b];
    destruct (F32.ltb cb F32.zero); cbn [r g b a set_r set_g set_b];
    rewrite ?E10; cbn [r g b a set_r set_g set_b];
    try destruct (F32.ltb F32.one cr); cbn [r g b a set_r set_g set_b];
    rewrite ?E10; cbn [r g b a set_r set_g set_b];
    try destruct (F32.ltb F32.one cg); cbn [r g b a set_r set_g set_b];
    rewrite ?E10; cbn [r g b a set_r set_g set_b];
    try destruct (F32.ltb F32.one cb); reflexivity.
Qed.

Lemma clamp_unit (v : float) :
  let v' := if F32.ltb v F32.zero then F32.zero
            else if F32.ltb F32.one v then F32.one else v in
  (F32.ltb v' F32.zero = false /\ F32.ltb F32.one v' = false) /\
  (F32.ltb v F32.zero = false -> F32.ltb F32.one v = false -> v' = v).
Proof.
  cbv zeta. destruct (F32.ltb v F32.zero) eqn:E0; [|destruct (F32.ltb F32.one v) eqn:E1].
  - repeat split. discriminate.
  - repeat split. discriminate.
  - repeat split; assumption.
Qed.

(** X14.  The clamping before the colour conversion leaves red, green
    and blue neither below 0 nor above 1, does not touch alpha, and keeps a
    component that already lies in [0, 1]. *)
Theorem clamp_confines_rgb_to_unit_range (c : Color4f) :
  let c' := clamp01 c in
  (F32.ltb (r c') F32.zero = false /\ F32.ltb F32.one (r c') = false) /\
  (F32.ltb (g c') F32.zero = false /\ F32.ltb F32.one (g c') = false) /\
  (F32.ltb (b c') F32.zero = false /\ F32.ltb F32.one (b c') = false) /\
  a c' = a c /\
  (F32.ltb (r c) F32.zero = false -> F32.ltb F32.one (r c) = false -> r c' = r c) /\
  (F32.ltb (g c) F32.zero = false -> F32.ltb F32.one (g c) = false -> g c' = g c) /\
  (F32.ltb (b c) F32.zero = false -> F32.ltb F32.one (b c) = false -> b c' = b c).
Proof.
  cbv zeta. rewrite clamp01_channels. cbn [r g b a].
  destruct (clamp_unit (r c)) as [R1 R2], (clamp_unit (g c)) as [G1 G2],
           (clamp_unit (b c)) as [B1 B2].
  repeat split; first [apply R1 | apply G1 | apply B1 | assumption].
Qed.

End AreaScan.

Section AreaCorners.
Import Viewport AreaSpec.

(** X15.  For a selection whose coordinates are below 2^24 in
    magnitude, the two swaps of [draw] put the corners in increasing order:
    the result has the smaller x and y in [min] and the larger in [max].
    The temporary of the swap is a [float]: beyond 2^24 the swapped
    coordinate is rounded, so that -16777217 becomes -16777216. *)
Theorem selection_corners_are_ordered (sel : math.BBox2i) :
  exact (x (math.min sel)) -> exact (y (math.min sel)) ->
  exact (x (math.max sel)) -> exact (y (math.max sel)) ->
  orderCorners sel = ordered sel /\
  x (math.min (orderCorners sel)) <= x (math.max (orderCorners sel)) /\
  y (math.min (orderCorners sel)) <= y (math.max (orderCorners sel)) /\
  orderCorners (Sample.box 5 0 (-16777217) 0) = Sample.box (-16777216) 0 5 0.
Proof.
  intros Hx0 Hy0 Hx1 Hy1.
  assert (E : orderCorners sel = ordered sel).
  { destruct sel as [[x0 y0] [x1 y1]]. unfold exact in *. cbn [math.min math.max x y] in *.
    unfold orderCorners, ordered. cbn [math.min math.max x y].
    destruct (x1 <? x0) eqn:Ex; cbn [x y]; destruct (y1 <? y0) eqn:Ey; cbn [x y];
      rewrite ?to_int_of_Z by lia; f_equal; f_equal; lia. }
  rewrite E. split; [reflexivity|]. unfold ordered. cbn [math.min math.max x y].
  split; [lia|]. split; [lia|]. vm_compute. reflexivity.
Qed.

End AreaCorners.

Lemma selection_corners_are_ordered_witness :
  let sel := Sample.box 7 1 3 4 in
  AreaSpec.exact 7 /\ AreaSpec.exact 1 /\ AreaSpec.exact 3 /\ AreaSpec.exact 4 /\
  Viewport.orderCorners sel = Sample.box 3 1 7 4.
Proof.
  intros sel.
  assert (H7 : AreaSpec.exact 7) by (unfold AreaSpec.exact; lia).
  assert (H1 : AreaSpec.exact 1) by (unfold AreaSpec.exact; lia).
  assert (H3 : AreaSpec.exact 3) by (unfold AreaSpec.exact; lia).
  assert (H4 : AreaSpec.exact 4) by (unfold AreaSpec.exact; lia).
  split; [exact H7|]. split; [exact H1|]. split; [exact H3|]. split; [exact H4|].
  destruct (selection_corners_are_ordered sel H7 H1 H3 H4) as [E _].
  rewrite E. reflexivity.
Defined.

Section AreaNaN.
Import Viewport AreaSpec.
Context `{ColorSpaces}.
Variable spaceOf : Z -> Space.
Variable boxW boxH : math.BBox2i -> Z.

Lemma forEach_meets {S : Type} (Q : S -> Prop) (body : S -> Z -> option S)
    (l : list Z) (i : Z) :
  In i l ->
  (forall s s', body s i = Some s' -> Q s') ->
  (forall s j s', Q s -> body s j = Some s' -> Q s') ->
  forall s s', forEach body s l = Some s' -> Q s'.
Proof.
  intros Hin Hhit Hkeep. induction l as [|j l IH]; [destruct Hin|].
  intros s s' E. cbn [forEach] in E.
  destruct (body s j) as [s1|] eqn:E1; [|discriminate E]. cbn in E.
  destruct Hin as [->|Hin].
  - revert E. apply (forEach_invariant Q).
    + intros s2 k s3 _ Hs2. apply Hkeep. exact Hs2.
    + exact (Hhit s s1 E1).
  - exact (IH Hin s1 s' E).
Qed.

Lemma add_nan_l (x : float) : (S754_nan + x)%f32 = S754_nan.
Proof. reflexivity. Qed.

Lemma add_nan_r (x : float) : (x + S754_nan)%f32 = S754_nan.
Proof. destruct x as [[]|[]| |[] m e]; reflexivity. Qed.

Lemma scanPixel_nan_hit (img : list float) (ui : UI) (info info' : area.Info)
    (X Y k : Z) :
  0 <= k <= 3 ->
  0 <= (X + Y * w (renderSize ui)) * 4 ->
  img !! Z.to_nat ((X + Y * w (renderSize ui)) * 4 + k) = Some S754_nan ->
  scanPixel spaceOf img ui info X Y = Some info' ->
  channel k (area.mean (area.rgba info')) = S754_nan.
Proof.
  intros Hk Hi Hnan. unfold scanPixel.
  set (i := (X + Y * w (renderSize ui)) * 4) in *.
  replace (i + 0 <? 0) with false by lia. replace (i + 1 <? 0) with false by lia.
  replace (i + 2 <? 0) with false by lia. replace (i + 3 <? 0) with false by lia.
  destruct (img !! Z.to_nat (i + 0)) as [vb|] eqn:Eb; [|discriminate].
  destruct (img !! Z.to_nat (i + 1)) as [vg|] eqn:Eg; [|discriminate].
  destruct (img !! Z.to_nat (i + 2)) as [vr|] eqn:Er; [|discriminate].
  destruct (img !! Z.to_nat (i + 3)) as [va|] eqn:Ea; [|discriminate].
  cbn [mbind option_bind]. intros [= <-]. cbn [area.rgba]. rewrite accumulate_mean.
  cbn [r g b a].
  assert (Hcase : k = 0 \/ k = 1 \/ k = 2 \/ k = 3) by lia.
  destruct Hcase as [ -> | [ -> | [ -> | -> ] ] ]; cbn [channel r g b a];
    [injection (eq_trans (eq_sym Hnan) Eb) as <-
    |injection (eq_trans (eq_sym Hnan) Eg) as <-
    |injection (eq_trans (eq_sym Hnan) Er) as <-
    |injection (eq_trans (eq_sym Hnan) Ea) as <-]; apply add_nan_r.
Qed.

Lemma scanPixel_nan_keep (img : list float) (ui : UI) (info info' : area.Info)
    (X Y k : Z) :
  0 <= k <= 3 ->
  channel k (area.mean (area.rgba info)) = S754_nan ->
  scanPixel spaceOf img ui info X Y = Some info' ->
  channel k (area.mean (area.rgba info')) = S754_nan.
Proof.
  intros Hk Hnan. unfold scanPixel. intros E.
  repeat match type of E with
    | context [if ?c then None else ?l] => destruct (if c then None else l); [|discriminate E]
    end.
  cbn in E. injection E as <-. cbn [area.rgba]. rewrite accumulate_mean.
  assert (Hcase : k = 0 \/ k = 1 \/ k = 2 \/ k = 3) by lia.
  destruct Hcase as [ -> | [ -> | [ -> | -> ] ] ]; cbn [channel r g b a] in *; rewrite Hnan; reflexivity.
Qed.

Lemma div_nan_l (x : float) : (S754_nan / x)%f32 = S754_nan.
Proof. reflexivity. Qed.

(** X16.  A NaN in a channel of one pixel of the scanned region makes
    the mean of that channel of the RGBA statistics NaN, while no maximum
    and no minimum is ever NaN. *)
Theorem nan_pixel_poisons_the_mean (gl : GLPrivate) (ui : UI) (info info' : area.Info)
    (img : list float) (X Y k : Z) :
  image gl = Some img ->
  x (math.min (area.box info)) <= X < x (math.max (area.box info)) ->
  y (math.min (area.box info)) <= Y < y (math.max (area.box info)) ->
  0 <= k <= 3 ->
  0 <= (X + Y * w (renderSize ui)) * 4 ->
  img !! Z.to_nat ((X + Y * w (renderSize ui)) * 4 + k) = Some S754_nan ->
  _calculateColorArea spaceOf boxW boxH gl ui info = Some info' ->
  channel k (area.mean (area.rgba info')) = S754_nan /\
  each (fun c => F32.is_nan c = false) (area.max (area.rgba info')) /\
  each (fun c => F32.is_nan c = false) (area.min (area.rgba info')).
Proof.
  intros Himg HX HY Hk Hi Hnan Hres.
  destruct (color_area_extrema_bounded_aux spaceOf boxW boxH gl ui info info' img Himg Hres) as [[Bmax Bmin] _].
  split.
  - revert Hres. unfold _calculateColorArea. rewrite Himg. cbn [area.box].
    unfold math.bx, math.by_.
    match goal with
    | |- context [forEach ?body ?s0 ?l] =>
        destruct (forEach body s0 l) as [info1|] eqn:E; [|discriminate]
    end.
    cbn [mbind option_bind]. intros [= <-]. cbn [area.rgba finishStats area.mean].
    assert (N : channel k (area.mean (area.rgba info1)) = S754_nan).
    { revert E. apply (forEach_meets
        (fun i => channel k (area.mean (area.rgba i)) = S754_nan) _ _ Y).
      - apply in_seqZ. lia.
      - intros s s'. apply (forEach_meets
          (fun i => channel k (area.mean (area.rgba i)) = S754_nan) _ _ X).
        + apply in_seqZ. lia.
        + intros s1 s2. apply scanPixel_nan_hit; assumption.
        + intros s1 j s2 Hs1. apply scanPixel_nan_keep; assumption.
      - intros s j s' Hs. apply (forEach_invariant
          (fun i => channel k (area.mean (area.rgba i)) = S754_nan)); [|exact Hs].
        intros s1 j' s2 _ Hs1. apply scanPixel_nan_keep; assumption. }
    assert (Hcase : k = 0 \/ k = 1 \/ k = 2 \/ k = 3) by lia.
    destruct Hcase as [ -> | [ -> | [ -> | -> ] ] ]; cbn [channel r g b a] in *; rewrite N; reflexivity.
  - split.
    + destruct Bmax as (B1 & B2 & B3 & B4).
      repeat split; match goal with
        | B : SFleb _ ?c = true |- F32.is_nan ?c = false => destruct c; [reflexivity..|discriminate B|reflexivity]
        end.
    + destruct Bmin as (B1 & B2 & B3 & B4).
      repeat split; match goal with
        | B : SFleb ?c _ = true |- F32.is_nan ?c = false => destruct c; [reflexivity..|discriminate B|reflexivity]
        end.
Qed.

End AreaNaN.

(* ================================================================== *)
(** * More about the annotation passes and the overlays *)
(* ================================================================== *)

Section PassMatrices.
Import Viewport DrawSpec PassSpec.

Variable USE_OPENGL2 : bool.
Variable v : View.
Variable currentFrame : Z.

Lemma drawnMatrices_app (l1 l2 : list DrawEvent) :
  drawnMatrices (l1 ++ l2) = drawnMatrices l1 ++ drawnMatrices l2.
Proof.
  induction l1 as [|e l1 IH]; [reflexivity|].
  destruct e; cbn; rewrite ?IH; reflexivity.
Qed.

Lemma matrixAfter_app (rebuilds : nat -> bool) (tm m : math.Matrix4x4f) (d1 d2 : list nat) :
  matrixAfter rebuilds tm (matrixAfter rebuilds tm m d1) d2
    = matrixAfter rebuilds tm m (d1 ++ d2).
Proof.
  unfold matrixAfter. rewrite existsb_app.
  destruct (existsb rebuilds d1), (existsb rebuilds d2); reflexivity.
Qed.

Lemma matricesFrom_app (rebuilds : nat -> bool) (tm : math.Matrix4x4f) (d1 d2 : list nat) :
  forall m,
    matricesFrom rebuilds tm m (d1 ++ d2)
      = matricesFrom rebuilds tm m d1
        ++ matricesFrom rebuilds tm (matrixAfter rebuilds tm m d1) d2.
Proof.
  induction d1 as [|p d1 IH]; intros m; [reflexivity|].
  cbn [app matricesFrom]. rewrite IH. f_equal. f_equal. f_equal.
  unfold matrixAfter. cbn [existsb].
  destruct (rebuilds p); cbn [orb]; [|reflexivity].
  destruct (existsb rebuilds d1); reflexivity.
Qed.

Lemma stepsWith_refl (h0 : gmap nat Shape) (st : DrawState) :
  same_frozen (heap st) h0 -> stepsWith USE_OPENGL2 v h0 st st [].
Proof.
  intros Hsf. split; [assumption|]. exists []. rewrite app_nil_r.
  repeat split; constructor.
Qed.

Lemma stepsWith_trans (h0 : gmap nat Shape) (st1 st2 st3 : DrawState) (d1 d2 : list nat) :
  stepsWith USE_OPENGL2 v h0 st1 st2 d1 -> stepsWith USE_OPENGL2 v h0 st2 st3 d2 ->
  stepsWith USE_OPENGL2 v h0 st1 st3 (d1 ++ d2).
Proof.
  intros [_ (n1 & E1 & G1 & D1 & M1 & F1)] [Hsf (n2 & E2 & G2 & D2 & M2 & F2)].
  split; [assumption|]. exists (n1 ++ n2).
  rewrite E2, E1, <- app_assoc, drawnShapes_app, drawnMatrices_app, D1, D2, M1, M2, F2, F1.
  split; [reflexivity|]. split; [apply Forall_app; auto|]. split; [reflexivity|].
  split; [symmetry; apply matricesFrom_app|apply matrixAfter_app].
Qed.

Lemma foldl_stepsWith {A : Type} (h0 : gmap nat Shape)
    (step : DrawState -> A -> DrawState) (order : A -> list nat) (l : list A)
    (Hstep : forall a, In a l -> forall st, same_frozen (heap st) h0 ->
               stepsWith USE_OPENGL2 v h0 st (step st a) (order a)) :
  forall st, same_frozen (heap st) h0 ->
    stepsWith USE_OPENGL2 v h0 st (foldl step st l) (concat (map order l)).
Proof.
  induction l as [|a l IH]; intros st Hsf; [apply stepsWith_refl; assumption|].
  cbn [foldl map concat].
  pose proof (Hstep a (or_introl eq_refl) st Hsf) as Ha.
  eapply stepsWith_trans; [exact Ha|].
  apply IH; [|apply Ha]. intros b Hb. apply Hstep. right; assumption.
Qed.

Lemma concat_map_filter (sel : nat -> bool) (l : list nat) :
  concat (map (fun p => if sel p then [p] else []) l) = List.filter sel l.
Proof.
  induction l as [|p l IH]; [reflexivity|]. cbn. rewrite IH. destruct (sel p); reflexivity.
Qed.

Lemma same_frozen_rebuilds (h h0 : gmap nat Shape) (p : nat) :
  same_frozen h h0 -> rebuildsMatrix USE_OPENGL2 h p = rebuildsMatrix USE_OPENGL2 h0 p.
Proof.
  intros Hsf. unfold rebuildsMatrix. specialize (Hsf p).
  destruct (h !! p) as [s|], (h0 !! p) as [s0|]; try discriminate; [|reflexivity].
  cbn in Hsf. unfold frozen in Hsf. unfold is_GLTextShape.
  injection Hsf as -> -> _. reflexivity.
Qed.

Lemma drawShape_stepsWith (alphamult : float) (h0 : gmap nat Shape) (p : nat)
    (st : DrawState) :
  same_frozen (heap st) h0 ->
  stepsWith USE_OPENGL2 v h0 st (drawShape USE_OPENGL2 v alphamult st p)
            (if drawnByMain USE_OPENGL2 h0 p then [p] else []).
Proof.
  intros Hsf.
  rewrite <- (same_frozen_drawnByMain USE_OPENGL2 (heap st) h0 p Hsf).
  pose proof (same_frozen_rebuilds (heap st) h0 p Hsf) as Hr.
  unfold drawShape, drawnByMain. unfold rebuildsMatrix in Hr at 1.
  destruct (heap st !! p) as [s|] eqn:Es; [|apply stepsWith_refl; assumption].
  destruct (USE_OPENGL2 && is_GL2TextShape s); cbn [negb];
    [apply stepsWith_refl; assumption|].
  split.
  - cbn [heap]. eapply same_frozen_trans; [|exact Hsf].
    eapply same_frozen_insert; [exact Es|].
    unfold frozen, set_color_a, set_matrix, set_a; cbn. destruct (color s); reflexivity.
  - eexists. split; [reflexivity|]. split; [repeat constructor|]. split; [reflexivity|].
    cbn [drawnMatrices matricesFrom matrixAfter existsb mvp matrix set_color_a set_matrix].
    unfold matrixAfter. cbn [existsb]. rewrite orb_false_r, <- Hr. split; reflexivity.
Qed.

Lemma drawAnnotation_stepsWith (annotation : Annotation) (h0 : gmap nat Shape)
    (st : DrawState) :
  same_frozen (heap st) h0 ->
  stepsWith USE_OPENGL2 v h0 st (drawAnnotation USE_OPENGL2 v currentFrame st annotation)
            (if visible v currentFrame annotation
             then rev (List.filter (drawnByMain USE_OPENGL2 h0) (shapes annotation))
             else []).
Proof.
  intros Hsf. unfold drawAnnotation, visible.
  destruct (F32.eqb _ _); cbn [negb]; [apply stepsWith_refl; assumption|].
  rewrite <- filter_reverse, <- concat_map_filter.
  apply foldl_stepsWith; [|assumption].
  intros p _ st' Hsf'. apply drawShape_stepsWith. assumption.
Qed.

Lemma annotations_stepsWith (annotations : list Annotation) (st : DrawState) :
  stepsWith USE_OPENGL2 v (heap st) st
            (foldl (drawAnnotation USE_OPENGL2 v currentFrame) st annotations)
            (mainOrder USE_OPENGL2 v currentFrame (heap st) annotations).
Proof.
  apply (foldl_stepsWith (heap st) (drawAnnotation USE_OPENGL2 v currentFrame)
           (fun annotation =>
              if visible v currentFrame annotation
              then rev (List.filter (drawnByMain USE_OPENGL2 (heap st)) (shapes annotation))
              else [])); [|apply same_frozen_refl].
  intros an _ st' Hsf. apply drawAnnotation_stepsWith. assumption.
Qed.

End PassMatrices.

Section PassMatrixTheorems.
Import Viewport DrawSpec PassSpec.

Lemma emit_out (st : DrawState) (evs : list DrawEvent) : out (emit st evs) = out st ++ evs.
Proof. reflexivity. Qed.

Lemma main_pass_shape (USE_OPENGL2 : bool) (v : View) (player : TimelinePlayer)
    (st : DrawState) :
  let currentFrame := currentTime player in
  let annotations := getAnnotations player (ghostPrevious v) (ghostNext v) in
  let st' := _drawAnnotations USE_OPENGL2 v (Some player) st in
  let order := mainOrder USE_OPENGL2 v currentFrame (heap st) annotations in
  match annotations with
  | [] => st' = st
  | _ =>
      exists draws,
        out st' = out st ++ [GlStencilMask; GlClearStencil; GlEnableStencil] ++ draws
                         ++ [GlDisableStencil] /\
        Forall isDraw draws /\ drawnShapes draws = order /\
        drawnMatrices draws
          = matricesFrom (rebuildsMatrix USE_OPENGL2 (heap st)) (text_mvp v) (mvp st) order /\
        mvp st' = matrixAfter (rebuildsMatrix USE_OPENGL2 (heap st)) (text_mvp v) (mvp st) order
  end.
Proof.
  cbv zeta. unfold _drawAnnotations.
  set (currentFrame := currentTime player).
  destruct (getAnnotations player (ghostPrevious v) (ghostNext v)) as [|an ans];
    [reflexivity|].
  set (annotations := an :: ans).
  set (pre := [GlStencilMask; GlClearStencil; GlEnableStencil]).
  destruct (annotations_stepsWith USE_OPENGL2 v currentFrame annotations (emit st pre))
    as [_ (draws & E & G & D & M & F)].
  exists draws. cbn [emit out mvp heap] in *. rewrite E.
  rewrite <- !app_assoc. split; [reflexivity|]. split; [exact G|]. split; [exact D|].
  split; [exact M|exact F].
Qed.

(** X17.  With no annotation to draw, [_drawAnnotations] makes no call
    and changes nothing.  Otherwise its calls are, in order: the stencil
    mask, the stencil clear, the enabling of the stencil test, then shape
    draws only, then the disabling of the stencil test. *)
Theorem stencil_test_brackets_the_draws (USE_OPENGL2 : bool) (v : View)
    (player : TimelinePlayer) (st : DrawState) :
  let annotations := getAnnotations player (ghostPrevious v) (ghostNext v) in
  let st' := _drawAnnotations USE_OPENGL2 v (Some player) st in
  match annotations with
  | [] => st' = st
  | _ =>
      exists draws,
        out st' = out st ++ [GlStencilMask; GlClearStencil; GlEnableStencil] ++ draws
                         ++ [GlDisableStencil] /\
        Forall isDraw draws
  end.
Proof.
  intros annotations st'.
  pose proof (main_pass_shape USE_OPENGL2 v player st) as Hm. cbv zeta in Hm.
  fold annotations st' in Hm. destruct annotations; [exact Hm|].
  destruct Hm as (draws & E & G & _). exists draws. split; assumption.
Qed.

Lemma main_pass_matrices (USE_OPENGL2 : bool) (v : View)
    (player : TimelinePlayer) (st : DrawState) :
  let currentFrame := currentTime player in
  let annotations := getAnnotations player (ghostPrevious v) (ghostNext v) in
  let order := mainOrder USE_OPENGL2 v currentFrame (heap st) annotations in
  let rebuilds := rebuildsMatrix USE_OPENGL2 (heap st) in
  let st' := _drawAnnotations USE_OPENGL2 v (Some player) st in
  drawnMatrices (out st')
    = drawnMatrices (out st) ++ matricesFrom rebuilds (text_mvp v) (mvp st) order /\
  mvp st' = matrixAfter rebuilds (text_mvp v) (mvp st) order.
Proof.
  intros currentFrame annotations order rebuilds st'.
  pose proof (main_pass_shape USE_OPENGL2 v player st) as Hm. cbv zeta in Hm.
  fold currentFrame annotations order rebuilds st' in Hm.
  subst order. destruct annotations.
  - rewrite Hm. cbn. rewrite app_nil_r. split; reflexivity.
  - destruct Hm as (draws & E & _ & _ & M & F). split; [|exact F].
    rewrite E, !drawnMatrices_app, M. cbn. rewrite app_nil_r. reflexivity.
Qed.

(** X18.  [_drawAnnotations] receives [mvp] by reference and, in a
    build without [USE_OPENGL2], replaces it when it meets a text shape
    with a text: that shape and every shape drawn after it, in this and in
    later annotations, is drawn with the text matrix, and the text matrix
    is what the caller's [mvp] holds on return.  Until such a shape is
    drawn, and always in a build with [USE_OPENGL2], the draws use the
    matrix passed in and [mvp] is unchanged. *)
Theorem text_matrix_persists (USE_OPENGL2 : bool) (v : View)
    (player : TimelinePlayer) (st : DrawState) :
  let currentFrame := currentTime player in
  let annotations := getAnnotations player (ghostPrevious v) (ghostNext v) in
  let order := mainOrder USE_OPENGL2 v currentFrame (heap st) annotations in
  let rebuilds := rebuildsMatrix USE_OPENGL2 (heap st) in
  let st' := _drawAnnotations USE_OPENGL2 v (Some player) st in
  drawnMatrices (out st')
    = drawnMatrices (out st) ++ matricesFrom rebuilds (text_mvp v) (mvp st) order /\
  mvp st' = matrixAfter rebuilds (text_mvp v) (mvp st) order /\
  (forall h order', matrixAfter (rebuildsMatrix true h) (text_mvp v) (mvp st) order' = mvp st).
Proof.
  intros currentFrame annotations order rebuilds st'.
  destruct (main_pass_matrices USE_OPENGL2 v player st) as [H1 H2].
  split; [exact H1|]. split; [exact H2|].
  intros h order'. unfold matrixAfter.
  replace (existsb (rebuildsMatrix true h) order') with false; [reflexivity|].
  symmetry. induction order' as [|p l IH]; [reflexivity|]. cbn [existsb]. rewrite IH.
  unfold rebuildsMatrix. destruct (h !! p); reflexivity.
Qed.

End PassMatrixTheorems.

Section OverlayTheorems.
Import Viewport DrawSpec PassSpec Overlays.

(** X19.  The overlay calls of [draw] are, in order, the selection
    outline (when the selection is not a point), the calls of
    [_drawAnnotations] (when annotations are shown), the safe areas (when
    enabled) and the cursor.  The outline carries the matrix [draw] built;
    the cursor, drawn only below the mouse and outside the scrub, text and
    selection modes, carries the matrix [_drawAnnotations] left: the text
    matrix when a text shape with a text was drawn. *)
Theorem cursor_carries_the_matrix_the_annotations_leave (USE_OPENGL2 : bool) (v : View)
    (player : TimelinePlayer) (o : Overlay) (h : gmap nat Shape) (mvp : math.Matrix4x4f) :
  let currentFrame := currentTime player in
  let annotations := getAnnotations player (ghostPrevious v) (ghostNext v) in
  let order := mainOrder USE_OPENGL2 v currentFrame h annotations in
  let left_ := if showAnnotations o
               then matrixAfter (rebuildsMatrix USE_OPENGL2 h) (text_mvp v) mvp order
               else mvp in
  exists draws,
    snd (draw_overlays USE_OPENGL2 v (Some player) o h mvp)
      = (if math.Vector2i_neb (math.min (p_selection o)) (math.max (p_selection o))
         then [RectangleOutline (p_selection o) mvp] else [])
        ++ (Annotations <$> draws)
        ++ (if safeAreas o then [SafeAreas] else [])
        ++ _drawCursor o left_ /\
    (showAnnotations o = false -> draws = []) /\
    (forall pen m, In (Cursor pen m) (_drawCursor o left_) ->
       m = left_ /\ pen = F32.of_Z (kPenSize o) /\
       actionMode o = kOtherMode /\ belowmouse o = true).
Proof.
  intros currentFrame annotations order left_. unfold draw_overlays. cbn [snd].
  set (st := mkDrawState h mvp []).
  set (st' := if showAnnotations o then _drawAnnotations USE_OPENGL2 v (Some player) st else st).
  assert (Hmvp : Viewport.mvp st' = left_).
  { subst st' left_. destruct (showAnnotations o); [|reflexivity].
    destruct (main_pass_matrices USE_OPENGL2 v player st) as (_ & ->). reflexivity. }
  exists (out st'). rewrite Hmvp. split; [reflexivity|]. split.
  - intros Hs. subst st'. rewrite Hs. reflexivity.
  - intros pen m. unfold _drawCursor.
    destruct (actionMode o); cbn; try tauto.
    destruct (belowmouse o); cbn; [|tauto].
    intros [E|[]]. injection E as <- <-. auto.
Qed.

End OverlayTheorems.

Section PassGL2.
Import Viewport DrawSpec PassSpec.

Variable v : View.
Variable currentFrame : Z.

Lemma foldl_concat_stepsTo {A : Type} (good : DrawEvent -> Prop) (h0 : gmap nat Shape)
    (step : DrawState -> A -> DrawState) (order : A -> list nat) (l : list A)
    (Hstep : forall a, In a l -> forall st, same_frozen (heap st) h0 ->
               stepsTo good h0 st (step st a) (order a)) :
  forall st, same_frozen (heap st) h0 ->
    stepsTo good h0 st (foldl step st l) (concat (map order l)).
Proof.
  induction l as [|a l IH]; intros st Hsf; [apply stepsTo_refl; assumption|].
  cbn [foldl map concat].
  pose proof (Hstep a (or_introl eq_refl) st Hsf) as Ha.
  eapply stepsTo_trans; [exact Ha|].
  apply IH; [|apply Ha]. intros b Hb. apply Hstep. right; assumption.
Qed.

Lemma drawShapeGL2_stamped (alphamult : float) (h0 : gmap nat Shape) (p : nat)
    (st : DrawState) :
  same_frozen (heap st) h0 ->
  stepsTo (stamped v) h0 st (drawShapeGL2 v alphamult st p)
          (if drawnByGL2 h0 p then [p] else []) /\
  mvp (drawShapeGL2 v alphamult st p) = mvp st.
Proof.
  intros Hsf.
  rewrite <- (same_frozen_drawnByGL2 (heap st) h0 p Hsf).
  unfold drawShapeGL2, drawnByGL2.
  destruct (heap st !! p) as [s|] eqn:Es; [|split; [apply stepsTo_refl; assumption|reflexivity]].
  destruct (is_GL2TextShape s) eqn:Et; cbn [negb];
    [|split; [apply stepsTo_refl; assumption|reflexivity]].
  split; [|reflexivity]. split.
  - cbn [heap]. eapply same_frozen_trans; [|exact Hsf].
    eapply same_frozen_insert; [exact Es|].
    unfold frozen, set_color_a, set_matrix, set_gl2, set_a; cbn.
    destruct (color s); reflexivity.
  - eexists. split; [reflexivity|]. split; [reflexivity|].
    constructor; [|constructor]. cbn. repeat split. exact Et.
Qed.

Lemma foldl_mvp {A : Type} (step : DrawState -> A -> DrawState) (l : list A) :
  (forall st a, mvp (step st a) = mvp st) ->
  forall st, mvp (foldl step st l) = mvp st.
Proof.
  intros Hstep. induction l as [|a l IH]; intros st; [reflexivity|].
  cbn [foldl]. rewrite IH. apply Hstep.
Qed.

Lemma drawAnnotationGL2_stamped (annotation : Annotation) (h0 : gmap nat Shape)
    (st : DrawState) :
  same_frozen (heap st) h0 ->
  stepsTo (stamped v) h0 st (drawAnnotationGL2 v currentFrame st annotation)
          (if visible v currentFrame annotation
           then List.filter (drawnByGL2 h0) (shapes annotation)
           else []) /\
  mvp (drawAnnotationGL2 v currentFrame st annotation) = mvp st.
Proof.
  intros Hsf. unfold drawAnnotationGL2, visible.
  destruct (F32.eqb _ _); cbn [negb]; [split; [apply stepsTo_refl; assumption|reflexivity]|].
  split.
  - apply foldl_stepsTo; [|assumption].
    intros p _ st' Hsf'. apply drawShapeGL2_stamped. assumption.
  - apply foldl_mvp. intros st' p. unfold drawShapeGL2.
    destruct (heap st' !! p) as [s|]; [|reflexivity].
    destruct (is_GL2TextShape s); reflexivity.
Qed.

End PassGL2.

Section PassGL2Theorem.
Import Viewport DrawSpec PassSpec.

(** X20.  [_drawAnnotationsGL2] makes the stencil mask and clear calls
    and then draws only GL2 text shapes, each carrying the current
    [pixels_per_unit], window size and zoom and the GL2 matrix, in the
    stored order of each visible annotation; it never switches the stencil
    test, leaves [mvp] alone, and with no annotation changes nothing. *)
Theorem gl2_pass_stamps_the_view (v : View) (player : TimelinePlayer) (st : DrawState) :
  let currentFrame := currentTime player in
  let annotations := getAnnotations player (ghostPrevious v) (ghostNext v) in
  let st' := _drawAnnotationsGL2 v (Some player) st in
  (exists new,
     out st' = out st ++ new /\ Forall (stamped v) new /\
     drawnShapes new = gl2Order v currentFrame (heap st) annotations) /\
  mvp st' = mvp st /\
  match annotations with [] => st' = st | _ => True end.
Proof.
  intros currentFrame annotations st'. subst st'. unfold _drawAnnotationsGL2.
  fold currentFrame annotations.
  set (pre := [GlStencilMask; GlClearStencil]).
  assert (S1 : stepsTo (stamped v) (heap st) st (emit st pre) []).
  { apply emit_steps; [apply same_frozen_refl|reflexivity|repeat constructor]. }
  assert (S2 : stepsTo (stamped v) (heap st) (emit st pre)
                 (foldl (drawAnnotationGL2 v currentFrame) (emit st pre) annotations)
                 (gl2Order v currentFrame (heap st) annotations)).
  { apply (foldl_concat_stepsTo (stamped v) (heap st) (drawAnnotationGL2 v currentFrame)
             (fun annotation =>
                if visible v currentFrame annotation
                then List.filter (drawnByGL2 (heap st)) (shapes annotation) else []));
      [|apply S1].
    intros an _ st' Hsf. apply drawAnnotationGL2_stamped. assumption. }
  assert (M2 : mvp (foldl (drawAnnotationGL2 v currentFrame) (emit st pre) annotations)
               = mvp st).
  { rewrite foldl_mvp; [reflexivity|].
    intros st' an. apply drawAnnotationGL2_stamped with (h0 := heap st'). apply same_frozen_refl. }
  destruct (stepsTo_trans _ _ _ _ _ _ _ S1 S2) as (_ & new & E & D & G).
  destruct annotations as [|an ans] eqn:Ea.
  - split; [|split; [reflexivity|reflexivity]].
    exists []. rewrite app_nil_r. repeat split. constructor.
  - split; [|split; [exact M2|exact I]].
    exists new. repeat split; assumption.
Qed.

End PassGL2Theorem.

Section PassExactlyOnce.
Import Viewport DrawSpec PassSpec.

Lemma passes_split_the_live_shapes (h : gmap nat Shape) (l : list nat) :
  rev (List.filter (drawnByMain true h) l) ++ List.filter (drawnByGL2 h) l
    ≡ₚ List.filter (live h) l.
Proof.
  rewrite <- Permutation_rev.
  induction l as [|p l IH]; [reflexivity|]. cbn [List.filter].
  unfold drawnByMain, drawnByGL2, live at 1. destruct (h !! p) as [s|]; [|exact IH].
  cbn [andb]. destruct (is_GL2TextShape s); cbn [negb].
  - rewrite <- Permutation_middle. constructor. exact IH.
  - cbn [app]. constructor. exact IH.
Qed.

Lemma concat_map_app_Permutation {A : Type} (f g k : A -> list nat) (l : list A) :
  (forall a, f a ++ g a ≡ₚ k a) ->
  concat (map f l) ++ concat (map g l) ≡ₚ concat (map k l).
Proof.
  intros Hk. induction l as [|a l IH]; [reflexivity|]. cbn [map concat].
  rewrite <- (Hk a), <- IH.
  rewrite <- !app_assoc. apply Permutation_app_head.
  rewrite !app_assoc. apply Permutation_app_tail. apply Permutation_app_comm.
Qed.

Lemma gl2Order_same_frozen (v : View) (currentFrame : Z) (h h0 : gmap nat Shape)
    (annotations : list Annotation) :
  same_frozen h h0 ->
  gl2Order v currentFrame h annotations = gl2Order v currentFrame h0 annotations.
Proof.
  intros Hsf. unfold gl2Order. f_equal. apply map_ext. intros an.
  destruct (visible v currentFrame an); [|reflexivity].
  apply filter_ext. intros p. apply same_frozen_drawnByGL2. exact Hsf.
Qed.

(** X21.  In a build with [USE_OPENGL2], one [draw] with annotations
    shown draws every live shape of every visible annotation exactly once,
    counted with multiplicity: the main pass draws the shapes that are not
    GL2 text shapes, the GL2 pass the others. *)
Theorem each_live_shape_is_drawn_once (v : View) (player : TimelinePlayer)
    (st : DrawState) :
  let currentFrame := currentTime player in
  let annotations := getAnnotations player (ghostPrevious v) (ghostNext v) in
  let st' := draw_annotations true v true true (Some player) st in
  exists new,
    out st' = out st ++ new /\
    drawnShapes new ≡ₚ visibleShapes v currentFrame (heap st) annotations /\
    drawnShapes new
      = mainOrder true v currentFrame (heap st) annotations
        ++ gl2Order v currentFrame (heap st) annotations.
Proof.
  intros currentFrame annotations st'. subst st'. unfold draw_annotations. cbn [andb].
  set (st1 := _drawAnnotations true v (Some player) st).
  pose proof (drawAnnotations_steps true v currentFrame player st eq_refl) as S1.
  cbv zeta in S1. fold annotations st1 in S1.
  pose proof (drawAnnotationsGL2_steps v currentFrame player st1 eq_refl) as S2.
  cbv zeta in S2. fold annotations in S2.
  assert (Hsf : same_frozen (heap st1) (heap st)) by apply S1.
  rewrite (gl2Order_same_frozen _ _ _ _ _ Hsf) in S2.
  apply (fun S => stepsTo_rebase v currentFrame annotations (heap st) _ _ _ S Hsf) in S2.
  destruct (stepsTo_trans _ _ _ _ _ _ _ S1 S2) as (_ & new & E & D & _).
  exists new. split; [exact E|]. split; [|exact D].
  rewrite D. unfold mainOrder, gl2Order, visibleShapes.
  apply concat_map_app_Permutation. intros an.
  destruct (visible v currentFrame an); [|reflexivity].
  apply passes_split_the_live_shapes.
Qed.

End PassExactlyOnce.

(* ================================================================== *)
(** * The pixel read-out *)
(* ================================================================== *)

Section ReadoutTheorems.
Import Viewport Readout ReadoutSpec.
Context `{ColorSpaces}.
Variable isValid : Image -> bool.
Variable defaultColor : Color4f.

Lemma release_spec (gl : GLPrivate) :
  release gl =
    (set_image gl None,
     (if image gl is Some _ then [Ring GlUnmapBuffer] else []) ++ [Ring GlBindPackBuffer0]) \/
  (image gl = None /\ release gl = (gl, [Ring GlBindPackBuffer0])).
Proof.
  unfold release. destruct (image gl) eqn:E; [left; reflexivity|right; auto].
Qed.

Lemma reachable_unmap (gl : GLPrivate) : reachable gl -> reachable (set_image gl None).
Proof. intros Hr. exact (reachable_step gl OpUnmap Hr). Qed.

Lemma reachable_advance (dev : Device) (gl : GLPrivate) :
  reachable gl ->
  reachable (mkGLPrivate ((index gl + 1) mod 2) (((index gl + 1) mod 2 + 1) mod 2)
                         (dev (((index gl + 1) mod 2 + 1) mod 2))).
Proof. intros Hr. exact (reachable_step gl (OpBindReadImage dev) Hr). Qed.

(** X22.  Whenever [_readPixel] returns: a viewport state that the ring
    operations can reach stays one; nothing is left mapped unless a buffer
    was mapped at the call; a buffer is mapped only when none was, after a
    read-back into the other slot, and is unmapped before the return if the
    mapping succeeded; an unmap is issued only for a buffer mapped at the
    call or by the call; and the ring index moves only on the path without
    direct read, with a valid window, the full pixel value, an offscreen
    buffer and nothing mapped. *)
Theorem read_pixel_releases_what_it_maps (dev : Device) (glReadPixels : Z -> Z -> Color4f)
    (p : Probe) (rgba rgba' : Color4f) (gl gl' : GLPrivate) (calls : list Call) :
  _readPixel isValid defaultColor dev glReadPixels p rgba gl = Some (rgba', gl', calls) ->
  (reachable gl -> reachable gl') /\
  (image gl = None -> image gl' = None) /\
  (forall slot, In (Ring (GlMapBuffer slot)) calls ->
     image gl = None /\ slot = nextIndex gl' /\
     In (Ring (GlReadPixels (index gl'))) calls /\ slot <> index gl' /\
     (dev slot <> None -> In (Ring GlUnmapBuffer) calls)) /\
  (In (Ring GlUnmapBuffer) calls ->
     image gl' = None /\
     (image gl <> None \/ exists slot, In (Ring (GlMapBuffer slot)) calls /\ dev slot <> None)) /\
  (index gl' <> index gl ->
     valid p = true /\ pixelValueFull p = true /\ gl_buffer p <> None /\
     update (p_timelinePlayers p) = false /\ image gl = None).
Proof.
  unfold _readPixel.
  destruct (valid p) eqn:Ev; cbn [negb].
  2:{ intros [= <- <- <-]. split; [|split; [|split; [|split]]]; auto.
      - intros slot [].
      - intros [].
      - intros Hne. contradiction Hne. reflexivity. }
  destruct (pixelValueFull p) eqn:Ef; cbn [negb].
  - destruct (gl_buffer p) as [renderSize|] eqn:Eb.
    2:{ intros [= <- <- <-]. split; [|split; [|split; [|split]]]; auto.
        - intros slot [].
        - intros [].
        - intros Hne. contradiction Hne. reflexivity. }
    destruct (update (p_timelinePlayers p)) eqn:Eu.
    { intros [= <- <- <-]. split; [|split; [|split; [|split]]]; auto.
      - intros slot [E|[]]. discriminate E.
      - intros [E|[]]. discriminate E.
      - intros Hne. contradiction Hne. reflexivity. }
    destruct (image gl) as [img|] eqn:Eimg.
    + rewrite Eimg. destruct (mappedPixel img renderSize (mousePixel p)); [|discriminate].
      cbn [mbind option_bind]. unfold release. rewrite Eimg.
      intros [= <- <- <-]. cbn [app].
      split; [|split; [|split; [|split]]].
      * apply reachable_unmap.
      * discriminate.
      * intros slot [E|[E|[]]]; discriminate E.
      * intros _. split; [reflexivity|left; discriminate].
      * cbn. intros Hne. contradiction Hne. reflexivity.
    + cbn [image]. set (i := (index gl + 1) mod 2). set (n := (i + 1) mod 2).
      assert (Hni : n <> i) by (subst n i; zmod).
      destruct (dev n) as [img|] eqn:Edev.
      * destruct (mappedPixel img renderSize (mousePixel p)); [|discriminate].
        cbn [mbind option_bind]. unfold release. cbn [image set_image].
        intros [= <- <- <-]. cbn [app image index nextIndex].
        split; [|split; [|split; [|split]]].
        -- intros Hr. apply (reachable_unmap (mkGLPrivate i n (Some img))).
           rewrite <- Edev. apply reachable_advance. exact Hr.
        -- reflexivity.
        -- intros slot [E|[E|[E|[E|[]]]]]; try discriminate E. injection E as <-.
           split; [reflexivity|]. split; [reflexivity|]. split; [left; reflexivity|].
           split; [exact Hni|]. intros _. right. right. left. reflexivity.
        -- intros _. split; [reflexivity|]. right. exists n.
           split; [right; left; reflexivity|congruence].
        -- intros _. repeat split; auto; discriminate.
      * cbn [mbind option_bind]. unfold release. cbn [image].
        intros [= <- <- <-]. cbn [app image index nextIndex].
        split; [|split; [|split; [|split]]].
        -- intros Hr. rewrite <- Edev. apply reachable_advance. exact Hr.
        -- reflexivity.
        -- intros slot [E|[E|[E|[]]]]; try discriminate E. injection E as <-.
           split; [reflexivity|]. split; [reflexivity|]. split; [left; reflexivity|].
           split; [exact Hni|]. intros Hc. contradiction.
        -- intros [E|[E|[E|[]]]]; discriminate E.
        -- intros _. repeat split; auto; discriminate.
  - match goal with
    | |- context [forEachOf ?body ?s0 ?l] => destruct (forEachOf body s0 l); [|discriminate]
    end.
    cbn [mbind option_bind]. unfold release.
    destruct (image gl) as [img|] eqn:Eimg; intros [= <- <- <-]; cbn [app];
      (split; [|split; [|split; [|split]]]).
    + apply reachable_unmap.
    + discriminate.
    + intros slot [E|[E|[]]]; discriminate E.
    + intros _. split; [reflexivity|left; discriminate].
    + cbn. intros Hne. contradiction Hne. reflexivity.
    + auto.
    + auto.
    + intros slot [E|[]]. discriminate E.
    + intros [E|[]]. discriminate E.
    + intros Hne. contradiction Hne. reflexivity.
Qed.


Lemma mappedPixel_reads (img : list float) (renderSize : Size) (pos : Vector2i)
    (vb vg vr va : float) :
  let i := (x pos + y pos * w renderSize) * 4 in
  0 <= i ->
  img !! Z.to_nat i = Some vb -> img !! Z.to_nat (i + 1) = Some vg ->
  img !! Z.to_nat (i + 2) = Some vr -> img !! Z.to_nat (i + 3) = Some va ->
  mappedPixel img renderSize pos = Some (mkColor4f vr vg vb va).
Proof.
  intros i Hi Eb Eg Er Ea. unfold mappedPixel. fold i.
  replace (i + 0 <? 0) with false by lia. replace (i + 1 <? 0) with false by lia.
  replace (i + 2 <? 0) with false by lia. replace (i + 3 <? 0) with false by lia.
  rewrite Z.add_0_r, Eb, Eg, Er, Ea. reflexivity.
Qed.

(** X23.  With the full pixel value and no direct read, [_readPixel]
    called after [_bindReadImage] has mapped a buffer starts no read-back
    of its own: it reads the four floats of the mouse pixel from that
    buffer, stored as B, G, R, A, unmaps it and unbinds the pack buffer.
    Called with nothing mapped it makes the calls of [_bindReadImage]
    first, and returns the same pixel and state. *)
Theorem read_pixel_reuses_the_mapped_buffer (dev : Device) (glReadPixels : Z -> Z -> Color4f)
    (p : Probe) (rgba : Color4f) (gl : GLPrivate) (renderSize : Size) (img : list float)
    (vb vg vr va : float) :
  let gl1 := fst (_bindReadImage dev gl) in
  let i := mappedIndex p renderSize in
  valid p = true -> pixelValueFull p = true -> gl_buffer p = Some renderSize ->
  update (p_timelinePlayers p) = false ->
  dev (nextIndex gl1) = Some img ->
  0 <= i ->
  img !! Z.to_nat i = Some vb -> img !! Z.to_nat (i + 1) = Some vg ->
  img !! Z.to_nat (i + 2) = Some vr -> img !! Z.to_nat (i + 3) = Some va ->
  _readPixel isValid defaultColor dev glReadPixels p rgba gl1
    = Some (mkColor4f vr vg vb va, set_image gl1 None,
            [Ring GlUnmapBuffer; Ring GlBindPackBuffer0]) /\
  (image gl = None ->
   _readPixel isValid defaultColor dev glReadPixels p rgba gl
     = Some (mkColor4f vr vg vb va, set_image gl1 None,
             (Ring <$> snd (_bindReadImage dev gl))
             ++ [Ring GlUnmapBuffer; Ring GlBindPackBuffer0])).
Proof.
  intros gl1 i Hv Hf Hb Hu Hdev Hi Eb Eg Er Ea.
  pose proof (mappedPixel_reads img renderSize (mousePixel p) vb vg vr va Hi Eb Eg Er Ea) as Hm.
  assert (Himg : image gl1 = Some img) by exact Hdev.
  split.
  - unfold _readPixel. rewrite Hv, Hf, Hb, Hu. cbn [negb]. rewrite Himg. cbv beta iota zeta.
    rewrite Himg, Hm. cbn [mbind option_bind]. unfold release. rewrite Himg. reflexivity.
  - intros Eimg.
    unfold _readPixel. rewrite Hv, Hf, Hb, Hu. cbn [negb]. rewrite Eimg.
    change (mkGLPrivate ((index gl + 1) mod 2) (((index gl + 1) mod 2 + 1) mod 2)
                        (dev (((index gl + 1) mod 2 + 1) mod 2))) with gl1.
    cbv beta iota zeta. rewrite Himg, Hm. cbn [mbind option_bind]. unfold release.
    rewrite Himg. reflexivity.
Qed.

Lemma forEachOf_ext {S A : Type} (f g : S -> A -> option S) (l : list A) :
  (forall s a, f s a = g s a) -> forall s, forEachOf f s l = forEachOf g s l.
Proof.
  intros Hfg. induction l as [|a l IH]; intros s; [reflexivity|].
  cbn [forEachOf]. rewrite Hfg. destruct (g s a); [apply IH|reflexivity].
Qed.

Lemma forEachOf_map {S A B : Type} (f : S -> B -> option S) (h : A -> B) (l : list A) :
  forall s, forEachOf f s (map h l) = forEachOf (fun s a => f s (h a)) s l.
Proof.
  induction l as [|a l IH]; intros s; [reflexivity|].
  cbn [map forEachOf]. destruct (f s (h a)); [apply IH|reflexivity].
Qed.

(** X24.  The layer read-out never reads the B image of a layer, nor
    the value [rgba] had at the call: replacing every layer's B image and
    the incoming colour changes nothing.  A dissolve blends the decoded
    pixel of the A image with itself, with weights [1 - f2] and [f2]. *)
Theorem layer_readout_never_reads_image_b (dev : Device) (glReadPixels : Z -> Z -> Color4f)
    (p : Probe) (f : VideoLayer -> Image) (rgba rgba' : Color4f) (gl : GLPrivate) :
  valid p = true -> pixelValueFull p = false ->
  _readPixel isValid defaultColor dev glReadPixels (replaceB f p) rgba' gl
    = _readPixel isValid defaultColor dev glReadPixels p rgba gl /\
  (forall pos sum layer px,
     isValid (layer_image layer) = true -> transition layer = Dissolve ->
     PixelProbe._getPixelValue (mirror_x p) (mirror_y p) defaultColor (layer_image layer) pos
       = Some px ->
     readLayer isValid defaultColor p pos sum layer
       = Some (addPixel sum (dissolve (dissolveWeight (transitionValue layer))
                                      (transitionValue layer) px px))).
Proof.
  intros Hv Hf. split.
  - unfold _readPixel.
    change (valid (replaceB f p)) with (valid p).
    change (pixelValueFull (replaceB f p)) with (pixelValueFull p).
    rewrite Hv, Hf. cbn [negb].
    change (mousePixel (replaceB f p)) with (mousePixel p).
    unfold replaceB at 2. cbn [p_videoData]. rewrite forEachOf_map.
    rewrite (forEachOf_ext _
               (fun rgba video => forEachOf (readLayer isValid defaultColor p (mousePixel p))
                                            rgba (layers video))); [reflexivity|].
    intros s video. cbn [layers]. rewrite forEachOf_map. apply forEachOf_ext.
    intros s' layer. reflexivity.
  - intros pos sum layer px Hval Htr Hpx. unfold readLayer.
    rewrite Hval. cbn [negb]. rewrite Hpx. cbn [mbind option_bind]. rewrite Htr. reflexivity.
Qed.

End ReadoutTheorems.

(* ================================================================== *)
(** * The HUD *)
(* ================================================================== *)

Section HudLayout.
Import Hud HudSpec.

Variable lh : Z.
Variable c : Color4f.

Lemma stacked_app (l1 l2 : list string) :
  forall y, stacked lh c y (l1 ++ l2)
            = stacked lh c y l1 ++ stacked lh c (y + lh * Z.of_nat (length l1)) l2.
Proof.
  induction l1 as [|g l1 IH]; intros y.
  - cbn [app stacked length]. f_equal. lia.
  - cbn [app stacked length]. rewrite IH.
    replace (y + lh * Z.of_nat (S (length l1))) with (y + lh + lh * Z.of_nat (length l1))
      by lia.
    reflexivity.
Qed.

Lemma line_after (text : string) (lines : list string) :
  line text lh c (after lh c lines) = after lh c (lines ++ [text]).
Proof.
  unfold line, after, _drawText. cbn [x y]. rewrite stacked_app, length_app.
  cbn [stacked length].
  replace (lh * 2 + lh * Z.of_nat (length lines) + lh)
    with (lh * 2 + lh * Z.of_nat (length lines + 1)) by lia.
  reflexivity.
Qed.

Lemma step_if (b : bool) (text : string) (lines : list string) :
  (if b then line text lh c (after lh c lines) else after lh c lines)
    = after lh c (lines ++ if b then [text] else []).
Proof. destruct b; [apply line_after|rewrite app_nil_r; reflexivity]. Qed.

Lemma drawTag_fits (st : Vector2i * list Call) (tag : string * string) :
  drawTag lh c st tag
    = if fits (attributeText tag)
      then Some (line (c_str (attributeText tag)) lh c st) else None.
Proof.
  unfold drawTag, sprintf, fits. destruct (_ <? _)%nat; reflexivity.
Qed.

(** The loop over the tags: it stops at the first attribute that does
    not fit [buf]. *)
Lemma step_tags (tags : list (string * string)) :
  forall lines,
    Readout.forEachOf (drawTag lh c) (after lh c lines) tags
      = if forallb fits (map attributeText tags)
        then Some (after lh c (lines ++ map (fun tag => c_str (attributeText tag)) tags))
        else None.
Proof.
  induction tags as [|tag tags IH]; intros lines; cbn [Readout.forEachOf map forallb].
  - rewrite app_nil_r. reflexivity.
  - rewrite drawTag_fits.
    destruct (fits (attributeText tag)); cbn [mbind option_bind andb]; [|reflexivity].
    rewrite line_after, IH, <- app_assoc. reflexivity.
Qed.

(** A text read back from [buf] after a literal that starts with a
    letter is not empty. *)
Lemma appended_not_empty (tmp : string) (ch : Ascii.ascii) (rest : string) :
  Ascii.eqb ch Ascii.zero = false ->
  empty (tmp ++ c_str (String ch rest)) = false.
Proof.
  intros Hch. cbn [c_str]. rewrite Hch. destruct tmp; reflexivity.
Qed.

Lemma length_append (s1 s2 : string) :
  String.length (s1 ++ s2) = (String.length s1 + String.length s2)%nat.
Proof.
  induction s1 as [|ch s1 IH]; [reflexivity|].
  change (S (String.length (s1 ++ s2)) = S (String.length s1 + String.length s2)).
  rewrite IH. reflexivity.
Qed.

End HudLayout.

Section HudTheorem.
Import Hud HudSpec.

Variable decimal : Z -> string.
Variable fmt_3g : float -> string.
Variable fmt_3f : spec_float -> string.

Ltac fit t :=
  try (change (sprintf t) with (if fits t then Some t else None);
       destruct (fits t); cbn [mbind option_bind forallb andb app]; [|reflexivity]).

Ltac not_empty :=
  match goal with
  | |- context [empty ?t] =>
      let E := fresh "E" in
      assert (E : empty t = false) by (apply appended_not_empty; reflexivity);
      rewrite E; clear E; cbn [negb]
  end.

(** X25.  [_drawHUD] draws the enabled lines in a fixed order:
    directory, file name, resolution, one status line that joins the frame,
    range, timecode and FPS texts, frame count, then one line per
    attribute.  The directory and the file name are drawn as they are, also
    when empty; the status line is drawn exactly when one of its four flags
    is set.  The lines are stacked from [y = 2 * lineHeight] one line
    height apart at [x = 20], each drawn twice: first its shadow two pixels
    to the right and below, then the label.  Every formatted text goes
    through [char buf[128]]: the calls are made when each has fewer than
    128 characters, and a longer one is written past the array, as is an
    attribute whose key and value have 125 characters or more together. *)
Theorem hud_lines_are_stacked (hud : HudDisplay) (s : Source) (labelColor : Color4f) :
  _drawHUD decimal fmt_3g fmt_3f hud s labelColor
    = (if forallb fits (formatted decimal fmt_3g fmt_3f hud s)
       then Some (stacked (lineHeight s) labelColor (lineHeight s * 2)
                          (hudLines decimal fmt_3g fmt_3f hud s))
       else None) /\
  (forall tag,
     kAttributes hud = true -> In tag (tags s) ->
     (125 <= String.length (c_str (fst tag)) + String.length (c_str (snd tag)))%nat ->
     _drawHUD decimal fmt_3g fmt_3f hud s labelColor = None) /\
  forall y lines1 text lines2,
    stacked (lineHeight s) labelColor y (lines1 ++ text :: lines2)
      = stacked (lineHeight s) labelColor y lines1
        ++ DrawText text (mkVector2i 22 (y + lineHeight s * Z.of_nat (length lines1) + 2))
                    shadowColor
        :: DrawText text (mkVector2i 20 (y + lineHeight s * Z.of_nat (length lines1)))
                    labelColor
        :: stacked (lineHeight s) labelColor
                   (y + lineHeight s * Z.of_nat (length (lines1 ++ [text]))) lines2.
Proof.
  assert (Main :
    _drawHUD decimal fmt_3g fmt_3f hud s labelColor
    = (if forallb fits (formatted decimal fmt_3g fmt_3f hud s)
       then Some (stacked (lineHeight s) labelColor (lineHeight s * 2)
                          (hudLines decimal fmt_3g fmt_3f hud s))
       else None)).
  { unfold _drawHUD. set (lh := lineHeight s).
    change (mkVector2i 20 (lh * 2), @nil Call) with
      (mkVector2i 20 (lh * 2), stacked lh labelColor (lh * 2) []).
    replace (mkVector2i 20 (lh * 2))
      with (mkVector2i 20 (lh * 2 + lh * Z.of_nat (@length string [])))
      by (cbn; f_equal; lia).
    fold (after lh labelColor []).
    rewrite (step_if lh labelColor (kDirectory hud)).
    rewrite (step_if lh labelColor (kFilename hud)).
    unfold hudLines, formatted, statusParts, appendFormatted, frameCountText, joined.
    cbn [app].
    destruct (kResolution hud), (kFrame hud), (kFrameRange hud), (kTimecode hud),
             (kFPS hud), (kFrameCount hud), (kAttributes hud);
      cbv zeta; cbn [mbind option_bind forallb andb app orb foldl map];
      fit (resolutionText decimal fmt_3g s);
      fit ("F: " ++ decimal (frame s) ++ " ")%string;
      fit ("Range: " ++ decimal (range_first s) ++ " -  " ++ decimal (range_last s))%string;
      fit ("TC: " ++ c_str (timecode s) ++ " ")%string;
      fit ("FPS: " ++ fmt_3f (fps s))%string;
      fit ("FC: " ++ decimal (duration s))%string;
      repeat not_empty;
      cbn [empty negb];
      rewrite ?line_after, ?step_tags;
      try (destruct (forallb fits (map attributeText (tags s))); [|reflexivity]);
      cbn [mbind option_bind];
      unfold after; cbn [snd]; rewrite <- ?app_assoc, ?app_nil_r; reflexivity. }
  split; [exact Main|]. split.
  - intros tag Hattr Hin Hlen. rewrite Main.
    assert (Hover : forallb fits (formatted decimal fmt_3g fmt_3f hud s) = false);
      [|rewrite Hover; reflexivity].
    apply not_true_is_false. intros Hall. rewrite forallb_forall in Hall.
    assert (Hfit : fits (attributeText tag) = true).
    { apply Hall. unfold formatted. rewrite Hattr.
      rewrite !in_app_iff. right. right. right. apply in_map. exact Hin. }
    unfold fits, attributeText in Hfit. apply Nat.ltb_lt in Hfit.
    rewrite !length_append in Hfit. cbn [String.length] in Hfit. lia.
  - intros y lines1 text lines2. rewrite stacked_app. cbn [stacked].
    rewrite length_app. cbn [length].
    replace (y + lineHeight s * Z.of_nat (length lines1) + lineHeight s)
      with (y + lineHeight s * Z.of_nat (length lines1 + 1)) by lia.
    reflexivity.
Qed.

End HudTheorem.

(* ================================================================== *)
(** * The range of the ghost alpha *)
(* ================================================================== *)

Section GhostRange.
Import Binary32 Viewport.

(** Rounding a positive integer below [2^-e - 2^23], scaled by [2^e],
    gives a positive float with an exponent of -24 or less: a float
    below 1. *)
Lemma round_below_one (p : positive) (e : Z) :
  -40 <= e <= -24 -> Z.pos p <= 2 ^ (- e) - 8388608 ->
  exists m e', binary_round 24 128 false p e = S754_finite false m e' /\ e' <= -24.
Proof.
  intros He Hp. pose proof (digits2_pos_bounds p) as [Blo Bhi].
  set (d := Z.pos (digits2_pos p)) in *.
  assert (Hd : 1 <= d <= - e).
  { split; [subst d; lia|].
    destruct (Z_le_gt_dec d (- e)) as [|Hgt]; [assumption|].
    assert (2 ^ (- e) <= 2 ^ (d - 1)) by (apply Z.pow_le_mono_r; lia). lia. }
  unfold binary_round. fold d. rewrite fexp_normal by lia.
  unfold shl_align. replace (d + e - 24 - e) with (d - 24) by lia.
  destruct (d - 24) as [|n|n] eqn:En.
  - rewrite binary_round_aux_24; [|apply Pos2Z.inj; fold d; lia|lia].
    exists p, e. split; [reflexivity|lia].
  - rewrite binary_round_aux_finish.
    unfold shr_fexp. cbn [Zdigits2]. fold d. rewrite fexp_normal by lia.
    replace (d + e - 24 - e) with (Z.pos n) by lia. cbn [shr fst snd].
    set (mrs := SpecFloat.iter_pos shr_1 n (shr_record_of_loc (Z.pos p) loc_Exact)).
    assert (Hm : shr_m mrs = Z.pos p / 2 ^ Z.pos n).
    { subst mrs. rewrite iter_shr_1 by (cbn; lia). reflexivity. }
    assert (Hpow : 2 ^ d = 16777216 * 2 ^ Z.pos n).
    { replace d with (24 + Z.pos n) by lia. rewrite Z.pow_add_r by lia. reflexivity. }
    assert (Hpow1 : 2 ^ (d - 1) = 8388608 * 2 ^ Z.pos n).
    { replace (d - 1) with (23 + Z.pos n) by lia. rewrite Z.pow_add_r by lia. reflexivity. }
    assert (Hn0 : 0 < 2 ^ Z.pos n) by (apply Z.pow_pos_nonneg; lia).
    assert (Hm' : 8388608 <= shr_m mrs < 16777216).
    { rewrite Hm. split.
      - apply Z.div_le_lower_bound; lia.
      - apply Z.div_lt_upper_bound; lia. }
    pose proof (round_nearest_even_bounds (shr_m mrs) (loc_of_shr_record mrs)) as Br.
    set (m2 := round_nearest_even (shr_m mrs) (loc_of_shr_record mrs)) in *.
    destruct (finish_normal m2 (e + Z.pos n)) as (mq & eq & E & _ & Hsame & Hrange);
      [lia|lia|].
    exists mq, eq. split; [exact E|].
    destruct (Z.eq_dec (e + Z.pos n) (-24)) as [Hedge|Hin]; [|lia].
    rewrite Hsame; [lia|].
    assert (Hsmall : shr_m mrs + 1 < 16777216); [|lia].
    rewrite Hm.
    assert (Hpe : 2 ^ (- e) = 16777216 * 2 ^ Z.pos n).
    { replace (- e) with (24 + Z.pos n) by lia. rewrite Z.pow_add_r by lia. reflexivity. }
    assert (Hn16 : 2 ^ Z.pos n <= 65536).
    { change 65536 with (2 ^ 16). apply Z.pow_le_mono_r; lia. }
    assert (Z.pos p / 2 ^ Z.pos n <= 16777216 - 128); [|lia].
    apply Z.div_le_upper_bound; [lia|]. nia.
  - assert (Hk : Z.pos n = 24 - d) by lia.
    assert (Hm : Z.pos (Pos.iter xO p n) = Z.pos p * 2 ^ Z.pos n) by apply iter_xO.
    assert (Hd24 : digits2_pos (Pos.iter xO p n) = 24%positive).
    { apply Pos2Z.inj. apply digits2_pos_unique; [|lia].
      rewrite Hm, Hk. change (24 - 1) with 23.
      assert (E23 : 2 ^ 23 = 2 ^ (d - 1) * 2 ^ (24 - d)).
      { rewrite <- Z.pow_add_r by lia. f_equal. lia. }
      assert (E24 : 2 ^ 24 = 2 ^ d * 2 ^ (24 - d)).
      { rewrite <- Z.pow_add_r by lia. f_equal. lia. }
      assert (0 < 2 ^ (24 - d)) by (apply Z.pow_pos_nonneg; lia).
      rewrite E23, E24.
      split; [apply Z.mul_le_mono_nonneg_r; lia|apply Z.mul_lt_mono_pos_r; lia]. }
    rewrite binary_round_aux_24; [|exact Hd24|lia].
    eexists _, _. split; [reflexivity|lia].
Qed.

Lemma one_minus_fraction (mq : positive) (eq : Z) :
  digits2_pos mq = 24%positive -> -40 <= eq <= -24 ->
  exists m e,
    SFsub 24 128 (S754_finite false 8388608 (-23)) (S754_finite false mq eq)
      = S754_finite false m e /\ e <= -24.
Proof.
  intros Hd He.
  pose proof (proj2 (digits_24 mq) Hd) as B.
  cbn [SFsub cond_Zopp]. replace (Z.min (-23) eq) with eq by lia.
  unfold shl_align at 2. rewrite Z.sub_diag. cbn [fst].
  unfold shl_align.
  destruct (eq - -23) as [|d|d] eqn:Ed; try lia. cbn [fst].
  rewrite iter_xO.
  assert (Hpe : 2 ^ (- eq) = 8388608 * 2 ^ Z.pos d).
  { replace (- eq) with (23 + Z.pos d) by lia. rewrite Z.pow_add_r by lia. reflexivity. }
  assert (H2 : 2 <= 2 ^ Z.pos d).
  { change 2 with (2 ^ 1) at 1. apply Z.pow_le_mono_r; lia. }
  destruct (8388608 * 2 ^ Z.pos d - Z.pos mq) as [|pD|pD] eqn:ED; try lia.
  cbn [binary_normalize]. apply round_below_one; lia.
Qed.

Lemma ghostAlpha_fraction (i ghost : Z) :
  1 <= i < ghost -> ghost <= 32767 ->
  exists m e, ghostAlpha i ghost = S754_finite false m e /\ e <= -24.
Proof.
  intros Hi Hg.
  destruct (short_converts i ltac:(lia)) as (m1 & e1 & E1 & D1 & R1 & V1).
  destruct (short_converts ghost ltac:(lia)) as (m2 & e2 & E2 & D2 & R2 & V2).
  pose proof (proj2 (digits_24 m1) D1) as B1.
  pose proof (proj2 (digits_24 m2) D2) as B2.
  assert (Hord : e1 - e2 < 0 \/ (e1 = e2 /\ Z.pos m1 < Z.pos m2)).
  { destruct (Z.lt_trichotomy e1 e2) as [Hlt|[Heq|Hgt]]; [left; lia| |].
    - right. split; [assumption|]. subst e2. rewrite V1, V2.
      assert (0 < 2 ^ (- e1)) by (apply Z.pow_pos_nonneg; lia). nia.
    - exfalso.
      replace (- e2) with ((- e1) + (e1 - e2)) in V2 by lia.
      rewrite Z.pow_add_r in V2 by lia.
      assert (0 < 2 ^ (- e1)) by (apply Z.pow_pos_nonneg; lia).
      assert (2 <= 2 ^ (e1 - e2)).
      { change 2 with (2 ^ 1) at 1. apply Z.pow_le_mono_r; lia. }
      set (P := 2 ^ (- e1)) in *. set (Q := 2 ^ (e1 - e2)) in *.
      assert (Z.pos m1 < ghost * P) by nia.
      assert (ghost * P * 2 <= ghost * P * Q) by (apply Z.mul_le_mono_nonneg_l; nia).
      lia. }
  destruct (div_below_one m1 m2 e1 e2 D1 D2 ltac:(lia) ltac:(lia))
    as (mq & eq & E & Dq & Rq).
  unfold ghostAlpha, F32.sub, F32.div, F32.prec, F32.emax.
  rewrite E1, E2, E.
  change F32.one with (S754_finite false 8388608 (-23)).
  apply one_minus_fraction; assumption.
Qed.

Lemma ghostAlpha_between (i ghost : Z) :
  1 <= i < ghost -> ghost <= 32767 ->
  F32.ltb F32.zero (ghostAlpha i ghost) = true /\
  F32.ltb (ghostAlpha i ghost) F32.one = true.
Proof.
  intros Hi Hg. destruct (ghostAlpha_fraction i ghost Hi Hg) as (m & e & -> & He).
  split; [reflexivity|].
  unfold F32.ltb, SFltb, SFcompare. change F32.one with (S754_finite false 8388608 (-23)).
  cbv iota beta. replace (e ?= -23) with Lt; [reflexivity|].
  symmetry. apply Z.compare_lt_iff. lia.
Qed.

(** X26.  For an annotation that is not on all frames and lies inside
    a ghost window, [i] frames before the current frame with
    [1 <= i <= ghostPrevious - 1] or [i] frames after it with
    [1 <= i <= ghostNext - 1], the alpha multiplier is a proper fraction in
    [float]: above 0 and below 1.  A ghosted annotation is fainter than one
    of the current frame, and is never skipped. *)
Theorem ghosted_alpha_is_a_proper_fraction (v : View) (currentFrame : Z)
    (annotation : Annotation) :
  -32768 < ghostPrevious v <= 32767 ->
  -32768 <= ghostNext v <= 32767 ->
  allFrames annotation = false ->
  1 <= currentFrame - frame annotation <= ghostPrevious v - 1 \/
  1 <= frame annotation - currentFrame <= ghostNext v - 1 ->
  F32.ltb F32.zero (alphaMult v currentFrame annotation) = true /\
  F32.ltb (alphaMult v currentFrame annotation) F32.one = true.
Proof.
  intros Hp Hn Hall Hin.
  assert (Hother : frame annotation <> currentFrame) by lia.
  destruct Hin as [Hi|Hi].
  - rewrite (alphaMult_previous v currentFrame annotation Hp Hall Hother
               (currentFrame - frame annotation) Hi eq_refl).
    apply ghostAlpha_between; lia.
  - rewrite (alphaMult_next v currentFrame annotation Hall Hother
               (frame annotation - currentFrame) Hi eq_refl).
    apply ghostAlpha_between; lia.
Qed.

End GhostRange.

Lemma ghosted_alpha_is_a_proper_fraction_witness :
  let v := Sample.view 5 0 in
  -32768 < Viewport.ghostPrevious v <= 32767 /\
  -32768 <= Viewport.ghostNext v <= 32767 /\
  Viewport.allFrames Sample.annotation10 = false /\
  (1 <= 12 - Viewport.frame Sample.annotation10 <= Viewport.ghostPrevious v - 1 \/
   1 <= Viewport.frame Sample.annotation10 - 12 <= Viewport.ghostNext v - 1) /\
  F32.ltb F32.zero (Viewport.alphaMult v 12 Sample.annotation10) = true /\
  F32.ltb (Viewport.alphaMult v 12 Sample.annotation10) F32.one = true.
Proof.
  cbv zeta.
  assert (H1 : -32768 < Viewport.ghostPrevious (Sample.view 5 0) <= 32767) by (cbn; lia).
  assert (H2 : -32768 <= Viewport.ghostNext (Sample.view 5 0) <= 32767) by (cbn; lia).
  assert (H3 : Viewport.allFrames Sample.annotation10 = false) by reflexivity.
  assert (H4 : 1 <= 12 - Viewport.frame Sample.annotation10
                 <= Viewport.ghostPrevious (Sample.view 5 0) - 1 \/
               1 <= Viewport.frame Sample.annotation10 - 12
                 <= Viewport.ghostNext (Sample.view 5 0) - 1) by (left; cbn; lia).
  split; [exact H1|]. split; [exact H2|]. split; [exact H3|]. split; [exact H4|].
  exact (ghosted_alpha_is_a_proper_fraction (Sample.view 5 0) 12 Sample.annotation10
           H1 H2 H3 H4).
Defined.

(* ================================================================== *)
(** * The mouse position under a power-of-two zoom *)
(* ================================================================== *)

Section ReadoutZoom.
Import Binary32 Readout AreaSpec.

(** Dividing a normalised float by a power of two only lowers its
    exponent. *)
Lemma div_pow2 (s : bool) (m : positive) (e k : Z) :
  digits2_pos m = 24%positive -> -148 <= e - k <= 104 ->
  SFdiv 24 128 (S754_finite s m e) (S754_finite false 8388608 (k - 23))
    = S754_finite s m (e - k).
Proof.
  intros Hd He. pose proof (proj2 (digits_24 m) Hd) as B.
  cbn [SFdiv]. rewrite xorb_false_r. unfold SFdiv_core_binary. cbn [Zdigits2].
  rewrite Hd. change (digits2_pos 8388608) with 24%positive.
  replace (Z.min (fexp 24 128 (24 + e - (24 + (k - 23)))) (e - (k - 23)))
    with (e - k - 1) by (unfold fexp, emin; lia).
  replace (e - (k - 23) - (e - k - 1)) with 24 by lia.
  rewrite Z.shiftl_mul_pow2 by lia. change (2 ^ 24) with 16777216.
  pose proof (Z_div_mod (Z.pos m * 16777216) 8388608 ltac:(lia)) as Hdm.
  destruct (Z.div_eucl (Z.pos m * 16777216) 8388608) as [q r].
  destruct Hdm as [Hq Hr].
  assert (Eq : q = Z.pos m~0) by lia. assert (Er : r = 0) by lia. subst q r.
  change (new_location 8388608 0) with loc_Exact.
  unfold binary_round_aux.
  assert (D25 : digits2_pos m~0 = 25%positive) by (cbn [digits2_pos]; rewrite Hd; reflexivity).
  rewrite shr_fexp_25 by (assumption || lia).
  cbn [shr_record_of_loc shr_1 shr_m loc_of_shr_record round_nearest_even orb].
  rewrite shr_fexp_24 by (assumption || lia).
  cbn [shr_record_of_loc shr_m].
  replace (e - k - 1 + 1) with (e - k) by lia.
  replace (e - k <=? 128 - 24) with true by lia. reflexivity.
Qed.

Lemma pow2_float (k : Z) :
  0 <= k <= 8 -> F32.of_Z (2 ^ k) = S754_finite false 8388608 (k - 23).
Proof.
  intros Hk.
  assert (Hc : k = 0 \/ k = 1 \/ k = 2 \/ k = 3 \/ k = 4 \/ k = 5 \/ k = 6 \/ k = 7 \/ k = 8)
    by lia.
  repeat (destruct Hc as [->|Hc]; [reflexivity|]). subst k. reflexivity.
Qed.

Lemma of_pos_normal (s : bool) (p : positive) :
  Z.pos p < 16777216 ->
  exists m e,
    binary_round 24 128 s p 0 = S754_finite s m e /\ digits2_pos m = 24%positive /\
    -23 <= e <= 0 /\ Z.pos m = Z.pos p * 2 ^ (- e).
Proof.
  intros Hp. destruct (of_pos_exact s p Hp) as (m & e & E & He & Hm).
  exists m, e. split; [exact E|]. split; [|auto].
  assert (Hz : is_zero (binary_round 24 128 s p 0) = false)
    by (apply binary_round_not_zero; lia).
  pose proof (digits2_pos_bounds p) as [Blo Bhi].
  set (d := Z.pos (digits2_pos p)) in *.
  assert (Hd : 1 <= d <= 24).
  { split; [subst d; lia|].
    destruct (Z_le_gt_dec d 24) as [|Hgt]; [assumption|].
    assert (2 ^ 24 <= 2 ^ (d - 1)) by (apply Z.pow_le_mono_r; lia).
    change (2 ^ 24) with 16777216 in *. lia. }
  revert E. unfold binary_round. rewrite Z.add_0_r. fold d.
  unfold fexp, emin. replace (Z.max (d - 24) (3 - 128 - 24)) with (d - 24) by lia.
  unfold shl_align. rewrite Z.sub_0_r.
  destruct (Z.eq_dec d 24) as [E24|NE].
  - rewrite E24. change (24 - 24) with 0. cbv iota beta.
    rewrite binary_round_aux_24; [|apply Pos2Z.inj; exact E24|lia].
    intros [= <- <-]. apply Pos2Z.inj. exact E24.
  - destruct (d - 24) as [|q|q] eqn:Eq; try lia.
    assert (Hmq : Z.pos (Pos.iter xO p q) = Z.pos p * 2 ^ Z.pos q) by apply iter_xO.
    assert (Hq : Z.pos q = 24 - d) by lia.
    assert (Hd24 : digits2_pos (Pos.iter xO p q) = 24%positive).
    { apply Pos2Z.inj. apply digits2_pos_unique; [|lia].
      rewrite Hmq, Hq. change (24 - 1) with 23.
      assert (E23 : 2 ^ 23 = 2 ^ (d - 1) * 2 ^ (24 - d)).
      { rewrite <- Z.pow_add_r by lia. f_equal. lia. }
      assert (E24' : 2 ^ 24 = 2 ^ d * 2 ^ (24 - d)).
      { rewrite <- Z.pow_add_r by lia. f_equal. lia. }
      assert (0 < 2 ^ (24 - d)) by (apply Z.pow_pos_nonneg; lia).
      rewrite E23, E24'.
      split; [apply Z.mul_le_mono_nonneg_r; lia|apply Z.mul_lt_mono_pos_r; lia]. }
    rewrite binary_round_aux_24; [|exact Hd24|lia].
    intros [= <- <-]. exact Hd24.
Qed.

Lemma zoomed_coordinate (d k : Z) :
  exact d -> 0 <= k <= 8 ->
  F32.to_int (F32.of_Z d / F32.of_Z (2 ^ k))%f32 = Z.quot d (2 ^ k).
Proof.
  intros Hd Hk. rewrite pow2_float by assumption.
  assert (Hpk : 0 < 2 ^ k) by (apply Z.pow_pos_nonneg; lia).
  unfold exact in Hd.
  unfold F32.div, F32.of_Z, binary_normalize, F32.prec, F32.emax. destruct d as [|p|p].
  - cbn. rewrite Z.quot_0_l by lia. reflexivity.
  - destruct (of_pos_normal false p) as (m & e & -> & Hdg & He & Hm); [lia|].
    rewrite div_pow2 by (assumption || lia).
    unfold F32.to_int. rewrite Z.quot_div_nonneg by lia.
    destruct (Z.eq_dec (e - k) 0) as [E0|NE].
    + rewrite E0. cbn [Z.leb Z.compare]. assert (e = 0 /\ k = 0) as [-> ->] by lia.
      cbn in Hm |- *. rewrite Z.div_1_r. lia.
    + replace (0 <=? e - k) with false by lia. rewrite Hm.
      replace (- (e - k)) with (- e + k) by lia. rewrite Z.pow_add_r by lia.
      rewrite (Z.mul_comm (Z.pos p)). rewrite Z.div_mul_cancel_l; [reflexivity|lia|apply Z.pow_nonzero; lia].
  - destruct (of_pos_normal true p) as (m & e & -> & Hdg & He & Hm); [lia|].
    rewrite div_pow2 by (assumption || lia).
    unfold F32.to_int. change (Z.neg p) with (- Z.pos p).
    rewrite Z.quot_opp_l by lia. rewrite Z.quot_div_nonneg by lia.
    destruct (Z.eq_dec (e - k) 0) as [E0|NE].
    + rewrite E0. cbn [Z.leb Z.compare]. assert (e = 0 /\ k = 0) as [-> ->] by lia.
      cbn in Hm |- *. rewrite Z.div_1_r. lia.
    + replace (0 <=? e - k) with false by lia. rewrite Hm.
      replace (- (e - k)) with (- e + k) by lia. rewrite Z.pow_add_r by lia.
      rewrite (Z.mul_comm (Z.pos p)). rewrite Z.div_mul_cancel_l; [reflexivity|lia|apply Z.pow_nonzero; lia].
Qed.

(** X27.  For a zoom that is a power of two from 1 to 256 and an
    offset of the mouse from the view position below 2^24 in magnitude,
    the image position [_readPixel] computes is the offset divided by the
    zoom and truncated toward zero, in both coordinates: an offset of
    magnitude below the zoom gives 0, to the left of the image as to the
    right. *)
Theorem zoomed_mouse_position_truncates_toward_zero (p : Probe) (k : Z) :
  let dx := x (p_mousePos p) - x (p_viewPos p) in
  let dy := y (p_mousePos p) - y (p_viewPos p) in
  0 <= k <= 8 -> p_viewZoom p = F32.of_Z (2 ^ k) ->
  exact dx -> exact dy ->
  mousePixel p = mkVector2i (Z.quot dx (2 ^ k)) (Z.quot dy (2 ^ k)) /\
  (- 2 ^ k < dx < 2 ^ k -> x (mousePixel p) = 0) /\
  (- 2 ^ k < dy < 2 ^ k -> y (mousePixel p) = 0).
Proof.
  intros dx dy Hk Hz Hx Hy.
  assert (E : mousePixel p = mkVector2i (Z.quot dx (2 ^ k)) (Z.quot dy (2 ^ k))).
  { unfold mousePixel. rewrite Hz. fold dx dy. rewrite !zoomed_coordinate by assumption.
    reflexivity. }
  rewrite E. cbn [x y]. split; [reflexivity|].
  split; intros Hs; apply Z.quot_small_iff; lia.
Qed.

End ReadoutZoom.

Lemma zoomed_mouse_position_truncates_toward_zero_witness :
  let p := Readout.mkProbe true (mkVector2i 7 (-3)) (mkVector2i 0 0) (F32.of_Z 4)
                           false false true [] [] None in
  0 <= 2 <= 8 /\ Readout.p_viewZoom p = F32.of_Z (2 ^ 2) /\
  AreaSpec.exact 7 /\ AreaSpec.exact (-3) /\
  Readout.mousePixel p = mkVector2i 1 0.
Proof.
  intros p.
  assert (Hk : 0 <= 2 <= 8) by lia.
  assert (Hz : Readout.p_viewZoom p = F32.of_Z (2 ^ 2)) by reflexivity.
  assert (Hx : AreaSpec.exact 7) by (unfold AreaSpec.exact; lia).
  assert (Hy : AreaSpec.exact (-3)) by (unfold AreaSpec.exact; lia).
  split; [exact Hk|]. split; [exact Hz|]. split; [exact Hx|]. split; [exact Hy|].
  exact (proj1 (zoomed_mouse_position_truncates_toward_zero p 2 Hk Hz Hx Hy)).
Defined.

(* ================================================================== *)
(** * Instances *)
(* ================================================================== *)

Lemma interleaved_probe_reads_its_own_pixel_witness :
  let image := Inputs.rgba8_2x1 in
  let pos := mkVector2i 1 0 in
  let size := getSize image in
  let X := PixelProbe.probeX false size pos in
  let Y := PixelProbe.probeY false size pos in
  ProbeSpec.isInterleaved (getPixelType image) = true /\
  PixelProbe.inImage size X Y = true /\
  w size * h size * ProbeSpec.pixelBytes (getPixelType image)
    <= Z.of_nat (length (getData image)) /\
  exists c,
    @PixelProbe._getPixelValue Sample.plainColorSpaces false false Sample.black image pos
      = Some c /\
    @PixelProbe._getPixelValue Sample.plainColorSpaces false false Sample.black
      (ProbeSpec.pixelImage image (Y * w size + X)) (mkVector2i 0 0) = Some c.
Proof.
  intros image pos size X Y.
  assert (Ht : ProbeSpec.isInterleaved (getPixelType image) = true) by reflexivity.
  assert (Hin : PixelProbe.inImage size X Y = true) by reflexivity.
  assert (Hlen : w size * h size * ProbeSpec.pixelBytes (getPixelType image)
                 <= Z.of_nat (length (getData image))) by (vm_compute; discriminate).
  split; [exact Ht|]. split; [exact Hin|]. split; [exact Hlen|].
  exact (@interleaved_probe_reads_its_own_pixel Sample.plainColorSpaces false false
           Sample.black image pos Ht Hin Hlen).
Defined.

Lemma opaque_formats_probe_alpha_one_witness :
  let image := Inputs.rgb8_1x1 in
  let pos := mkVector2i 0 0 in
  let size := getSize image in
  ProbeSpec.isOpaque (getPixelType image) = true /\
  PixelProbe.inImage size (PixelProbe.probeX false size pos)
                     (PixelProbe.probeY false size pos) = true /\
  exists c,
    @PixelProbe._getPixelValue Sample.plainColorSpaces false false Sample.black image pos
      = Some c /\
    a c = F32.one.
Proof.
  intros image pos size.
  assert (Ht : ProbeSpec.isOpaque (getPixelType image) = true) by reflexivity.
  assert (Hin : PixelProbe.inImage size (PixelProbe.probeX false size pos)
                  (PixelProbe.probeY false size pos) = true) by reflexivity.
  split; [exact Ht|]. split; [exact Hin|].
  destruct (@PixelProbe._getPixelValue Sample.plainColorSpaces false false Sample.black
              image pos) as [c|] eqn:E; [|vm_compute in E; discriminate E].
  exists c. split; [reflexivity|].
  exact (@opaque_formats_probe_alpha_one Sample.plainColorSpaces false false Sample.black
           image pos c Ht Hin E).
Defined.

Lemma undecoded_formats_keep_colour_witness :
  let image := Inputs.l_f32_1x1 in
  let pos := mkVector2i 0 0 in
  let size := getSize image in
  ProbeSpec.isUndecoded (getPixelType image) = true /\
  PixelProbe.inImage size (PixelProbe.probeX false size pos)
                     (PixelProbe.probeY false size pos) = true /\
  @PixelProbe._getPixelValue Sample.plainColorSpaces false false Sample.grey image pos
    = Some (set_a Sample.grey F32.one).
Proof.
  intros image pos size.
  assert (Ht : ProbeSpec.isUndecoded (getPixelType image) = true) by reflexivity.
  assert (Hin : PixelProbe.inImage size (PixelProbe.probeX false size pos)
                  (PixelProbe.probeY false size pos) = true) by reflexivity.
  split; [exact Ht|]. split; [exact Hin|].
  exact (proj1 (@undecoded_formats_keep_colour Sample.plainColorSpaces false false
                  Sample.grey image pos Ht Hin)).
Defined.

Lemma normalisation_is_strictly_increasing_witness :
  0 <= 3 < 200 /\ 200 <= 255 /\
  F32.ltb (PixelProbe.norm 3 PixelProbe.f255) (PixelProbe.norm 200 PixelProbe.f255) = true /\
  F32.ltb (PixelProbe.norm 3 PixelProbe.f65535) (PixelProbe.norm 200 PixelProbe.f65535) = true.
Proof.
  assert (Hu : 0 <= 3 < 200) by lia.
  assert (H8 : 200 <= 255) by lia.
  assert (H16 : 200 <= 65535) by lia.
  split; [exact Hu|]. split; [exact H8|].
  destruct (normalisation_is_strictly_increasing 3 200 Hu) as (I8 & I16 & _).
  split; [exact (I8 H8)|exact (I16 H16)].
Defined.

Lemma small_integer_formats_probe_in_unit_range_witness :
  let image := Inputs.rgba8_2x1 in
  let pos := mkVector2i 1 0 in
  let size := getSize image in
  ProbeSpec.isSmallInteger (getPixelType image) = true /\
  PixelProbe.inImage size (PixelProbe.probeX true size pos)
                     (PixelProbe.probeY false size pos) = true /\
  exists c,
    @PixelProbe._getPixelValue Sample.plainColorSpaces true false Sample.black image pos
      = Some c /\
    ProbeSpec.inUnit (r c) /\ ProbeSpec.inUnit (g c) /\ ProbeSpec.inUnit (b c) /\
    ProbeSpec.inUnit (a c).
Proof.
  intros image pos size.
  assert (Ht : ProbeSpec.isSmallInteger (getPixelType image) = true) by reflexivity.
  assert (Hin : PixelProbe.inImage size (PixelProbe.probeX true size pos)
                  (PixelProbe.probeY false size pos) = true) by reflexivity.
  split; [exact Ht|]. split; [exact Hin|].
  destruct (@PixelProbe._getPixelValue Sample.plainColorSpaces true false Sample.black
              image pos) as [c|] eqn:E; [|vm_compute in E; discriminate E].
  exists c. split; [reflexivity|].
  exact (@small_integer_formats_probe_in_unit_range Sample.plainColorSpaces true false
           Sample.black image pos c Ht Hin E).
Defined.

Lemma decoded_probe_overwrites_the_colour_witness :
  let image := Inputs.rgb8_1x1 in
  let pos := mkVector2i 0 0 in
  let size := getSize image in
  ProbeSpec.isUndecoded (getPixelType image) = false /\
  PixelProbe.inImage size (PixelProbe.probeX false size pos)
                     (PixelProbe.probeY false size pos) = true /\
  @PixelProbe._getPixelValue Sample.plainColorSpaces false false Sample.black image pos
    = @PixelProbe._getPixelValue Sample.plainColorSpaces false false Sample.grey image pos.
Proof.
  intros image pos size.
  assert (Ht : ProbeSpec.isUndecoded (getPixelType image) = false) by reflexivity.
  assert (Hin : PixelProbe.inImage size (PixelProbe.probeX false size pos)
                  (PixelProbe.probeY false size pos) = true) by reflexivity.
  split; [exact Ht|]. split; [exact Hin|].
  exact (@decoded_probe_overwrites_the_colour Sample.plainColorSpaces false false
           Sample.black Sample.grey image pos Ht Hin).
Defined.

Lemma subsampled_chroma_is_shared_witness :
  let image := Inputs.yuv420_4x2 in
  let pos := mkVector2i 0 0 in
  let pos' := mkVector2i 1 1 in
  let t := getPixelType image in
  let size := getSize image in
  let X := PixelProbe.probeX false size pos in
  let Y := PixelProbe.probeY false size pos in
  let X' := PixelProbe.probeX false size pos' in
  let Y' := PixelProbe.probeY false size pos' in
  Planar.isPlanarU8 t = true /\
  PixelProbe.inImage size X Y = true /\ PixelProbe.inImage size X' Y' = true /\
  Planar.byteCount t size <= Z.of_nat (length (getData image)) /\
  X / Planar.subX t = X' / Planar.subX t /\ Y / Planar.subY t = Y' / Planar.subY t /\
  exists vy vy' vu vv,
    @PixelProbe._getPixelValue Sample.plainColorSpaces false false Sample.black image pos =
      Some (mkColor4f (PixelProbe.norm vy PixelProbe.f255) (PixelProbe.norm vu PixelProbe.f255)
                      (PixelProbe.norm vv PixelProbe.f255) F32.one) /\
    @PixelProbe._getPixelValue Sample.plainColorSpaces false false Sample.black image pos' =
      Some (mkColor4f (PixelProbe.norm vy' PixelProbe.f255) (PixelProbe.norm vu PixelProbe.f255)
                      (PixelProbe.norm vv PixelProbe.f255) F32.one).
Proof.
  intros image pos pos' t size X Y X' Y'.
  assert (Ht : Planar.isPlanarU8 t = true) by reflexivity.
  assert (Hin : PixelProbe.inImage size X Y = true) by reflexivity.
  assert (Hin' : PixelProbe.inImage size X' Y' = true) by reflexivity.
  assert (Hlen : Planar.byteCount t size <= Z.of_nat (length (getData image)))
    by (vm_compute; discriminate).
  assert (HX : X / Planar.subX t = X' / Planar.subX t) by reflexivity.
  assert (HY : Y / Planar.subY t = Y' / Planar.subY t) by reflexivity.
  split; [exact Ht|]. split; [exact Hin|]. split; [exact Hin'|]. split; [exact Hlen|].
  split; [exact HX|]. split; [exact HY|].
  exact (@subsampled_chroma_is_shared Sample.plainColorSpaces false false Sample.black
           image pos pos' Ht Hin Hin' Hlen HX HY).
Defined.

Lemma color_area_scan_stays_in_buffer_witness :
  let gl := Inputs.mapped Inputs.whiteFrame in
  Viewport.image gl = Some Inputs.whiteFrame /\
  AreaSpec.inFrame (Viewport.renderSize Sample.ui) (area.box Inputs.info) /\
  4 * (w (Viewport.renderSize Sample.ui) * h (Viewport.renderSize Sample.ui))
    <= Z.of_nat (length Inputs.whiteFrame) /\
  exists info',
    @Viewport._calculateColorArea Sample.plainColorSpaces Sample.spaceOf math.bw math.bh
      gl Sample.ui Inputs.info = Some info' /\
    area.box info' = area.box Inputs.info.
Proof.
  intros gl.
  assert (Himg : Viewport.image gl = Some Inputs.whiteFrame) by reflexivity.
  assert (Hbox : AreaSpec.inFrame (Viewport.renderSize Sample.ui) (area.box Inputs.info))
    by (unfold AreaSpec.inFrame; cbn; lia).
  assert (Hlen : 4 * (w (Viewport.renderSize Sample.ui) * h (Viewport.renderSize Sample.ui))
                 <= Z.of_nat (length Inputs.whiteFrame)) by (vm_compute; discriminate).
  split; [exact Himg|]. split; [exact Hbox|]. split; [exact Hlen|].
  destruct (@color_area_scan_stays_in_buffer Sample.plainColorSpaces Sample.spaceOf
              math.bw math.bh gl Sample.ui Inputs.info Inputs.whiteFrame Himg Hbox Hlen)
    as (info' & E & B & _).
  exists info'. split; [exact E|exact B].
Defined.

Lemma color_area_extrema_are_bounded_witness :
  let gl := Inputs.mapped Inputs.whiteFrame in
  Viewport.image gl = Some Inputs.whiteFrame /\
  exists info',
    @Viewport._calculateColorArea Sample.plainColorSpaces Sample.spaceOf math.bw math.bh
      gl Sample.ui Inputs.info = Some info' /\
    AreaSpec.each (fun c => SFleb F32.FLT_MIN c = true) (area.max (area.rgba info')) /\
    AreaSpec.each (fun c => SFleb c F32.FLT_MAX = true) (area.min (area.rgba info')).
Proof.
  intros gl.
  assert (Himg : Viewport.image gl = Some Inputs.whiteFrame) by reflexivity.
  split; [exact Himg|].
  destruct (@Viewport._calculateColorArea Sample.plainColorSpaces Sample.spaceOf math.bw
              math.bh gl Sample.ui Inputs.info) as [info'|] eqn:E;
    [|vm_compute in E; discriminate E].
  exists info'. split; [reflexivity|].
  exact (proj1 (@color_area_extrema_are_bounded Sample.plainColorSpaces Sample.spaceOf
                  math.bw math.bh gl Sample.ui Inputs.info info' Inputs.whiteFrame Himg E)).
Defined.

Lemma black_region_reports_positive_maximum_witness :
  let gl := Inputs.mapped Inputs.blackFrame in
  Viewport.image gl = Some Inputs.blackFrame /\
  Forall (fun v => v = F32.zero) Inputs.blackFrame /\
  AreaSpec.nonEmpty (area.box Inputs.info) /\
  exists info',
    @Viewport._calculateColorArea Sample.plainColorSpaces Sample.spaceOf math.bw math.bh
      gl Sample.ui Inputs.info = Some info' /\
    area.max (area.rgba info') = Viewport.splat F32.FLT_MIN /\
    area.min (area.rgba info') = Viewport.splat F32.zero.
Proof.
  intros gl.
  assert (Himg : Viewport.image gl = Some Inputs.blackFrame) by reflexivity.
  assert (Hz : Forall (fun v => v = F32.zero) Inputs.blackFrame)
    by (repeat constructor).
  assert (Hbox : AreaSpec.nonEmpty (area.box Inputs.info))
    by (unfold AreaSpec.nonEmpty; cbn; lia).
  split; [exact Himg|]. split; [exact Hz|]. split; [exact Hbox|].
  destruct (@Viewport._calculateColorArea Sample.plainColorSpaces Sample.spaceOf math.bw
              math.bh gl Sample.ui Inputs.info) as [info'|] eqn:E;
    [|vm_compute in E; discriminate E].
  exists info'. split; [reflexivity|].
  destruct (@black_region_reports_positive_maximum Sample.plainColorSpaces Sample.spaceOf
              math.bw math.bh gl Sample.ui Inputs.info info' Inputs.blackFrame
              Himg Hz Hbox E) as (Hmax & Hmin & _).
  split; [exact Hmax|exact Hmin].
Defined.

Lemma nan_pixel_poisons_the_mean_witness :
  let gl := Inputs.mapped Inputs.nanFrame in
  let ui := Sample.ui in
  Viewport.image gl = Some Inputs.nanFrame /\
  x (math.min (area.box Inputs.info)) <= 1 < x (math.max (area.box Inputs.info)) /\
  y (math.min (area.box Inputs.info)) <= 1 < y (math.max (area.box Inputs.info)) /\
  0 <= 2 <= 3 /\
  0 <= (1 + 1 * w (Viewport.renderSize ui)) * 4 /\
  Inputs.nanFrame !! Z.to_nat ((1 + 1 * w (Viewport.renderSize ui)) * 4 + 2)
    = Some S754_nan /\
  exists info',
    @Viewport._calculateColorArea Sample.plainColorSpaces Sample.spaceOf math.bw math.bh
      gl ui Inputs.info = Some info' /\
    r (area.mean (area.rgba info')) = S754_nan.
Proof.
  intros gl ui.
  assert (Himg : Viewport.image gl = Some Inputs.nanFrame) by reflexivity.
  assert (HX : x (math.min (area.box Inputs.info)) <= 1 < x (math.max (area.box Inputs.info)))
    by (cbn; lia).
  assert (HY : y (math.min (area.box Inputs.info)) <= 1 < y (math.max (area.box Inputs.info)))
    by (cbn; lia).
  assert (Hk : 0 <= 2 <= 3) by lia.
  assert (Hi : 0 <= (1 + 1 * w (Viewport.renderSize ui)) * 4) by (cbn; lia).
  assert (Hnan : Inputs.nanFrame !! Z.to_nat ((1 + 1 * w (Viewport.renderSize ui)) * 4 + 2)
                 = Some S754_nan) by reflexivity.
  split; [exact Himg|]. split; [exact HX|]. split; [exact HY|]. split; [exact Hk|].
  split; [exact Hi|]. split; [exact Hnan|].
  destruct (@Viewport._calculateColorArea Sample.plainColorSpaces Sample.spaceOf math.bw
              math.bh gl ui Inputs.info) as [info'|] eqn:E;
    [|vm_compute in E; discriminate E].
  exists info'. split; [reflexivity|].
  exact (proj1 (@nan_pixel_poisons_the_mean Sample.plainColorSpaces Sample.spaceOf
                  math.bw math.bh gl ui Inputs.info info' Inputs.nanFrame 1 1 2
                  Himg HX HY Hk Hi Hnan E)).
Defined.

Lemma read_pixel_releases_what_it_maps_witness :
  exists rgba' gl' calls,
    @Readout._readPixel Sample.plainColorSpaces Inputs.isValid Sample.black
      Sample.whiteDevice (fun _ _ => Sample.grey) Inputs.fullProbe Sample.black Sample.gl0
      = Some (rgba', gl', calls) /\
    (Viewport.reachable Sample.gl0 -> Viewport.reachable gl') /\
    (Viewport.image Sample.gl0 = None -> Viewport.image gl' = None).
Proof.
  destruct (@Readout._readPixel Sample.plainColorSpaces Inputs.isValid Sample.black
              Sample.whiteDevice (fun _ _ => Sample.grey) Inputs.fullProbe Sample.black
              Sample.gl0) as [[[rgba' gl'] calls]|] eqn:E;
    [|vm_compute in E; discriminate E].
  exists rgba', gl', calls. split; [reflexivity|].
  destruct (@read_pixel_releases_what_it_maps Sample.plainColorSpaces Inputs.isValid
              Sample.black Sample.whiteDevice (fun _ _ => Sample.grey) Inputs.fullProbe
              Sample.black rgba' Sample.gl0 gl' calls E) as (Hr & Hi & _).
  split; [exact Hr|exact Hi].
Defined.

Lemma read_pixel_reuses_the_mapped_buffer_witness :
  let p := Inputs.fullProbe in
  let renderSize := mkSize 2 2 in
  let gl1 := fst (Viewport._bindReadImage Sample.whiteDevice Sample.gl0) in
  let i := ReadoutSpec.mappedIndex p renderSize in
  Readout.valid p = true /\ Readout.pixelValueFull p = true /\
  Readout.gl_buffer p = Some renderSize /\
  Readout.update (Readout.p_timelinePlayers p) = false /\
  Sample.whiteDevice (Viewport.nextIndex gl1) = Some Inputs.whiteFrame /\
  0 <= i /\
  Inputs.whiteFrame !! Z.to_nat i = Some F32.one /\
  Inputs.whiteFrame !! Z.to_nat (i + 1) = Some F32.one /\
  Inputs.whiteFrame !! Z.to_nat (i + 2) = Some F32.one /\
  Inputs.whiteFrame !! Z.to_nat (i + 3) = Some F32.one /\
  @Readout._readPixel Sample.plainColorSpaces Inputs.isValid Sample.black
    Sample.whiteDevice (fun _ _ => Sample.grey) p Sample.black gl1
    = Some (mkColor4f F32.one F32.one F32.one F32.one, Viewport.set_image gl1 None,
            [Readout.Ring Viewport.GlUnmapBuffer; Readout.Ring Viewport.GlBindPackBuffer0]).
Proof.
  intros p renderSize gl1 i.
  assert (Hv : Readout.valid p = true) by reflexivity.
  assert (Hf : Readout.pixelValueFull p = true) by reflexivity.
  assert (Hb : Readout.gl_buffer p = Some renderSize) by reflexivity.
  assert (Hu : Readout.update (Readout.p_timelinePlayers p) = false) by reflexivity.
  assert (Hdev : Sample.whiteDevice (Viewport.nextIndex gl1) = Some Inputs.whiteFrame)
    by reflexivity.
  assert (Hi : 0 <= i) by (vm_compute; discriminate).
  assert (E0 : Inputs.whiteFrame !! Z.to_nat i = Some F32.one) by (vm_compute; reflexivity).
  assert (E1 : Inputs.whiteFrame !! Z.to_nat (i + 1) = Some F32.one)
    by (vm_compute; reflexivity).
  assert (E2 : Inputs.whiteFrame !! Z.to_nat (i + 2) = Some F32.one)
    by (vm_compute; reflexivity).
  assert (E3 : Inputs.whiteFrame !! Z.to_nat (i + 3) = Some F32.one)
    by (vm_compute; reflexivity).
  split; [exact Hv|]. split; [exact Hf|]. split; [exact Hb|]. split; [exact Hu|].
  split; [exact Hdev|]. split; [exact Hi|]. split; [exact E0|]. split; [exact E1|].
  split; [exact E2|]. split; [exact E3|].
  exact (proj1 (@read_pixel_reuses_the_mapped_buffer Sample.plainColorSpaces Inputs.isValid
                  Sample.black Sample.whiteDevice (fun _ _ => Sample.grey) p Sample.black
                  Sample.gl0 renderSize Inputs.whiteFrame F32.one F32.one F32.one F32.one
                  Hv Hf Hb Hu Hdev Hi E0 E1 E2 E3)).
Defined.

Lemma layer_readout_never_reads_image_b_witness :
  let p := Inputs.layerProbe in
  Readout.valid p = true /\ Readout.pixelValueFull p = false /\
  @Readout._readPixel Sample.plainColorSpaces Inputs.isValid Sample.black
    Sample.whiteDevice (fun _ _ => Sample.grey)
    (ReadoutSpec.replaceB (fun _ => Inputs.rgba8_2x1) p) Sample.grey Sample.gl0
  = @Readout._readPixel Sample.plainColorSpaces Inputs.isValid Sample.black
      Sample.whiteDevice (fun _ _ => Sample.grey) p Sample.black Sample.gl0.
Proof.
  intros p.
  assert (Hv : Readout.valid p = true) by reflexivity.
  assert (Hf : Readout.pixelValueFull p = false) by reflexivity.
  split; [exact Hv|]. split; [exact Hf|].
  exact (proj1 (@layer_readout_never_reads_image_b Sample.plainColorSpaces Inputs.isValid
                  Sample.black Sample.whiteDevice (fun _ _ => Sample.grey) p
                  (fun _ => Inputs.rgba8_2x1) Sample.black Sample.grey Sample.gl0 Hv Hf)).
Defined.
